(** * Backdrop-aware filter pass manager of pixi-picture

    A shallow embedding of [src/FilterSystemMixin.ts] (module [Mixin] below)
    and of the second revision of the same file kept in the repository
    (module [Shared] below: one backdrop per region, kept on the state, and
    an [applyFilter] wrapper), followed by the properties of the
    specification.

    Modelling conventions.
    - A JavaScript [number] is an exact rational ([Q]): there is no NaN, no
      infinity and no rounding error; [x / 0] is [Qdiv]'s [0].  Sample
      counts ([MSAA_QUALITY]) and pixel coordinates produced by
      [Math.round] are integers ([Z]).
    - [null] and [undefined] are both [None]; for a uniform slot they are
      both [UNull].
    - A thrown [TypeError] is [None] in the [option] monad.
    - Filters are objects shared by reference: a chain is a list of
      addresses into the [heap] of the world.  Rectangles, matrices,
      textures and filter states are copied by value.
    - Arrays used as stacks ([defaultFilterStack], [statePool]) are kept
      top first: the head of the list is the last element of the array.
    - Calls into the host renderer (texture pool, framebuffer, GL, console,
      [filter.apply]) are recorded, in order, in the [log] of the world. *)

From Stdlib Require Import ZArith QArith Qround Qminmax Permutation Lia.
From stdpp Require Import base option list gmap strings.

Abbreviation number := Q.

(** ** JavaScript helpers *)

(** [Math.round]: the nearest integer, halves rounded up. *)
Definition Math_round (v : number) : Z := Qfloor (v + (1 # 2))%Q.

Definition Math_min (u v : number) : number := Qmin u v.
Definition Math_max (u v : number) : number := Qmax u v.

(** [u <= v], [u < v] and [u >= v] on numbers, as booleans. *)
Definition leq (u v : number) : bool := Qle_bool u v.
Definition lt (u v : number) : bool := negb (Qle_bool v u).
Definition geq (u v : number) : bool := Qle_bool v u.

(** [v || d] on an optional number: [null], [undefined] and [0] are falsy. *)
Definition or_number (v : option number) (d : number) : number :=
  match v with
  | Some r => if Qeq_bool r 0 then d else r
  | None => d
  end.

(** [ToNumber] on an optional number, as [Math.min] and arithmetic apply
    it: [null] reads as 0. *)
Definition to_number (v : option number) : number :=
  match v with
  | Some r => r
  | None => 0
  end.

(** [v ?? d]: only [null] and [undefined] fall back. *)
Definition nullish {A} (v : option A) (d : A) : A :=
  match v with
  | Some r => r
  | None => d
  end.

(** Truthiness of a string-or-null: [null] and the empty string are falsy. *)
Definition truthy_name (v : option string) : option string :=
  match v with
  | Some EmptyString => None
  | other => other
  end.

(** ** Data *)

Module Rectangle.
Record t := mk { x : number; y : number; width : number; height : number }.
Definition EMPTY : t := mk 0 0 0 0.
Definition set_size (r : t) (w h : number) : t := mk (x r) (y r) w h.
End Rectangle.

Module Matrix.
Record t := mk { a : number; b : number; c : number; d : number;
                 tx : number; ty : number }.
Definition IDENTITY : t := mk 1 0 0 1 0 0.
End Matrix.

Module RenderTexture.
(** [resolution] is [baseTexture.resolution] (the getter of the texture
    forwards to it); [multisample] and [framebuffer_multisample] are the
    two places the source reads the sample count from. *)
Record t := mk {
  id : nat;
  width : number;
  height : number;
  resolution : number;
  multisample : Z;
  framebuffer_multisample : Z;
  filterFrame : option Rectangle.t
}.
Definition set_filterFrame (r : t) (f : option Rectangle.t) : t :=
  mk (id r) (width r) (height r) (resolution r) (multisample r)
     (framebuffer_multisample r) f.
End RenderTexture.

(** The value of a uniform slot: unset, a texture, or a two-element
    [Float32Array]. *)
Inductive UValue :=
| UNull
| UTexture (texture : RenderTexture.t)
| UFloats (v0 v1 : number).

Definition uniform_truthy (v : option UValue) : bool :=
  match v with
  | None | Some UNull => false
  | Some _ => true
  end.

Definition uniform_of_texture (o : option RenderTexture.t) : UValue :=
  match o with
  | Some r => UTexture r
  | None => UNull
  end.

(** The contents of a flip descriptor read from a slot. *)
Definition floats_of (v : option UValue) : number * number :=
  match v with
  | Some (UFloats v0 v1) => (v0, v1)
  | _ => (0%Q, 1%Q)
  end.

Module Filter.
(** A [BackdropFilter]: the fields the pass manager reads or writes.
    [state] is the address of the filter's [State] object. *)
Record t := mk {
  resolution : option number;
  multisample : option Z;
  padding : number;
  autoFit : bool;
  legacy : option bool;
  backdropUniformName : option string;
  uniforms : gmap string UValue;
  _backdropActive : bool;
  trivial : bool;
  state : option nat;
  clearColor : option (number * number * number * number)
}.
Definition set_uniforms (f : t) (u : gmap string UValue) : t :=
  mk (resolution f) (multisample f) (padding f) (autoFit f) (legacy f)
     (backdropUniformName f) u (_backdropActive f) (trivial f) (state f)
     (clearColor f).
Definition set_backdropActive (f : t) (v : bool) : t :=
  mk (resolution f) (multisample f) (padding f) (autoFit f) (legacy f)
     (backdropUniformName f) (uniforms f) v (trivial f) (state f)
     (clearColor f).
Definition set_state (f : t) (s : option nat) : t :=
  mk (resolution f) (multisample f) (padding f) (autoFit f) (legacy f)
     (backdropUniformName f) (uniforms f) (_backdropActive f) (trivial f) s
     (clearColor f).
(** The key [uniforms[bName]] is read with: a [null] name is coerced to
    the string "null". *)
Definition key (n : option string) : string :=
  match n with
  | Some s => s
  | None => "null"
  end.
End Filter.

Module DisplayObject.
(** [filterArea] and the result of [getBounds(true)]. *)
Record t := mk { filterArea : option Rectangle.t; getBounds : Rectangle.t }.
End DisplayObject.

Module FilterState.
(** [backdrop] and [backdropFlip] are the two fields the second revision
    adds ([IPictureFilterState]). *)
Record t := mk {
  renderTexture : option RenderTexture.t;
  target : option DisplayObject.t;
  legacy : bool;
  resolution : number;
  multisample : Z;
  sourceFrame : Rectangle.t;
  destinationFrame : Rectangle.t;
  bindingSourceFrame : Rectangle.t;
  bindingDestinationFrame : Rectangle.t;
  filters : option (list nat);
  transform : option Matrix.t;
  backdrop : option RenderTexture.t;
  backdropFlip : option (number * number)
}.
(** [new FilterState()] *)
Definition new : t :=
  mk None None false 1 0 Rectangle.EMPTY Rectangle.EMPTY Rectangle.EMPTY
     Rectangle.EMPTY None None None None.
(** [state.clear()] *)
Definition clear (s : t) : t :=
  mk None None (legacy s) (resolution s) (multisample s) (sourceFrame s)
     (destinationFrame s) (bindingSourceFrame s) (bindingDestinationFrame s)
     None (transform s) (backdrop s) (backdropFlip s).
Definition set_renderTexture (s : t) (r : option RenderTexture.t) : t :=
  mk r (target s) (legacy s) (resolution s) (multisample s) (sourceFrame s)
     (destinationFrame s) (bindingSourceFrame s) (bindingDestinationFrame s)
     (filters s) (transform s) (backdrop s) (backdropFlip s).
Definition set_backdrop (s : t) (r : option RenderTexture.t)
    (fl : option (number * number)) : t :=
  mk (renderTexture s) (target s) (legacy s) (resolution s) (multisample s)
     (sourceFrame s) (destinationFrame s) (bindingSourceFrame s)
     (bindingDestinationFrame s) (filters s) (transform s) r fl.
End FilterState.

Module GlobalUniforms.
Definition vec4 : Type := number * number * number * number.
(** What the slot [filterClamp] refers to: an array of its own, or, once
    [pop] has assigned [filterClamp = inputClamp], the array of
    [inputClamp] itself. *)
Inductive clamp :=
| Own (v : vec4)
| InputClamp.
Record t := mk {
  outputFrame : Rectangle.t;
  resolution : number;
  inputSize : vec4;
  inputPixel : vec4;
  inputClamp : vec4;
  filterArea : vec4;
  filterClamp : clamp
}.
(** The contents of the array [filterClamp] refers to. *)
Definition read_filterClamp (g : t) : vec4 :=
  match filterClamp g with
  | Own v => v
  | InputClamp => inputClamp g
  end.
End GlobalUniforms.

Inductive CLEAR_MODES := BLEND | CLEAR.

(** ** Calls into the host *)

Inductive Event :=
| GetOptimalFilterTexture (minWidth minHeight resolution : number)
    (multisample : option Z) (result : RenderTexture.t)
| ReturnFilterTexture (texture : UValue)
| Apply (filter : nat) (this : Filter.t) (input : RenderTexture.t)
    (output : option RenderTexture.t) (clearMode : CLEAR_MODES)
| Blit
| Clear (r g b a : number)
| Bind (texture : RenderTexture.t) (sourceFrame destinationFrame : Rectangle.t)
| UniformsUpdate
| ActiveTexture (location : Z)
| TextureBind (texture : RenderTexture.t) (location : Z)
| CopyTexSubImage2D (x y w h : Z)
| Warn (message : string).

(** The host renderer ([@pixi/core], [@pixi/math]): what it answers where the
    source calls it.  The texture pool answers from the calls made so far. *)
Record Host := {
  getOptimalFilterTexture :
    list Event -> number -> number -> number -> option Z -> RenderTexture.t;
  setResolution : RenderTexture.t -> number -> RenderTexture.t;
  pad : Rectangle.t -> number -> Rectangle.t;
  fit : Rectangle.t -> Rectangle.t -> Rectangle.t;
  intersects : Rectangle.t -> Rectangle.t -> bool;
  ceil : Rectangle.t -> number -> Rectangle.t;
  invert : Matrix.t -> Matrix.t;
  transformAABB : option (Matrix.t -> Rectangle.t -> Rectangle.t);
  roundFrame : Rectangle.t -> number -> Rectangle.t -> Rectangle.t ->
               option Matrix.t -> Rectangle.t;
  bindDestination : RenderTexture.t -> Rectangle.t -> Rectangle.t
}.

(** ** The world: renderer, filter system, module variable, heap, log *)

Record World := {
  renderer_resolution : number;
  renderer_multisample : Z;
  background_alpha : number;
  current : option RenderTexture.t;
  sourceFrame : Rectangle.t;
  destinationFrame : Rectangle.t;
  projection_transform : option Matrix.t;
  currentLocation : Z;
  useMaxPadding : bool;
  defaultFilterStack : list FilterState.t;
  statePool : list FilterState.t;
  activeState : option FilterState.t;
  globalUniforms : GlobalUniforms.t;
  hadBackbufferError : bool;
  heap : gmap nat Filter.t;
  log : list Event
}.

Definition set_log (w : World) (l : list Event) : World :=
  Build_World (renderer_resolution w) (renderer_multisample w)
    (background_alpha w) (current w) (sourceFrame w) (destinationFrame w)
    (projection_transform w) (currentLocation w) (useMaxPadding w)
    (defaultFilterStack w) (statePool w) (activeState w) (globalUniforms w)
    (hadBackbufferError w) (heap w) l.

Definition set_heap (w : World) (m : gmap nat Filter.t) : World :=
  Build_World (renderer_resolution w) (renderer_multisample w)
    (background_alpha w) (current w) (sourceFrame w) (destinationFrame w)
    (projection_transform w) (currentLocation w) (useMaxPadding w)
    (defaultFilterStack w) (statePool w) (activeState w) (globalUniforms w)
    (hadBackbufferError w) m (log w).

Definition set_hadBackbufferError (w : World) (v : bool) : World :=
  Build_World (renderer_resolution w) (renderer_multisample w)
    (background_alpha w) (current w) (sourceFrame w) (destinationFrame w)
    (projection_transform w) (currentLocation w) (useMaxPadding w)
    (defaultFilterStack w) (statePool w) (activeState w) (globalUniforms w)
    v (heap w) (log w).

Definition set_currentLocation (w : World) (v : Z) : World :=
  Build_World (renderer_resolution w) (renderer_multisample w)
    (background_alpha w) (current w) (sourceFrame w) (destinationFrame w)
    (projection_transform w) v (useMaxPadding w)
    (defaultFilterStack w) (statePool w) (activeState w) (globalUniforms w)
    (hadBackbufferError w) (heap w) (log w).

(** The filter stack and the pool of free states. *)
Definition set_stacks (w : World) (stack pool : list FilterState.t) : World :=
  Build_World (renderer_resolution w) (renderer_multisample w)
    (background_alpha w) (current w) (sourceFrame w) (destinationFrame w)
    (projection_transform w) (currentLocation w) (useMaxPadding w)
    stack pool (activeState w) (globalUniforms w)
    (hadBackbufferError w) (heap w) (log w).

(** [this.activeState] and the contents of [this.globalUniforms.uniforms]. *)
Definition set_active (w : World) (s : FilterState.t) (g : GlobalUniforms.t)
    : World :=
  Build_World (renderer_resolution w) (renderer_multisample w)
    (background_alpha w) (current w) (sourceFrame w) (destinationFrame w)
    (projection_transform w) (currentLocation w) (useMaxPadding w)
    (defaultFilterStack w) (statePool w) (Some s) g
    (hadBackbufferError w) (heap w) (log w).

(** What [renderTexture.bind] and the assignment to
    [renderer.projection.transform] leave behind. *)
Definition set_binding (w : World) (cur : option RenderTexture.t)
    (src dst : Rectangle.t) (tr : option Matrix.t) : World :=
  Build_World (renderer_resolution w) (renderer_multisample w)
    (background_alpha w) cur src dst tr (currentLocation w) (useMaxPadding w)
    (defaultFilterStack w) (statePool w) (activeState w) (globalUniforms w)
    (hadBackbufferError w) (heap w) (log w).

Definition emit (w : World) (e : Event) : World := set_log w (log w ++ [e]).

(** ** Counting on the log *)

Definition is_acquire (e : Event) : bool :=
  match e with GetOptimalFilterTexture _ _ _ _ _ => true | _ => false end.
Definition is_release (e : Event) : bool :=
  match e with ReturnFilterTexture _ => true | _ => false end.
Definition is_apply (e : Event) : bool :=
  match e with Apply _ _ _ _ _ => true | _ => false end.
Definition is_copy (e : Event) : bool :=
  match e with CopyTexSubImage2D _ _ _ _ => true | _ => false end.
Definition is_warn (e : Event) : bool :=
  match e with Warn _ => true | _ => false end.

Definition count (p : Event -> bool) (l : list Event) : nat :=
  length (List.filter p l).

(** ** Code shared verbatim by the two revisions *)

Definition containsRect (rectOut rectIn : Rectangle.t) : bool :=
  let r1 := (Rectangle.x rectIn + Rectangle.width rectIn)%Q in
  let b1 := (Rectangle.y rectIn + Rectangle.height rectIn)%Q in
  let r2 := (Rectangle.x rectOut + Rectangle.width rectOut)%Q in
  let b2 := (Rectangle.y rectOut + Rectangle.height rectOut)%Q in
  geq (Rectangle.x rectIn) (Rectangle.x rectOut)
  && leq (Rectangle.x rectIn) r2
  && geq (Rectangle.y rectIn) (Rectangle.y rectOut)
  && leq (Rectangle.y rectIn) b2
  && geq r1 (Rectangle.x rectOut)
  && leq r1 r2
  && geq b1 (Rectangle.y rectOut)
  && leq b1 b2.

Definition bindForceLocation (w : World) (texture : RenderTexture.t)
    (location : Z) : World :=
  let w1 :=
    if Z.eqb (currentLocation w) location then w
    else emit (set_currentLocation w location) (ActiveTexture location) in
  emit w1 (TextureBind texture location).

(** [currentResolution] and [currentMultisample] of [pushWithCheck]. *)
Definition currentResolution (w : World) : number :=
  match current w with
  | Some renderTexture => RenderTexture.resolution renderTexture
  | None => renderer_resolution w
  end.

Definition currentMultisample (w : World) : Z :=
  match current w with
  | Some renderTexture => RenderTexture.multisample renderTexture
  | None => renderer_multisample w
  end.

(** The two [console.warn] calls guarded by [hadBackbufferError]. *)
Definition warnBackbuffer (w : World) : World :=
  if hadBackbufferError w then w
  else
    emit (emit (set_hadBackbufferError w true)
      (Warn "pixi-picture: you are trying to use Blend Filter on main framebuffer!"))
      (Warn "pixi-picture: please set backgroundAlpha=0 in renderer creation params").

(** [if (filterStack.length === 1) filterStack[0].renderTexture = current] *)
Definition noteRoot (stack : list FilterState.t)
    (cur : option RenderTexture.t) : list FilterState.t :=
  match stack with
  | [root] => [FilterState.set_renderTexture root cur]
  | _ => stack
  end.

(** [this.statePool.pop() || new FilterState()] *)
Definition takeState (pool : list FilterState.t)
    : FilterState.t * list FilterState.t :=
  match pool with
  | s :: rest => (s, rest)
  | [] => (FilterState.new, [])
  end.

(** The filters a chain of addresses denotes; reading a missing one
    throws. *)
Definition deref (m : gmap nat Filter.t) (filters : list nat)
    : option (list Filter.t) :=
  mapM (fun r => m !! r) filters.

(** ** [src/FilterSystemMixin.ts] *)

Module Mixin.
Section WithHost.
Context (host : Host).

(** The locals [resolution], [multisample], [padding], [autoFit] and
    [legacy] of [pushWithCheck]. *)
Record Settings := {
  resolution : number;
  multisample : Z;
  padding : number;
  autoFit : bool;
  legacy : bool
}.

(** Their values read off [filters[0]]. *)
Definition seed (cr : number) (cm : Z) (f : Filter.t) : Settings :=
  {| resolution := or_number (Filter.resolution f) cr;
     multisample := nullish (Filter.multisample f) cm;
     padding := Filter.padding f;
     autoFit := Filter.autoFit f;
     legacy := nullish (Filter.legacy f) true |}.

(** The body of the loop [for (let i = 1; i < filters.length; i++)]. *)
Definition step (maxPadding : bool) (cr : number) (cm : Z)
    (acc : Settings) (filter : Filter.t) : Settings :=
  {| resolution :=
       Math_min (resolution acc) (or_number (Filter.resolution filter) cr);
     multisample :=
       Z.min (multisample acc) (nullish (Filter.multisample filter) cm);
     padding :=
       if maxPadding then Math_max (padding acc) (Filter.padding filter)
       else (padding acc + Filter.padding filter)%Q;
     autoFit := autoFit acc && Filter.autoFit filter;
     legacy := legacy acc || nullish (Filter.legacy filter) true |}.

(** Reading [filters[0]] of an empty chain throws. *)
Definition settings (maxPadding : bool) (cr : number) (cm : Z)
    (chain : list Filter.t) : option Settings :=
  match chain with
  | [] => None
  | f0 :: rest => Some (fold_left (step maxPadding cr cm) rest (seed cr cm f0))
  end.

Definition prepareBackdrop (w : World) (bounds : Rectangle.t)
    (flipY : number * number)
    : World * option RenderTexture.t * (number * number) :=
  let renderTarget := current w in
  let fr := sourceFrame w in
  let tf := nullish (projection_transform w) Matrix.IDENTITY in
  let capture (resolution : number) (flipY : number * number) :=
    let x := Math_round
      ((Rectangle.x bounds - Rectangle.x fr + Matrix.tx tf) * resolution) in
    let dy := (Rectangle.y bounds - Rectangle.y fr + Matrix.ty tf)%Q in
    let y := Math_round
      ((if lt (snd flipY) 0
        then Rectangle.height fr - (dy + Rectangle.height bounds)
        else dy) * resolution) in
    let w_ := Math_round (Rectangle.width bounds * resolution) in
    let h_ := Math_round (Rectangle.height bounds * resolution) in
    let rt := getOptimalFilterTexture host (log w)
                (inject_Z w_) (inject_Z h_) 1 None in
    let w1 := emit w
      (GetOptimalFilterTexture (inject_Z w_) (inject_Z h_) 1 None rt) in
    let flipY :=
      if lt (snd flipY) 0
      then ((inject_Z h_ / RenderTexture.height rt)%Q, snd flipY)
      else (0%Q, snd flipY) in
    let rt := RenderTexture.set_filterFrame rt (Some fr) in
    let rt := setResolution host rt resolution in
    let w2 := bindForceLocation w1 rt 0 in
    let w3 := emit w2 (CopyTexSubImage2D x y w_ h_) in
    (w3, Some rt, flipY) in
  match renderTarget with
  | Some target =>
      capture (RenderTexture.resolution target) (fst flipY, 1%Q)
  | None =>
      if geq (background_alpha w) 1 then (warnBackbuffer w, None, flipY)
      else capture (renderer_resolution w) (fst flipY, (-1)%Q)
  end.

(** The body of the loop under [// detect backdrop uniform], for the
    filter at address [r]; [backdropFlip] is read only once [backdrop]
    is set.  A truthy flip slot is taken to hold a two-element array. *)
Definition detectOne (w : World) (bounds : Rectangle.t) (r : nat)
    (backdrop : option RenderTexture.t)
    (backdropFlip : option (number * number))
    : option (World * option RenderTexture.t * option (number * number)) :=
  f ← heap w !! r;
  match truthy_name (Filter.backdropUniformName f) with
  | None => Some (w, backdrop, backdropFlip)
  | Some bName =>
      let slot := bName +:+ "_flipY" in
      let uniforms :=
        if uniform_truthy (Filter.uniforms f !! slot)
        then Filter.uniforms f
        else <[slot := UFloats 0 1]> (Filter.uniforms f) in
      let flip := floats_of (uniforms !! slot) in
      '(w1, backdrop1, flip1, backdropFlip1) ←
        match backdrop with
        | None =>
            let '(w1, b, fl) := prepareBackdrop w bounds flip in
            Some (w1, b, fl, Some fl)
        | Some _ =>
            fl ← backdropFlip;
            Some (w, backdrop, fl, backdropFlip)
        end;
      let uniforms := <[slot := UFloats (fst flip1) (snd flip1)]> uniforms in
      let uniforms := <[bName := uniform_of_texture backdrop1]> uniforms in
      let f1 := Filter.set_uniforms f uniforms in
      let f2 :=
        match backdrop1 with
        | Some _ => Filter.set_backdropActive f1 true
        | None => f1
        end in
      Some (set_heap w1 (<[r := f2]> (heap w1)), backdrop1, backdropFlip1)
  end.

Fixpoint detectBackdrop (w : World) (bounds : Rectangle.t)
    (filters : list nat) (backdrop : option RenderTexture.t)
    (backdropFlip : option (number * number))
    : option (World * option RenderTexture.t) :=
  match filters with
  | [] => Some (w, backdrop)
  | r :: rest =>
      '(w1, backdrop1, backdropFlip1) ←
        detectOne w bounds r backdrop backdropFlip;
      detectBackdrop w1 bounds rest backdrop1 backdropFlip1
  end.

(** The source frame of the region, padded, fitted and rounded, and
    whether a backdrop may be captured ([canUseBackdrop]). *)
Definition resolveFrame (w : World) (target : DisplayObject.t)
    (s : Settings) : Rectangle.t * bool :=
  let frame :=
    pad host
      (nullish (DisplayObject.filterArea target) (DisplayObject.getBounds target))
      (padding s) in
  let canUseBackdrop := Z.eqb (currentMultisample w) 0 in
  let sourceFrameProjected :=
    match projection_transform w, transformAABB host with
    | Some m, Some aabb => aabb (invert host m) (sourceFrame w)
    | _, _ => sourceFrame w
    end in
  let '(frame, canUseBackdrop) :=
    if autoFit s then
      let frame := fit host frame sourceFrameProjected in
      (if leq (Rectangle.width frame) 0 || leq (Rectangle.height frame) 0
       then Rectangle.set_size frame 0 0 else frame, canUseBackdrop)
    else
      (if negb (intersects host frame sourceFrameProjected)
       then Rectangle.set_size frame 0 0 else frame,
       containsRect (sourceFrame w) frame) in
  (roundFrame host frame (currentResolution w) (sourceFrame w)
     (destinationFrame w) (projection_transform w),
   canUseBackdrop).

(** The state once [resolution], [legacy], [target] and [sourceFrame]
    are written. *)
Definition stamp (state : FilterState.t) (target : DisplayObject.t)
    (s : Settings) (frame : Rectangle.t) : FilterState.t :=
  FilterState.mk (FilterState.renderTexture state) (Some target) (legacy s)
    (resolution s) (FilterState.multisample state) frame
    (FilterState.destinationFrame state)
    (FilterState.bindingSourceFrame state)
    (FilterState.bindingDestinationFrame state)
    (FilterState.filters state) (FilterState.transform state)
    (FilterState.backdrop state) (FilterState.backdropFlip state).

(** From [// detect backdrop uniform] to [return true]. *)
Definition openRegion (w : World) (state : FilterState.t)
    (stack pool : list FilterState.t) (target : DisplayObject.t)
    (filters : list nat) (s : Settings) (frame : Rectangle.t)
    (canUseBackdrop : bool) : option (bool * World) :=
  '(w1, backdrop) ←
    (if canUseBackdrop then detectBackdrop w frame filters None None
     else Some (w, None));
  let resolution :=
    match backdrop with
    | Some b => RenderTexture.resolution b
    | None => resolution s
    end in
  let rt := getOptimalFilterTexture host (log w1)
              (Rectangle.width frame) (Rectangle.height frame)
              resolution (Some (multisample s)) in
  let w2 := emit w1
    (GetOptimalFilterTexture (Rectangle.width frame) (Rectangle.height frame)
       resolution (Some (multisample s)) rt) in
  let rt := RenderTexture.set_filterFrame rt (Some frame) in
  let state :=
    FilterState.mk (Some rt) (Some target) (legacy s) resolution
      (FilterState.multisample state) frame
      (Rectangle.set_size (FilterState.destinationFrame state)
         (RenderTexture.width rt) (RenderTexture.height rt))
      (sourceFrame w) (destinationFrame w) (Some filters)
      (projection_transform w) (FilterState.backdrop state)
      (FilterState.backdropFlip state) in
  let destinationFrame :=
    Rectangle.mk 0 0 (Rectangle.width frame) (Rectangle.height frame) in
  let w3 :=
    emit (set_binding w2 (Some rt) frame
            (bindDestination host rt destinationFrame) None)
      (Bind rt frame destinationFrame) in
  rl ← last filters;
  fl ← heap w3 !! rl;
  let w4 :=
    match Filter.clearColor fl with
    | Some (r, g, b, a) => emit w3 (Clear r g b a)
    | None => emit w3 (Clear 0 0 0 0)
    end in
  Some (true, set_stacks w4 (state :: stack) pool).

Definition pushWithCheck (w : World) (target : DisplayObject.t)
    (filters : list nat) (checkEmptyBounds : bool) : option (bool * World) :=
  let '(state, pool) := takeState (statePool w) in
  chain ← deref (heap w) filters;
  s ← settings (useMaxPadding w) (currentResolution w) (currentMultisample w)
        chain;
  let stack := noteRoot (defaultFilterStack w) (current w) in
  let '(frame, canUseBackdrop) := resolveFrame w target s in
  let state := stamp state target s frame in
  if checkEmptyBounds && leq (Rectangle.width frame) 1
     && leq (Rectangle.height frame) 1
  then Some (false, set_stacks w stack (FilterState.clear state :: pool))
  else openRegion w state stack pool target filters s frame canUseBackdrop.

Definition push (w : World) (target : DisplayObject.t) (filters : list nat)
    : option (bool * World) :=
  pushWithCheck w target filters false.

(** [filters[i].apply(this, input, output, clearMode, state)] *)
Definition apply (w : World) (filter : nat) (input : RenderTexture.t)
    (output : option RenderTexture.t) (clearMode : CLEAR_MODES)
    : option World :=
  f ← heap w !! filter;
  Some (emit w (Apply filter f input output clearMode)).

(** The loop [for (i = 0; i < filterLen - 1; ++i)] over the filters it
    visits, from index [i] on. *)
Fixpoint pingPong (w : World) (state : FilterState.t) (filters : list nat)
    (i : nat) (flip flop : RenderTexture.t)
    : option (World * RenderTexture.t * RenderTexture.t) :=
  match filters with
  | [] => Some (w, flip, flop)
  | r :: rest =>
      let '(w1, flop1) :=
        if Nat.eqb i 1 && Z.ltb 1 (FilterState.multisample state) then
          let t := getOptimalFilterTexture host (log w)
                     (RenderTexture.width flip) (RenderTexture.height flip)
                     (FilterState.resolution state) None in
          (emit w (GetOptimalFilterTexture (RenderTexture.width flip)
                     (RenderTexture.height flip)
                     (FilterState.resolution state) None t),
           RenderTexture.set_filterFrame t (RenderTexture.filterFrame flip))
        else (w, flop) in
      w2 ← apply w1 r flip (Some flop1) CLEAR;
      pingPong w2 state rest (S i) flop1 flip
  end.

(** The test on [filters[filterLen - 1].trivial]: the heap after the
    assignment to [state], the new [filterLen] and [tmpState]. *)
Definition skipTrivial (m : gmap nat Filter.t) (filters : list nat)
    : option (gmap nat Filter.t * nat * option nat) :=
  let filterLen := length filters in
  if Nat.leb 2 filterLen then
    rl ← filters !! (filterLen - 1)%nat;
    fl ← m !! rl;
    if Filter.trivial fl then
      rp ← filters !! (filterLen - 2)%nat;
      fp ← m !! rp;
      Some (<[rp := Filter.set_state fp (Filter.state fl)]> m,
            (filterLen - 1)%nat, Filter.state fp)
    else Some (m, filterLen, None)
  else Some (m, filterLen, None).

(** The loop under [// release the backdrop!]. *)
Fixpoint releaseBackdrop (w : World) (filters : list nat)
    (backdropFree : bool) : option World :=
  match filters with
  | [] => Some w
  | r :: rest =>
      f ← heap w !! r;
      if Filter._backdropActive f then
        let bName := Filter.key (Filter.backdropUniformName f) in
        let w1 :=
          if backdropFree then w
          else emit w (ReturnFilterTexture
                         (default UNull (Filter.uniforms f !! bName))) in
        let f1 :=
          Filter.set_backdropActive
            (Filter.set_uniforms f (<[bName := UNull]> (Filter.uniforms f)))
            false in
        releaseBackdrop (set_heap w1 (<[r := f1]> (heap w1))) rest true
      else releaseBackdrop w rest backdropFree
  end.

(** The writes of [pop] to the global uniforms. *)
Definition writeUniforms (g : GlobalUniforms.t) (state : FilterState.t)
    : GlobalUniforms.t :=
  let dw := Rectangle.width (FilterState.destinationFrame state) in
  let dh := Rectangle.height (FilterState.destinationFrame state) in
  let sf := FilterState.sourceFrame state in
  let res := FilterState.resolution state in
  let is2 := (1 / dw)%Q in
  let is3 := (1 / dh)%Q in
  let ip0 := inject_Z (Math_round (dw * res)) in
  let ip1 := inject_Z (Math_round (dh * res)) in
  let ip2 := (1 / ip0)%Q in
  let ip3 := (1 / ip1)%Q in
  let inputClamp :=
    (((1 # 2) * ip2)%Q, ((1 # 2) * ip3)%Q,
     (Rectangle.width sf * is2 - (1 # 2) * ip2)%Q,
     (Rectangle.height sf * is3 - (1 # 2) * ip3)%Q) in
  GlobalUniforms.mk sf res (dw, dh, is2, is3) (ip0, ip1, ip2, ip3) inputClamp
    (if FilterState.legacy state
     then (dw, dh, Rectangle.x sf, Rectangle.y sf)
     else GlobalUniforms.filterArea g)
    (if FilterState.legacy state then GlobalUniforms.InputClamp
     else GlobalUniforms.filterClamp g).

(** The chain itself: [if (filterLen === 1) ... else ...]. *)
Definition runChain (w : World) (state lastState : FilterState.t)
    (renderTexture : RenderTexture.t) (filters : list nat) (filterLen : nat)
    : option World :=
  if Nat.eqb filterLen 1 then
    r0 ← filters !! 0%nat;
    w ← apply w r0 renderTexture (FilterState.renderTexture lastState) BLEND;
    Some (emit w (ReturnFilterTexture (UTexture renderTexture)))
  else
    let flip := renderTexture in
    let flop := getOptimalFilterTexture host (log w)
                  (RenderTexture.width flip) (RenderTexture.height flip)
                  (FilterState.resolution state) None in
    let w := emit w
      (GetOptimalFilterTexture (RenderTexture.width flip)
         (RenderTexture.height flip) (FilterState.resolution state)
         None flop) in
    let flop :=
      RenderTexture.set_filterFrame flop (RenderTexture.filterFrame flip) in
    '(w, flip, flop) ←
      pingPong w state (take (filterLen - 1) filters) 0 flip flop;
    let i := (filterLen - 1)%nat in
    ri ← filters !! i;
    w ← apply w ri flip (FilterState.renderTexture lastState) BLEND;
    let w :=
      if Nat.ltb 1 i && Z.ltb 1 (FilterState.multisample state)
      then emit w (ReturnFilterTexture (UTexture renderTexture))
      else w in
    let w := emit w (ReturnFilterTexture (UTexture flip)) in
    Some (emit w (ReturnFilterTexture (UTexture flop))).

(** [if (tmpState) filters[filterLen - 1].state = tmpState] *)
Definition restoreState (w : World) (filters : list nat) (filterLen : nat)
    (tmpState : option nat) : option World :=
  match tmpState with
  | Some _ =>
      r ← filters !! (filterLen - 1)%nat;
      f ← heap w !! r;
      Some (set_heap w (<[r := Filter.set_state f tmpState]> (heap w)))
  | None => Some w
  end.

Definition pop (w : World) : option World :=
  match defaultFilterStack w with
  | [] => None
  | state :: stack =>
      filters ← FilterState.filters state;
      let w := set_active w state (writeUniforms (globalUniforms w) state) in
      let w := emit w UniformsUpdate in
      lastState ← head stack;
      renderTexture ← FilterState.renderTexture state;
      let w :=
        if Z.ltb 1 (RenderTexture.framebuffer_multisample renderTexture)
        then emit w Blit else w in
      '(m, filterLen, tmpState) ← skipTrivial (heap w) filters;
      w ← runChain (set_heap w m) state lastState renderTexture filters
            filterLen;
      w ← restoreState w filters filterLen tmpState;
      w ← releaseBackdrop w filters false;
      Some (set_stacks w stack (FilterState.clear state :: statePool w))
  end.

End WithHost.
End Mixin.

(** ** The second revision of the file

    One backdrop per region, kept in [state.backdrop]; [applyFilter] sets
    and clears the uniform around each [apply]; no multisample handling.
    This revision reads [filter.resolution] without a fallback.  Where
    the field is unset it holds [null] ([Filter.resolution] is a
    [number | null]); nothing throws, and [Math.min] and the arithmetic
    the value meets read it as 0, which is what the model carries. *)

Module Shared.
Section WithHost.
Context (host : Host).

Record Settings := {
  resolution : number;
  padding : number;
  autoFit : bool;
  legacy : bool
}.

(** Their values read off [filters[0]]. *)
Definition seed (f : Filter.t) : Settings :=
  {| resolution := to_number (Filter.resolution f);
     padding := Filter.padding f;
     autoFit := Filter.autoFit f;
     legacy := nullish (Filter.legacy f) false |}.

(** The body of the loop [for (let i = 1; i < filters.length; i++)]. *)
Definition step (maxPadding : bool) (acc : Settings) (filter : Filter.t)
    : Settings :=
  {| resolution :=
       Math_min (resolution acc) (to_number (Filter.resolution filter));
     padding :=
       if maxPadding then Math_max (padding acc) (Filter.padding filter)
       else (padding acc + Filter.padding filter)%Q;
     autoFit := autoFit acc && Filter.autoFit filter;
     legacy := legacy acc || nullish (Filter.legacy filter) false |}.

(** Reading [filters[0]] of an empty chain throws. *)
Definition settings (maxPadding : bool) (chain : list Filter.t)
    : option Settings :=
  match chain with
  | [] => None
  | f0 :: rest => Some (fold_left (step maxPadding) rest (seed f0))
  end.

Definition prepareBackdrop (w : World) (bounds : Rectangle.t)
    (flipY : number * number)
    : World * option RenderTexture.t * (number * number) :=
  let renderTarget := current w in
  let fr := sourceFrame w in
  let tf := nullish (projection_transform w) Matrix.IDENTITY in
  let capture (resolution : number) (flipY : number * number) :=
    let x := Math_round
      ((Rectangle.x bounds - Rectangle.x fr + Matrix.tx tf) * resolution) in
    let dy := (Rectangle.y bounds - Rectangle.y fr + Matrix.ty tf)%Q in
    let y := Math_round
      ((if lt (snd flipY) 0
        then Rectangle.height fr - (dy + Rectangle.height bounds)
        else dy) * resolution) in
    let w_ := Math_round (Rectangle.width bounds * resolution) in
    let h_ := Math_round (Rectangle.height bounds * resolution) in
    let rt := getOptimalFilterTexture host (log w)
                (inject_Z w_) (inject_Z h_) 1 None in
    let w1 := emit w
      (GetOptimalFilterTexture (inject_Z w_) (inject_Z h_) 1 None rt) in
    let flipY :=
      if lt (snd flipY) 0
      then ((inject_Z h_ / RenderTexture.height rt)%Q, snd flipY)
      else flipY in
    let rt := RenderTexture.set_filterFrame rt (Some fr) in
    let rt := setResolution host rt resolution in
    let w2 := bindForceLocation w1 rt 0 in
    let w3 := emit w2 (CopyTexSubImage2D x y w_ h_) in
    (w3, Some rt, flipY) in
  match renderTarget with
  | Some target =>
      capture (RenderTexture.resolution target) (fst flipY, 1%Q)
  | None =>
      if geq (background_alpha w) 1 then (warnBackbuffer w, None, flipY)
      else capture (renderer_resolution w) (fst flipY, (-1)%Q)
  end.

(** The loop under [// detect backdrop uniform], threading
    [state.backdrop] and [state.backdropFlip]. *)
Fixpoint detectBackdrop (w : World) (bounds : Rectangle.t)
    (filters : list nat) (backdrop : option RenderTexture.t)
    (backdropFlip : option (number * number))
    : option (World * option RenderTexture.t * option (number * number)) :=
  match filters with
  | [] => Some (w, backdrop, backdropFlip)
  | r :: rest =>
      f ← heap w !! r;
      match truthy_name (Filter.backdropUniformName f) with
      | None => detectBackdrop w bounds rest backdrop backdropFlip
      | Some bName =>
          let slot := bName +:+ "_flipY" in
          let uniforms :=
            if uniform_truthy (Filter.uniforms f !! slot)
            then Filter.uniforms f
            else <[slot := UFloats 0 1]> (Filter.uniforms f) in
          let w0 := set_heap w (<[r := Filter.set_uniforms f uniforms]> (heap w)) in
          match backdrop with
          | None =>
              let '(w1, b, fl) := prepareBackdrop w0 bounds (0%Q, 1%Q) in
              detectBackdrop w1 bounds rest b (Some fl)
          | Some _ => detectBackdrop w0 bounds rest backdrop backdropFlip
          end
      end
  end.

(** The source frame of the region, padded and fitted, and whether a
    backdrop may be captured; the frame is not rounded yet. *)
Definition resolveFrame (w : World) (target : DisplayObject.t)
    (s : Settings) : option (Rectangle.t * bool) :=
  let frame :=
    pad host
      (nullish (DisplayObject.filterArea target) (DisplayObject.getBounds target))
      (padding s) in
  if autoFit s then
    sourceFrameProjected ←
      match projection_transform w with
      | Some m =>
          aabb ← transformAABB host;
          Some (aabb (invert host m) (sourceFrame w))
      | None => Some (sourceFrame w)
      end;
    Some (fit host frame sourceFrameProjected, true)
  else Some (frame, containsRect (sourceFrame w) frame).

Definition stamp (state : FilterState.t) (target : DisplayObject.t)
    (s : Settings) (frame : Rectangle.t) : FilterState.t :=
  FilterState.mk (FilterState.renderTexture state) (Some target) (legacy s)
    (resolution s) (FilterState.multisample state) frame
    (FilterState.destinationFrame state)
    (FilterState.bindingSourceFrame state)
    (FilterState.bindingDestinationFrame state)
    (FilterState.filters state) (FilterState.transform state)
    (FilterState.backdrop state) (FilterState.backdropFlip state).

(** From the call of [roundFrame] to [return true]. *)
Definition openRegion (w : World) (state : FilterState.t)
    (stack pool : list FilterState.t) (target : DisplayObject.t)
    (filters : list nat) (s : Settings) (frame : Rectangle.t)
    (canUseBackdrop : bool) : option (bool * World) :=
  let frame :=
    roundFrame host frame (currentResolution w) (sourceFrame w)
      (destinationFrame w) (projection_transform w) in
  let frame := ceil host frame (resolution s) in
  '(w1, backdrop, backdropFlip) ←
    (if canUseBackdrop
     then detectBackdrop w frame filters (FilterState.backdrop state)
            (FilterState.backdropFlip state)
     else Some (w, FilterState.backdrop state, FilterState.backdropFlip state));
  let resolution :=
    match backdrop with
    | Some b => RenderTexture.resolution b
    | None => resolution s
    end in
  let rt := getOptimalFilterTexture host (log w1)
              (Rectangle.width frame) (Rectangle.height frame)
              resolution None in
  let w2 := emit w1
    (GetOptimalFilterTexture (Rectangle.width frame) (Rectangle.height frame)
       resolution None rt) in
  let rt := RenderTexture.set_filterFrame rt (Some frame) in
  let state :=
    FilterState.mk (Some rt) (Some target) (legacy s) resolution
      (FilterState.multisample state) frame
      (Rectangle.set_size (FilterState.destinationFrame state)
         (RenderTexture.width rt) (RenderTexture.height rt))
      (sourceFrame w) (destinationFrame w) (Some filters)
      (projection_transform w) backdrop backdropFlip in
  let destinationFrame :=
    Rectangle.mk 0 0 (Rectangle.width frame) (Rectangle.height frame) in
  let w3 :=
    emit (set_binding w2 (Some rt) frame
            (bindDestination host rt destinationFrame) None)
      (Bind rt frame destinationFrame) in
  rl ← last filters;
  fl ← heap w3 !! rl;
  let w4 :=
    match Filter.clearColor fl with
    | Some (r, g, b, a) => emit w3 (Clear r g b a)
    | None => emit w3 (Clear 0 0 0 0)
    end in
  Some (true, set_stacks w4 (state :: stack) pool).

Definition pushWithCheck (w : World) (target : DisplayObject.t)
    (filters : list nat) (checkEmptyBounds : bool) : option (bool * World) :=
  let '(state, pool) := takeState (statePool w) in
  chain ← deref (heap w) filters;
  s ← settings (useMaxPadding w) chain;
  let stack := noteRoot (defaultFilterStack w) (current w) in
  '(frame, canUseBackdrop) ← resolveFrame w target s;
  let state := stamp state target s frame in
  if checkEmptyBounds && leq (Rectangle.width frame) 1
     && leq (Rectangle.height frame) 1
  then Some (false, set_stacks w stack (FilterState.clear state :: pool))
  else openRegion w state stack pool target filters s frame canUseBackdrop.

Definition push (w : World) (target : DisplayObject.t) (filters : list nat)
    : option (bool * World) :=
  pushWithCheck w target filters false.

Definition applyFilter (w : World) (state : FilterState.t) (filter : nat)
    (input : RenderTexture.t) (output : option RenderTexture.t)
    (clearMode : CLEAR_MODES) : option World :=
  f ← heap w !! filter;
  match truthy_name (Filter.backdropUniformName f) with
  | Some bName =>
      let uniforms :=
        match FilterState.backdrop state with
        | Some b => <[bName := UTexture b]> (Filter.uniforms f)
        | None => Filter.uniforms f
        end in
      let slot := bName +:+ "_flipY" in
      let uniforms :=
        match FilterState.backdropFlip state with
        | Some fl =>
            if uniform_truthy (uniforms !! slot)
            then <[slot := UFloats (fst fl) (snd fl)]> uniforms
            else uniforms
        | None => uniforms
        end in
      let f1 := Filter.set_uniforms f uniforms in
      let w1 := emit w (Apply filter f1 input output clearMode) in
      Some (set_heap w1
              (<[filter := Filter.set_uniforms f1 (<[bName := UNull]> uniforms)]>
                 (heap w1)))
  | None => Some (emit w (Apply filter f input output clearMode))
  end.

Fixpoint pingPong (w : World) (state : FilterState.t) (filters : list nat)
    (flip flop : RenderTexture.t)
    : option (World * RenderTexture.t * RenderTexture.t) :=
  match filters with
  | [] => Some (w, flip, flop)
  | r :: rest =>
      w1 ← applyFilter w state r flip (Some flop) CLEAR;
      pingPong w1 state rest flop flip
  end.

Definition skipTrivial (m : gmap nat Filter.t) (filters : list nat)
    : option (gmap nat Filter.t * nat * option nat) :=
  let filterLen := length filters in
  if Nat.leb 2 filterLen then
    rl ← filters !! (filterLen - 1)%nat;
    fl ← m !! rl;
    if Filter.trivial fl then
      rp ← filters !! (filterLen - 2)%nat;
      fp ← m !! rp;
      Some (<[rp := Filter.set_state fp (Filter.state fl)]> m,
            (filterLen - 1)%nat, Filter.state fp)
    else Some (m, filterLen, None)
  else Some (m, filterLen, None).

Definition writeUniforms (g : GlobalUniforms.t) (state : FilterState.t)
    : GlobalUniforms.t :=
  let dw := Rectangle.width (FilterState.destinationFrame state) in
  let dh := Rectangle.height (FilterState.destinationFrame state) in
  let sf := FilterState.sourceFrame state in
  let res := FilterState.resolution state in
  let is2 := (1 / dw)%Q in
  let is3 := (1 / dh)%Q in
  let ip0 := (dw * res)%Q in
  let ip1 := (dh * res)%Q in
  let ip2 := (1 / ip0)%Q in
  let ip3 := (1 / ip1)%Q in
  let inputClamp :=
    (((1 # 2) * ip2)%Q, ((1 # 2) * ip3)%Q,
     (Rectangle.width sf * is2 - (1 # 2) * ip2)%Q,
     (Rectangle.height sf * is3 - (1 # 2) * ip3)%Q) in
  GlobalUniforms.mk sf res (dw, dh, is2, is3) (ip0, ip1, ip2, ip3) inputClamp
    (if FilterState.legacy state
     then (dw, dh, Rectangle.x sf, Rectangle.y sf)
     else GlobalUniforms.filterArea g)
    (if FilterState.legacy state then GlobalUniforms.InputClamp
     else GlobalUniforms.filterClamp g).

Definition runChain (w : World) (state lastState : FilterState.t)
    (renderTexture : RenderTexture.t) (filters : list nat) (filterLen : nat)
    : option World :=
  if Nat.eqb filterLen 1 then
    r0 ← filters !! 0%nat;
    w ← applyFilter w state r0 renderTexture
          (FilterState.renderTexture lastState) BLEND;
    Some (emit w (ReturnFilterTexture (UTexture renderTexture)))
  else
    let flip := renderTexture in
    let flop := getOptimalFilterTexture host (log w)
                  (RenderTexture.width flip) (RenderTexture.height flip)
                  (FilterState.resolution state) None in
    let w := emit w
      (GetOptimalFilterTexture (RenderTexture.width flip)
         (RenderTexture.height flip) (FilterState.resolution state)
         None flop) in
    let flop :=
      RenderTexture.set_filterFrame flop (RenderTexture.filterFrame flip) in
    '(w, flip, flop) ←
      pingPong w state (take (filterLen - 1) filters) flip flop;
    ri ← filters !! (filterLen - 1)%nat;
    w ← applyFilter w state ri flip
          (FilterState.renderTexture lastState) BLEND;
    let w := emit w (ReturnFilterTexture (UTexture flip)) in
    Some (emit w (ReturnFilterTexture (UTexture flop))).

Definition restoreState (w : World) (filters : list nat) (filterLen : nat)
    (tmpState : option nat) : option World :=
  match tmpState with
  | Some _ =>
      r ← filters !! (filterLen - 1)%nat;
      f ← heap w !! r;
      Some (set_heap w (<[r := Filter.set_state f tmpState]> (heap w)))
  | None => Some w
  end.

(** [if (state.backdrop) { returnFilterTexture; state.backdrop = undefined }] *)
Definition releaseBackdrop (w : World) (state : FilterState.t)
    : World * FilterState.t :=
  match FilterState.backdrop state with
  | Some b =>
      (emit w (ReturnFilterTexture (UTexture b)),
       FilterState.set_backdrop state None (FilterState.backdropFlip state))
  | None => (w, state)
  end.

Definition pop (w : World) : option World :=
  match defaultFilterStack w with
  | [] => None
  | state :: stack =>
      filters ← FilterState.filters state;
      let w := set_active w state (writeUniforms (globalUniforms w) state) in
      let w := emit w UniformsUpdate in
      lastState ← head stack;
      renderTexture ← FilterState.renderTexture state;
      let w :=
        if Z.ltb 1 (RenderTexture.framebuffer_multisample renderTexture)
        then emit w Blit else w in
      '(m, filterLen, tmpState) ← skipTrivial (heap w) filters;
      w ← runChain (set_heap w m) state lastState renderTexture filters
            filterLen;
      w ← restoreState w filters filterLen tmpState;
      let '(w, state) := releaseBackdrop w state in
      Some (set_stacks w stack (FilterState.clear state :: statePool w))
  end.

End WithHost.
End Shared.

(** ** A concrete host and concrete worlds

    The helpers follow [@pixi/math] and [@pixi/core] 7; the pool hands out
    a fresh texture of exactly the requested size, numbered by the
    acquisitions made so far. *)

Module Pixi.

Definition pad (r : Rectangle.t) (p : number) : Rectangle.t :=
  Rectangle.mk (Rectangle.x r - p) (Rectangle.y r - p)
    (Rectangle.width r + p * 2) (Rectangle.height r + p * 2).

Definition fit (r o : Rectangle.t) : Rectangle.t :=
  let x1 := Math_max (Rectangle.x r) (Rectangle.x o) in
  let x2 := Math_min (Rectangle.x r + Rectangle.width r)
              (Rectangle.x o + Rectangle.width o) in
  let y1 := Math_max (Rectangle.y r) (Rectangle.y o) in
  let y2 := Math_min (Rectangle.y r + Rectangle.height r)
              (Rectangle.y o + Rectangle.height o) in
  Rectangle.mk x1 y1 (Math_max (x2 - x1) 0) (Math_max (y2 - y1) 0).

Definition intersects (r o : Rectangle.t) : bool :=
  let x0 := Math_max (Rectangle.x r) (Rectangle.x o) in
  let x1 := Math_min (Rectangle.x r + Rectangle.width r)
              (Rectangle.x o + Rectangle.width o) in
  if leq x1 x0 then false
  else
    let y0 := Math_max (Rectangle.y r) (Rectangle.y o) in
    let y1 := Math_min (Rectangle.y r + Rectangle.height r)
                (Rectangle.y o + Rectangle.height o) in
    lt y0 y1.

Definition eps : number := 1 # 1000.

Definition ceil (r : Rectangle.t) (resolution : number) : Rectangle.t :=
  let x2 := (inject_Z (Qceiling
              ((Rectangle.x r + Rectangle.width r - eps) * resolution))
             / resolution)%Q in
  let y2 := (inject_Z (Qceiling
              ((Rectangle.y r + Rectangle.height r - eps) * resolution))
             / resolution)%Q in
  let x := (inject_Z (Qfloor ((Rectangle.x r + eps) * resolution))
            / resolution)%Q in
  let y := (inject_Z (Qfloor ((Rectangle.y r + eps) * resolution))
            / resolution)%Q in
  Rectangle.mk (Qred x) (Qred y) (Qred (x2 - x)) (Qred (y2 - y)).

Definition invert (m : Matrix.t) : Matrix.t :=
  let n := (Matrix.a m * Matrix.d m - Matrix.b m * Matrix.c m)%Q in
  Matrix.mk (Matrix.d m / n) (- Matrix.b m / n) (- Matrix.c m / n)
    (Matrix.a m / n)
    ((Matrix.c m * Matrix.ty m - Matrix.d m * Matrix.tx m) / n)
    (- (Matrix.a m * Matrix.ty m - Matrix.b m * Matrix.tx m) / n).

Definition min4 (p q r s : number) : number :=
  Math_min (Math_min p q) (Math_min r s).
Definition max4 (p q r s : number) : number :=
  Math_max (Math_max p q) (Math_max r s).

Definition transformAABB (m : Matrix.t) (r : Rectangle.t) : Rectangle.t :=
  let px (u v : number) := (Matrix.a m * u + Matrix.c m * v + Matrix.tx m)%Q in
  let py (u v : number) := (Matrix.b m * u + Matrix.d m * v + Matrix.ty m)%Q in
  let l := Rectangle.x r in
  let t := Rectangle.y r in
  let rr := (Rectangle.x r + Rectangle.width r)%Q in
  let bb := (Rectangle.y r + Rectangle.height r)%Q in
  let x0 := min4 (px l t) (px l bb) (px rr t) (px rr bb) in
  let y0 := min4 (py l t) (py l bb) (py rr t) (py rr bb) in
  let x1 := max4 (px l t) (px l bb) (px rr t) (px rr bb) in
  let y1 := max4 (py l t) (py l bb) (py rr t) (py rr bb) in
  Rectangle.mk (Qred x0) (Qred y0) (Qred (x1 - x0)) (Qred (y1 - y0)).

(** World space to screen space: translate, scale, translate. *)
Definition forward (m : Matrix.t) (src dst : Rectangle.t) : Matrix.t :=
  let sx := (Rectangle.width dst / Rectangle.width src)%Q in
  let sy := (Rectangle.height dst / Rectangle.height src)%Q in
  Matrix.mk (Matrix.a m * sx) (Matrix.b m * sy) (Matrix.c m * sx)
    (Matrix.d m * sy)
    ((Matrix.tx m - Rectangle.x src) * sx + Rectangle.x dst)
    ((Matrix.ty m - Rectangle.y src) * sy + Rectangle.y dst).

Definition roundFrame (frame : Rectangle.t) (resolution : number)
    (src dst : Rectangle.t) (transform : option Matrix.t) : Rectangle.t :=
  if leq (Rectangle.width frame) 0 || leq (Rectangle.height frame) 0
     || leq (Rectangle.width src) 0 || leq (Rectangle.height src) 0
  then frame
  else
    let m := forward (nullish transform Matrix.IDENTITY) src dst in
    transformAABB (invert m) (ceil (transformAABB m frame) resolution).

Definition getOptimalFilterTexture (l : list Event)
    (minWidth minHeight resolution : number) (multisample : option Z)
    : RenderTexture.t :=
  RenderTexture.mk (count is_acquire l) minWidth minHeight resolution
    (nullish multisample 0%Z) (nullish multisample 0%Z) None.

Definition setResolution (r : RenderTexture.t) (resolution : number)
    : RenderTexture.t :=
  RenderTexture.mk (RenderTexture.id r)
    (Qred (RenderTexture.width r * RenderTexture.resolution r / resolution))
    (Qred (RenderTexture.height r * RenderTexture.resolution r / resolution))
    resolution (RenderTexture.multisample r)
    (RenderTexture.framebuffer_multisample r) (RenderTexture.filterFrame r).

Definition bindDestination (r : RenderTexture.t) (d : Rectangle.t)
    : Rectangle.t :=
  let k := RenderTexture.resolution r in
  Rectangle.mk (Rectangle.x d * k) (Rectangle.y d * k)
    (Rectangle.width d * k) (Rectangle.height d * k).

Definition host : Host :=
  Build_Host getOptimalFilterTexture setResolution pad fit intersects ceil
    invert (Some transformAABB) roundFrame bindDestination.

Definition noUniforms : GlobalUniforms.t :=
  GlobalUniforms.mk Rectangle.EMPTY 1 (0, 0, 0, 0)%Q (0, 0, 0, 0)%Q
    (0, 0, 0, 0)%Q (0, 0, 0, 0)%Q (GlobalUniforms.Own (0, 0, 0, 0)%Q).

(** The root entry of the filter stack: an object without fields. *)
Definition root : FilterState.t := FilterState.new.

(** A plain filter: resolution 1, no padding, auto-fit, not legacy. *)
Definition plain : Filter.t :=
  Filter.mk (Some 1%Q) None 0 true (Some false) None ∅ false false None None.

(** A renderer drawing to the main framebuffer, 200 by 200, cleared to
    an opaque background. *)
Definition screen (m : gmap nat Filter.t) : World :=
  Build_World 1 0 1 None (Rectangle.mk 0 0 200 200) (Rectangle.mk 0 0 200 200)
    None 0 false [root] [] None noUniforms false m [].

(** A render texture of 200 by 200 units. *)
Definition canvas (resolution : number) (multisample : Z) : RenderTexture.t :=
  RenderTexture.mk 1000 200 200 resolution multisample multisample None.

(** The same renderer with [canvas] bound. *)
Definition offscreen (resolution : number) (multisample : Z)
    (m : gmap nat Filter.t) : World :=
  Build_World 1 0 1 (Some (canvas resolution multisample))
    (Rectangle.mk 0 0 200 200)
    (Rectangle.mk 0 0 (200 * resolution) (200 * resolution))
    None 0 false [root] [] None noUniforms false m [].

Definition sprite (x y w h : number) : DisplayObject.t :=
  DisplayObject.mk None (Rectangle.mk x y w h).
End Pixi.


(** ** Minimum, maximum and sum of a list of numbers, as the specification
    words them *)

Definition is_min (m : number) (l : list number) : Prop :=
  (∀ v, v ∈ l → (m <= v)%Q) ∧ ∃ v, v ∈ l ∧ (m == v)%Q.

Definition is_max (m : number) (l : list number) : Prop :=
  (∀ v, v ∈ l → (v <= m)%Q) ∧ ∃ v, v ∈ l ∧ (m == v)%Q.

Definition is_minZ (m : Z) (l : list Z) : Prop :=
  (∀ v, v ∈ l → (m <= v)%Z) ∧ m ∈ l.

Definition sum (l : list number) : number := foldr Qplus 0%Q l.

(** What a filter declares, with the fallbacks of [pushWithCheck]. *)
Definition declaredResolution (cr : number) (f : Filter.t) : number :=
  or_number (Filter.resolution f) cr.
Definition declaredMultisample (cm : Z) (f : Filter.t) : Z :=
  nullish (Filter.multisample f) cm.
Definition declaredLegacy (f : Filter.t) : bool :=
  nullish (Filter.legacy f) true.


(** What the loop of [pushWithCheck] has established after the filters
    [seen]. *)
Record resolved (maxPadding : bool) (cr : number) (cm : Z)
    (seen : list Filter.t) (s : Mixin.Settings) : Prop := {
  resolved_resolution :
    is_min (Mixin.resolution s) (map (declaredResolution cr) seen);
  resolved_multisample :
    is_minZ (Mixin.multisample s) (map (declaredMultisample cm) seen);
  resolved_padding :
    if maxPadding then is_max (Mixin.padding s) (map Filter.padding seen)
    else (Mixin.padding s == sum (map Filter.padding seen))%Q;
  resolved_autoFit : Mixin.autoFit s = forallb Filter.autoFit seen;
  resolved_legacy : Mixin.legacy s = existsb declaredLegacy seen
}.

(** The same for the second revision, whose [legacy] does not default to
    true. *)
Record resolved' (maxPadding : bool) (seen : list Filter.t)
    (s : Shared.Settings) : Prop := {
  resolved'_padding :
    if maxPadding then is_max (Shared.padding s) (map Filter.padding seen)
    else (Shared.padding s == sum (map Filter.padding seen))%Q;
  resolved'_autoFit : Shared.autoFit s = forallb Filter.autoFit seen;
  resolved'_legacy :
    Shared.legacy s = existsb (fun f => nullish (Filter.legacy f) false) seen
}.

(** ** What an operation leaves alone *)

(** The renderer's own settings and bindings. *)
Definition renderer_of (w : World) :=
  (renderer_resolution w, renderer_multisample w, background_alpha w,
   current w, sourceFrame w, destinationFrame w, projection_transform w,
   useMaxPadding w).

(** The bookkeeping of the filter system. *)
Definition system_of (w : World) :=
  (defaultFilterStack w, statePool w, activeState w, globalUniforms w).

(** The main framebuffer is bound and is cleared to an opaque background:
    [prepareBackdrop] cannot read it. *)
Definition unreadable (w : World) : bool :=
  match current w with
  | Some _ => false
  | None => geq (background_alpha w) 1
  end.

Definition backbufferWarnings : list Event :=
  [Warn "pixi-picture: you are trying to use Blend Filter on main framebuffer!";
   Warn "pixi-picture: please set backgroundAlpha=0 in renderer creation params"].

(** The world after a series of calls of [prepareBackdrop], one per pair of
    arguments. *)
Definition captures (prepare : World -> Rectangle.t -> number * number ->
                               World * option RenderTexture.t * (number * number))
    (calls : list (Rectangle.t * (number * number))) (w : World) : World :=
  fold_left (fun w c => fst (fst (prepare w (fst c) (snd c)))) calls w.

Definition is_some {A} (o : option A) : bool :=
  match o with Some _ => true | None => false end.

Definition one_if (b : bool) : nat := if b then 1 else 0.

(** ** Filters on the heap *)

(** [f'] is [f] up to the two fields opening a region writes: [uniforms]
    and [_backdropActive]. *)
Definition same_declared (f f' : Filter.t) : Prop :=
  f' = Filter.set_backdropActive (Filter.set_uniforms f (Filter.uniforms f'))
         (Filter._backdropActive f').

Definition heap_declared (m m' : gmap nat Filter.t) : Prop :=
  ∀ r, option_Forall2 same_declared (m !! r) (m' !! r).

(** The filter at address [r] is marked backdrop-active. *)
Definition active (m : gmap nat Filter.t) (r : nat) : bool :=
  match m !! r with
  | Some f => Filter._backdropActive f
  | None => false
  end.

(** The backdrop uniform of the filter at [r], where it names one. *)
Definition backdropUniform (m : gmap nat Filter.t) (r : nat)
    : option (option UValue) :=
  f ← m !! r;
  n ← truthy_name (Filter.backdropUniformName f);
  Some (Filter.uniforms f !! n).

(** Some filter of the chain names a backdrop uniform. *)
Definition wantsBackdrop (m : gmap nat Filter.t) (filters : list nat) : bool :=
  existsb (fun r => is_some (backdropUniform m r)) filters.

(** [f'] is [f] up to the field closing a region swaps: [state]. *)
Definition same_but_state (f f' : Filter.t) : Prop :=
  f' = Filter.set_state f (Filter.state f').

Definition heap_but_state (m m' : gmap nat Filter.t) : Prop :=
  ∀ r, option_Forall2 same_but_state (m !! r) (m' !! r).

(** Some filter of the chain is marked backdrop-active. *)
Definition anyActive (m : gmap nat Filter.t) (filters : list nat) : bool :=
  existsb (active m) filters.

(** The second texture [pop] acquires for a multisampled chain of three
    passes or more. *)
Definition extraFlop (state : FilterState.t) (i n : nat) : bool :=
  Nat.leb i 1 && Nat.ltb 1 (i + n) && Z.ltb 1 (FilterState.multisample state).

(** The passes a log records: which filter was applied, and the [State]
    object it carried at that moment. *)
Definition pass_of (e : Event) : option (nat * option nat) :=
  match e with
  | Apply r this _ _ _ => Some (r, Filter.state this)
  | _ => None
  end.

Definition passes (l : list Event) : list (nat * option nat) :=
  omap pass_of l.

(** A pass recorded by [e] is a pass of a filter of the chain, handed the
    filter as the heap [m] holds it. *)
Definition applied_from (m : gmap nat Filter.t) (filters : list nat)
    (e : Event) : Prop :=
  match e with
  | Apply r this _ _ _ => r ∈ filters ∧ m !! r = Some this
  | _ => True
  end.

(** A pass recorded by [e] saw no backdrop: the uniform its filter names,
    if it names one, was null when the filter was applied. *)
Definition backdrop_unset (e : Event) : Prop :=
  match e with
  | Apply _ this _ _ _ =>
      ∀ n, truthy_name (Filter.backdropUniformName this) = Some n →
           Filter.uniforms this !! n = Some UNull
  | _ => True
  end.

(** ** Concrete chains *)

Module Sample.
(** A blend filter: it names the backdrop uniform [uBackdrop]. *)
Definition blend (resolution : number) (autoFit : bool) (state : nat)
    : Filter.t :=
  Filter.mk (Some resolution) None 0 autoFit (Some false) (Some "uBackdrop")
    ∅ false false (Some state) None.

(** A filter without a backdrop, with its [State] object. *)
Definition pass (trivial : bool) (state : nat) : Filter.t :=
  Filter.mk (Some 1%Q) None 0 true (Some false) None ∅ false trivial
    (Some state) None.

(** A free state left in the pool by a multisampled region. *)
Definition pooled : FilterState.t :=
  FilterState.mk None None false 1 4 Rectangle.EMPTY Rectangle.EMPTY
    Rectangle.EMPTY Rectangle.EMPTY None None None None.

(** A backdrop filter followed by two plain ones, drawn to a render
    texture, with [pooled] waiting in the pool. *)
Definition three : World :=
  set_stacks
    (Pixi.offscreen 1 0
       (<[0%nat := blend 1 true 10]>
          (<[1%nat := pass false 11]> (<[2%nat := pass false 12]> ∅))))
    [Pixi.root] [pooled].

(** A render texture of resolution 2 and a blend filter of resolution 1. *)
Definition fine : World :=
  Pixi.offscreen 2 0 (<[0%nat := blend 1 true 10]> ∅).

(** A multisampled render texture and a blend filter that opts out of
    auto-fit. *)
Definition multisampled : World :=
  Pixi.offscreen 1 4 (<[0%nat := blend 1 false 10]> ∅).

(** One plain filter on a render texture, nothing opened yet. *)
Definition idle : World :=
  Pixi.offscreen 1 0 (<[0%nat := Pixi.plain]> ∅).

(** Three filters, the last one trivial, on the main framebuffer. *)
Definition trivialLast : World :=
  Pixi.screen
    (<[0%nat := pass false 10]>
       (<[1%nat := pass false 11]> (<[2%nat := pass true 12]> ∅))).

(** A blend filter on the main framebuffer, cleared opaque. *)
Definition opaque : World :=
  Pixi.screen (<[0%nat := blend 1 true 10]> ∅).
End Sample.

Module Opened.
(** The working texture of a region opened on [Sample.trivialLast]. *)
Definition texture : RenderTexture.t :=
  RenderTexture.mk 0 50 50 1 0 0 (Some (Rectangle.mk 10 10 50 50)).

Definition state : FilterState.t :=
  FilterState.mk (Some texture) (Some (Pixi.sprite 10 10 50 50)) false 1 0
    (Rectangle.mk 10 10 50 50) (Rectangle.mk 0 0 50 50)
    (Rectangle.mk 0 0 200 200) (Rectangle.mk 0 0 200 200)
    (Some [0; 1; 2]%nat) None None None.

(** [Sample.trivialLast] with that region open. *)
Definition world : World :=
  set_stacks Sample.trivialLast [state; Pixi.root] [].
End Opened.

(** ** Reading the passes off a log *)

(** One pass: the filter applied, its input, its output, the clear mode. *)
Definition flow_of (e : Event)
    : option (nat * RenderTexture.t * option RenderTexture.t * CLEAR_MODES) :=
  match e with
  | Apply r _ input output mode => Some (r, input, output, mode)
  | _ => None
  end.

Definition flows (l : list Event)
    : list (nat * RenderTexture.t * option RenderTexture.t * CLEAR_MODES) :=
  omap flow_of l.

(** The passes [l] form a pipeline from the texture [input] to the texture
    [result]: each reads what the one before wrote, and all clear their
    output first. *)
Fixpoint pipeline (input : RenderTexture.t)
    (l : list (nat * RenderTexture.t * option RenderTexture.t * CLEAR_MODES))
    (result : RenderTexture.t) : Prop :=
  match l with
  | [] => result = input
  | (_, i, o, mode) :: rest =>
      i = input ∧ mode = CLEAR ∧ ∃ t, o = Some t ∧ pipeline t rest result
  end.

(** The address a pass applies. *)
Definition flow_filter
    (p : nat * RenderTexture.t * option RenderTexture.t * CLEAR_MODES) : nat :=
  fst (fst (fst p)).

(** The number of filters [pop] runs: the chain without a trivial last
    filter, if the chain has two filters or more. *)
Definition passCount (m : gmap nat Filter.t) (filters : list nat) : nat :=
  match last filters with
  | Some rl =>
      match m !! rl with
      | Some fl =>
          if Nat.leb 2 (length filters) && Filter.trivial fl
          then (length filters - 1)%nat else length filters
      | None => length filters
      end
  | None => 0%nat
  end.

(** The texture a log returns to the pool as the backdrop: [pop] returns
    the working textures first and the backdrop last. *)
Definition released (l : list Event) : list UValue :=
  omap (fun e => match e with ReturnFilterTexture t => Some t | _ => None end)
       l.

(** The textures a log takes from the pool. *)
Definition acquired (l : list Event) : list RenderTexture.t :=
  omap (fun e => match e with
                 | GetOptimalFilterTexture _ _ _ _ t => Some t
                 | _ => None
                 end) l.

(** The pool's texture behind a value handed to [returnFilterTexture]. *)
Definition texture_id (v : UValue) : option nat :=
  match v with
  | UTexture t => Some (RenderTexture.id t)
  | _ => None
  end.

(** A ping-pong texture as [pop] holds it: the texture the pool gave, with
    the filter frame of the working texture [rt]. *)
Definition framed (rt t : RenderTexture.t) : RenderTexture.t :=
  RenderTexture.set_filterFrame t (RenderTexture.filterFrame rt).

(** The value [pop] hands back for the backdrop: the backdrop uniform of
    the first filter of the chain marked backdrop-active. *)
Fixpoint heldBackdrop (m : gmap nat Filter.t) (filters : list nat)
    : option UValue :=
  match filters with
  | [] => None
  | r :: rest =>
      match m !! r with
      | Some f =>
          if Filter._backdropActive f
          then Some (default UNull
                       (Filter.uniforms f
                          !! Filter.key (Filter.backdropUniformName f)))
          else heldBackdrop m rest
      | None => heldBackdrop m rest
      end
  end.

(** A pass recorded by [e] saw the backdrop [b]: the uniform its filter
    names, if it names one, held [b] when the filter was applied. *)
Definition backdrop_set (b : RenderTexture.t) (e : Event) : Prop :=
  match e with
  | Apply _ this _ _ _ =>
      ∀ n, truthy_name (Filter.backdropUniformName this) = Some n →
           Filter.uniforms this !! n = Some (UTexture b)
  | _ => True
  end.

(** The filter at [q] holds no backdrop: if it names a backdrop uniform,
    the uniform is null. *)
Definition backdrop_null (m : gmap nat Filter.t) (q : nat) : Prop :=
  is_some (backdropUniform m q) = true →
  backdropUniform m q = Some (Some UNull).

(** A region of the second revision, open on [Sample.three], with a
    backdrop captured. *)
Module Captured.
Definition backdrop : RenderTexture.t :=
  RenderTexture.mk 0 50 50 1 0 0 (Some (Rectangle.mk 0 0 200 200)).

Definition texture : RenderTexture.t :=
  RenderTexture.mk 1 50 50 1 0 0 (Some (Rectangle.mk 10 10 50 50)).

Definition state : FilterState.t :=
  FilterState.mk (Some texture) (Some (Pixi.sprite 10 10 50 50)) false 1 0
    (Rectangle.mk 10 10 50 50) (Rectangle.mk 0 0 50 50)
    (Rectangle.mk 0 0 200 200) (Rectangle.mk 0 0 200 200)
    (Some [0; 1; 2]%nat) None (Some backdrop) (Some (0%Q, 1%Q)).

Definition world : World :=
  set_stacks Sample.three [state; Pixi.root] [].
End Captured.

(** A blend filter with auto-fit on a render texture of four samples. *)
Module Fitted.
Definition world : World :=
  Pixi.offscreen 1 4 (<[0%nat := Sample.blend 1 true 10]> ∅).
End Fitted.

(** ** Regions that follow one another, nest, or find a uniform set *)

(** One cycle on the concrete host: [pushWithCheck] with the check on
    and, where it accepts the region, the [pop] that follows. *)
Definition cycle (w : World) (target : DisplayObject.t) (filters : list nat)
    : option World :=
  '(ok, w1) ← Mixin.pushWithCheck Pixi.host w target filters true;
  if ok : bool then Mixin.pop Pixi.host w1 else None.

Module Legacy.
(** A filter that leaves [legacy] undeclared. *)
Definition undeclared : Filter.t :=
  Filter.mk (Some 1%Q) None 0 true None None ∅ false false None None.

(** That filter and a plain one, which declares [legacy] false. *)
Definition world : World :=
  Pixi.offscreen 1 0 (<[0%nat := undeclared]> (<[1%nat := Pixi.plain]> ∅)).
End Legacy.

Module Nested.
(** A blend filter that opts out of auto-fit, used by a region and by a
    region opened inside it. *)
Definition world : World :=
  Pixi.offscreen 1 0 (<[0%nat := Sample.blend 1 false 10]> ∅).

(** The region, the region inside it, and the close of the inner one: the
    world after the outer [pushWithCheck] and the world after the inner
    [pop]. *)
Definition run : option (World * World) :=
  '(ok1, w1) ← Mixin.pushWithCheck Pixi.host world (Pixi.sprite 10 10 50 50)
                 [0%nat] true;
  '(ok2, w2) ← Mixin.pushWithCheck Pixi.host w1 (Pixi.sprite 0 0 100 100)
                 [0%nat] true;
  w3 ← Mixin.pop Pixi.host w2;
  if ok1 && ok2 then Some (w1, w3) else None.
End Nested.

Module Preset.
Definition texture : RenderTexture.t := RenderTexture.mk 7 16 16 1 0 0 None.

(** A blend filter whose backdrop uniform holds a texture already. *)
Definition filter : Filter.t :=
  Filter.mk (Some 1%Q) None 0 true (Some false) (Some "uBackdrop")
    (<["uBackdrop" := UTexture texture]> ∅) false false (Some 10%nat) None.

(** The filter on the main framebuffer, cleared opaque. *)
Definition world : World := Pixi.screen (<[0%nat := filter]> ∅).
End Preset.

Module Unset.
(** A filter that sets no resolution. *)
Definition filter : Filter.t :=
  Filter.mk None None 0 true (Some false) None ∅ false false None None.

Definition world : World := Pixi.offscreen 1 0 (<[0%nat := filter]> ∅).
End Unset.

(** * Properties *)

(** ** Minimum, maximum and sum *)

Lemma is_min_unique m m' l l' :
  l ≡ₚ l' → is_min m l → is_min m' l' → (m == m')%Q.
Proof.
  intros Hp [Hlo [v [Hv Hmv]]] [Hlo' [v' [Hv' Hmv']]].
  apply Qle_antisym.
  - rewrite Hmv'. apply Hlo. by rewrite Hp.
  - rewrite Hmv. apply Hlo'. by rewrite <- Hp.
Qed.

Lemma is_minZ_unique m m' l l' :
  l ≡ₚ l' → is_minZ m l → is_minZ m' l' → m = m'.
Proof.
  intros Hp [Hlo Hm] [Hlo' Hm'].
  apply Z.le_antisymm.
  - apply Hlo. by rewrite Hp.
  - apply Hlo'. by rewrite <- Hp.
Qed.

Lemma is_min_step m l v : is_min m l → is_min (Math_min m v) (l ++ [v]).
Proof.
  intros [Hlo [u [Hu Hmu]]]. unfold Math_min. split.
  - intros x Hx. apply elem_of_app in Hx as [Hx | Hx].
    + eapply Qle_trans; [apply Q.le_min_l | by apply Hlo].
    + apply list_elem_of_singleton in Hx as ->. apply Q.le_min_r.
  - destruct (Q.min_spec_le m v) as [[Hle Heq] | [Hle Heq]].
    + exists u. split; [apply elem_of_app; by left |]. by rewrite Heq.
    + exists v. split; [apply elem_of_app; right; by apply list_elem_of_singleton |].
      done.
Qed.

Lemma is_max_step m l v : is_max m l → is_max (Math_max m v) (l ++ [v]).
Proof.
  intros [Hlo [u [Hu Hmu]]]. unfold Math_max. split.
  - intros x Hx. apply elem_of_app in Hx as [Hx | Hx].
    + eapply Qle_trans; [by apply Hlo | apply Q.le_max_l].
    + apply list_elem_of_singleton in Hx as ->. apply Q.le_max_r.
  - destruct (Q.max_spec_le m v) as [[Hle Heq] | [Hle Heq]].
    + exists v. split; [apply elem_of_app; right; by apply list_elem_of_singleton |].
      done.
    + exists u. split; [apply elem_of_app; by left |]. by rewrite Heq.
Qed.

Lemma is_minZ_step m l v : is_minZ m l → is_minZ (Z.min m v) (l ++ [v]).
Proof.
  intros [Hlo Hm]. split.
  - intros x Hx. apply elem_of_app in Hx as [Hx | Hx].
    + specialize (Hlo _ Hx). lia.
    + apply list_elem_of_singleton in Hx as ->. lia.
  - apply elem_of_app. destruct (Z.min_spec m v) as [[_ ->] | [_ ->]].
    + by left.
    + right. by apply list_elem_of_singleton.
Qed.

Lemma sum_snoc l v : (sum (l ++ [v]) == sum l + v)%Q.
Proof.
  induction l as [| u l IH]; simpl.
  - ring.
  - rewrite IH. ring.
Qed.

(** ** The settings a chain resolves to *)

Section Settings.
Context (maxPadding : bool) (cr : number) (cm : Z).

Lemma resolved_seed f0 : resolved maxPadding cr cm [f0] (Mixin.seed cr cm f0).
Proof.
  split; simpl.
  - split.
    + intros v Hv. apply list_elem_of_singleton in Hv as ->. apply Qle_refl.
    + eexists. split; [by apply list_elem_of_singleton | reflexivity].
  - split.
    + intros v Hv. apply list_elem_of_singleton in Hv as ->. reflexivity.
    + by apply list_elem_of_singleton.
  - destruct maxPadding.
    + split.
      * intros v Hv. apply list_elem_of_singleton in Hv as ->. apply Qle_refl.
      * eexists. split; [by apply list_elem_of_singleton | reflexivity].
    + unfold sum. simpl. ring.
  - by rewrite andb_true_r.
  - by rewrite orb_false_r.
Qed.

Lemma resolved_step seen s f :
  resolved maxPadding cr cm seen s → resolved maxPadding cr cm (seen ++ [f]) (Mixin.step maxPadding cr cm s f).
Proof.
  intros [Hr Hm Hp Ha Hl]. split; simpl.
  - rewrite map_app. by apply is_min_step.
  - rewrite map_app. by apply is_minZ_step.
  - rewrite map_app. destruct maxPadding.
    + by apply is_max_step.
    + simpl. rewrite sum_snoc, Hp. reflexivity.
  - rewrite forallb_app, Ha. simpl. by rewrite andb_true_r.
  - rewrite existsb_app, Hl. simpl. by rewrite orb_false_r.
Qed.

Lemma resolved_fold rest : ∀ seen s,
  resolved maxPadding cr cm seen s →
  resolved maxPadding cr cm (seen ++ rest) (fold_left (Mixin.step maxPadding cr cm) rest s).
Proof.
  induction rest as [| f rest IH]; intros seen s Hs; simpl.
  - by rewrite app_nil_r.
  - replace (seen ++ f :: rest) with ((seen ++ [f]) ++ rest)
      by (by rewrite <- app_assoc).
    apply IH. by apply resolved_step.
Qed.

Lemma settings_resolved chain s :
  Mixin.settings maxPadding cr cm chain = Some s → resolved maxPadding cr cm chain s.
Proof.
  destruct chain as [| f0 rest]; [done |]. intros [= <-].
  apply (resolved_fold rest [f0]). apply resolved_seed.
Qed.

Lemma settings_total f0 rest :
  is_Some (Mixin.settings maxPadding cr cm (f0 :: rest)).
Proof. by eexists. Qed.
End Settings.

Section SharedSettings.
Context (maxPadding : bool).

Lemma resolved'_fold rest : ∀ seen acc,
  resolved' maxPadding seen acc →
  resolved' maxPadding (seen ++ rest)
    (fold_left (Shared.step maxPadding) rest acc).
Proof.
  induction rest as [| f rest IH]; intros seen acc Hacc; simpl.
  - by rewrite app_nil_r.
  - replace (seen ++ f :: rest) with ((seen ++ [f]) ++ rest)
      by (by rewrite <- app_assoc).
    apply IH. destruct Hacc as [Hp Ha Hl].
    split; simpl.
    + rewrite map_app. destruct maxPadding.
      * by apply is_max_step.
      * simpl. rewrite sum_snoc, Hp. reflexivity.
    + rewrite forallb_app, Ha. simpl. by rewrite andb_true_r.
    + rewrite existsb_app, Hl. simpl. by rewrite orb_false_r.
Qed.

Lemma settings_resolved' chain s :
  Shared.settings maxPadding chain = Some s → resolved' maxPadding chain s.
Proof.
  destruct chain as [| f0 rest]; [done |]. simpl. intros [= <-].
  apply (resolved'_fold rest [f0]). split; simpl.
  - destruct maxPadding.
    + split.
      * intros v Hv. apply list_elem_of_singleton in Hv as ->. apply Qle_refl.
      * eexists. split; [by apply list_elem_of_singleton | reflexivity].
    + unfold sum. simpl. ring.
  - by rewrite andb_true_r.
  - by rewrite orb_false_r.
Qed.

(** The second revision resolves every chain of one filter or more: an
    unset resolution does not stop it. *)
Lemma shared_settings_total f0 rest :
  is_Some (Shared.settings maxPadding (f0 :: rest)).
Proof. by eexists. Qed.
End SharedSettings.

(** C5. For one chain, the padding [pushWithCheck] resolves is the maximum
    of the filters' paddings when [useMaxPadding] is set and their sum when
    it is not; [autoFit] (the conjunction) and [legacy] (the disjunction)
    come out the same under either policy.  Stated for the loop of
    [src/FilterSystemMixin.ts] and for the loop of the second revision,
    which both resolve every chain of one filter or more. *)
Theorem C5_padding_policy (cr : number) (cm : Z) (f0 : Filter.t)
    (rest : list Filter.t) :
  let chain := f0 :: rest in
  (∃ sMax sSum,
      Mixin.settings true cr cm chain = Some sMax
      ∧ Mixin.settings false cr cm chain = Some sSum
      ∧ is_max (Mixin.padding sMax) (map Filter.padding chain)
      ∧ (Mixin.padding sSum == sum (map Filter.padding chain))%Q
      ∧ Mixin.autoFit sMax = forallb Filter.autoFit chain
      ∧ Mixin.autoFit sSum = Mixin.autoFit sMax
      ∧ Mixin.legacy sMax = existsb declaredLegacy chain
      ∧ Mixin.legacy sSum = Mixin.legacy sMax)
  ∧ ∃ sMax sSum,
      Shared.settings true chain = Some sMax
      ∧ Shared.settings false chain = Some sSum
      ∧ is_max (Shared.padding sMax) (map Filter.padding chain)
      ∧ (Shared.padding sSum == sum (map Filter.padding chain))%Q
      ∧ Shared.autoFit sMax = forallb Filter.autoFit chain
      ∧ Shared.autoFit sSum = Shared.autoFit sMax
      ∧ Shared.legacy sMax
        = existsb (fun f => nullish (Filter.legacy f) false) chain
      ∧ Shared.legacy sSum = Shared.legacy sMax.
Proof.
  intros chain. split.
  - destruct (settings_total true cr cm f0 rest) as [sMax HMax].
    destruct (settings_total false cr cm f0 rest) as [sSum HSum].
    exists sMax, sSum.
    destruct (settings_resolved _ _ _ _ _ HMax) as [_ _ Hp Ha Hl].
    destruct (settings_resolved _ _ _ _ _ HSum) as [_ _ Hp' Ha' Hl'].
    simpl in Hp, Hp'.
    split; [done |]. split; [done |]. split; [exact Hp |].
    split; [exact Hp' |]. split; [exact Ha |]. split; [congruence |].
    split; [exact Hl | congruence].
  - destruct (shared_settings_total true f0 rest) as [sMax HMax].
    destruct (shared_settings_total false f0 rest) as [sSum HSum].
    exists sMax, sSum.
    destruct (settings_resolved' _ _ _ HMax) as [Hp Ha Hl].
    destruct (settings_resolved' _ _ _ HSum) as [Hp' Ha' Hl'].
    simpl in Hp, Hp'.
    split; [done |]. split; [done |]. split; [exact Hp |].
    split; [exact Hp' |]. split; [exact Ha |]. split; [congruence |].
    split; [exact Hl | congruence].
Qed.

(** ** Counting *)

Lemma count_app p l l' : count p (l ++ l') = (count p l + count p l')%nat.
Proof. unfold count. by rewrite List.filter_app, length_app. Qed.

Lemma count_nil p : count p [] = 0%nat.
Proof. done. Qed.

Lemma count_cons p e l : count p (e :: l) = (one_if (p e) + count p l)%nat.
Proof. unfold count. simpl. by destruct (p e). Qed.

(** ** Reading a world after a write *)

Lemma log_emit w e : log (emit w e) = log w ++ [e].
Proof. done. Qed.
Lemma heap_emit w e : heap (emit w e) = heap w.
Proof. done. Qed.
Lemma flag_emit w e : hadBackbufferError (emit w e) = hadBackbufferError w.
Proof. done. Qed.
Lemma renderer_of_emit w e : renderer_of (emit w e) = renderer_of w.
Proof. done. Qed.
Lemma system_of_emit w e : system_of (emit w e) = system_of w.
Proof. done. Qed.

Lemma log_set_heap w m : log (set_heap w m) = log w.
Proof. done. Qed.
Lemma heap_set_heap w m : heap (set_heap w m) = m.
Proof. done. Qed.
Lemma flag_set_heap w m :
  hadBackbufferError (set_heap w m) = hadBackbufferError w.
Proof. done. Qed.
Lemma renderer_of_set_heap w m : renderer_of (set_heap w m) = renderer_of w.
Proof. done. Qed.
Lemma system_of_set_heap w m : system_of (set_heap w m) = system_of w.
Proof. done. Qed.

Lemma log_set_stacks w s p : log (set_stacks w s p) = log w.
Proof. done. Qed.
Lemma heap_set_stacks w s p : heap (set_stacks w s p) = heap w.
Proof. done. Qed.
Lemma renderer_of_set_stacks w s p :
  renderer_of (set_stacks w s p) = renderer_of w.
Proof. done. Qed.
Lemma stack_set_stacks w s p : defaultFilterStack (set_stacks w s p) = s.
Proof. done. Qed.
Lemma pool_set_stacks w s p : statePool (set_stacks w s p) = p.
Proof. done. Qed.
Lemma uniforms_set_stacks w s p :
  globalUniforms (set_stacks w s p) = globalUniforms w.
Proof. done. Qed.

Lemma log_set_active w s g : log (set_active w s g) = log w.
Proof. done. Qed.
Lemma heap_set_active w s g : heap (set_active w s g) = heap w.
Proof. done. Qed.
Lemma renderer_of_set_active w s g :
  renderer_of (set_active w s g) = renderer_of w.
Proof. done. Qed.
Lemma uniforms_set_active w s g : globalUniforms (set_active w s g) = g.
Proof. done. Qed.
Lemma pool_set_active w s g : statePool (set_active w s g) = statePool w.
Proof. done. Qed.

Lemma stack_set_active w s g :
  defaultFilterStack (set_active w s g) = defaultFilterStack w.
Proof. done. Qed.
Lemma flag_set_active w s g :
  hadBackbufferError (set_active w s g) = hadBackbufferError w.
Proof. done. Qed.
Lemma flag_set_stacks w s p :
  hadBackbufferError (set_stacks w s p) = hadBackbufferError w.
Proof. done. Qed.
Lemma flag_set_binding w c s d t :
  hadBackbufferError (set_binding w c s d t) = hadBackbufferError w.
Proof. done. Qed.

Lemma pool_emit w e : statePool (emit w e) = statePool w.
Proof. done. Qed.
Lemma stack_emit w e : defaultFilterStack (emit w e) = defaultFilterStack w.
Proof. done. Qed.
Lemma uniforms_emit w e : globalUniforms (emit w e) = globalUniforms w.
Proof. done. Qed.
Lemma pool_set_heap w m : statePool (set_heap w m) = statePool w.
Proof. done. Qed.
Lemma stack_set_heap w m :
  defaultFilterStack (set_heap w m) = defaultFilterStack w.
Proof. done. Qed.
Lemma uniforms_set_heap w m : globalUniforms (set_heap w m) = globalUniforms w.
Proof. done. Qed.
Lemma uniforms_set_binding w c s d t :
  globalUniforms (set_binding w c s d t) = globalUniforms w.
Proof. done. Qed.
Lemma current_set_binding w c s d t : current (set_binding w c s d t) = c.
Proof. done. Qed.

Lemma log_set_binding w c s d t : log (set_binding w c s d t) = log w.
Proof. done. Qed.
Lemma heap_set_binding w c s d t : heap (set_binding w c s d t) = heap w.
Proof. done. Qed.
Lemma system_of_set_binding w c s d t :
  system_of (set_binding w c s d t) = system_of w.
Proof. done. Qed.

Lemma system_of_stack w w' :
  system_of w' = system_of w → defaultFilterStack w' = defaultFilterStack w.
Proof. unfold system_of. congruence. Qed.
Lemma system_of_pool w w' :
  system_of w' = system_of w → statePool w' = statePool w.
Proof. unfold system_of. congruence. Qed.
Lemma system_of_uniforms w w' :
  system_of w' = system_of w → globalUniforms w' = globalUniforms w.
Proof. unfold system_of. congruence. Qed.
Lemma renderer_of_current w w' :
  renderer_of w' = renderer_of w → current w' = current w.
Proof. unfold renderer_of. congruence. Qed.
Lemma renderer_of_alpha w w' :
  renderer_of w' = renderer_of w → background_alpha w' = background_alpha w.
Proof. unfold renderer_of. congruence. Qed.
Lemma renderer_of_unreadable w w' :
  renderer_of w' = renderer_of w → unreadable w' = unreadable w.
Proof.
  intros H. unfold unreadable.
  by rewrite (renderer_of_current _ _ H), (renderer_of_alpha _ _ H).
Qed.

Create Rewrite HintDb world.
Hint Rewrite log_emit heap_emit flag_emit renderer_of_emit system_of_emit
  log_set_heap heap_set_heap flag_set_heap renderer_of_set_heap
  system_of_set_heap log_set_stacks heap_set_stacks renderer_of_set_stacks
  stack_set_stacks pool_set_stacks uniforms_set_stacks log_set_active
  heap_set_active renderer_of_set_active uniforms_set_active pool_set_active
  log_set_binding heap_set_binding system_of_set_binding stack_set_active
  flag_set_active flag_set_stacks flag_set_binding pool_emit stack_emit
  uniforms_emit pool_set_heap stack_set_heap uniforms_set_heap
  uniforms_set_binding current_set_binding : world.

Create Rewrite HintDb counting.
Hint Rewrite count_app count_cons count_nil : counting.

(** ** [prepareBackdrop] *)

Lemma warnBackbuffer_log w :
  log (warnBackbuffer w)
  = log w ++ (if hadBackbufferError w then [] else backbufferWarnings).
Proof.
  unfold warnBackbuffer. destruct (hadBackbufferError w); simpl.
  - by rewrite app_nil_r.
  - by rewrite <- app_assoc.
Qed.

Lemma warnBackbuffer_flag w : hadBackbufferError (warnBackbuffer w) = true.
Proof. unfold warnBackbuffer. by destruct (hadBackbufferError w) eqn:E. Qed.

Lemma warnBackbuffer_rest w :
  heap (warnBackbuffer w) = heap w
  ∧ renderer_of (warnBackbuffer w) = renderer_of w
  ∧ system_of (warnBackbuffer w) = system_of w.
Proof. unfold warnBackbuffer. by destruct (hadBackbufferError w). Qed.

Lemma warnBackbuffer_counts w :
  ∃ evs, log (warnBackbuffer w) = log w ++ evs
         ∧ count is_acquire evs = 0%nat ∧ count is_release evs = 0%nat
         ∧ count is_copy evs = 0%nat ∧ count is_apply evs = 0%nat.
Proof.
  eexists. split; [apply warnBackbuffer_log |].
  by destruct (hadBackbufferError w).
Qed.

Lemma bindForceLocation_log w t l :
  ∃ evs, log (bindForceLocation w t l) = log w ++ evs
         ∧ count is_acquire evs = 0%nat ∧ count is_release evs = 0%nat
         ∧ count is_copy evs = 0%nat ∧ count is_apply evs = 0%nat.
Proof.
  unfold bindForceLocation. destruct (Z.eqb _ _); simpl.
  - by eexists [_].
  - eexists [_; _]. by rewrite <- app_assoc.
Qed.

Lemma bindForceLocation_rest w t l :
  heap (bindForceLocation w t l) = heap w
  ∧ renderer_of (bindForceLocation w t l) = renderer_of w
  ∧ system_of (bindForceLocation w t l) = system_of w
  ∧ hadBackbufferError (bindForceLocation w t l) = hadBackbufferError w.
Proof. unfold bindForceLocation. by destruct (Z.eqb _ _). Qed.

Lemma unreadable_spec w :
  unreadable w = true ↔ current w = None ∧ (1 <= background_alpha w)%Q.
Proof.
  unfold unreadable, geq. destruct (current w).
  - split; [done | by intros [? _]].
  - rewrite Qle_bool_iff. split; [by intros ? | by intros [_ ?]].
Qed.

Opaque bindForceLocation warnBackbuffer emit set_heap set_stacks set_active
  set_binding renderer_of system_of.

Section PrepareBackdrop.
Context (host : Host).

Lemma prepareBackdrop_unreadable w bounds flipY :
  unreadable w = true →
  Mixin.prepareBackdrop host w bounds flipY = (warnBackbuffer w, None, flipY).
Proof.
  unfold unreadable, Mixin.prepareBackdrop.
  destruct (current w); [done |]. by intros ->.
Qed.

Lemma prepareBackdrop_unreadable' w bounds flipY :
  unreadable w = true →
  Shared.prepareBackdrop host w bounds flipY = (warnBackbuffer w, None, flipY).
Proof.
  unfold unreadable, Shared.prepareBackdrop.
  destruct (current w); [done |]. by intros ->.
Qed.

(** A capture that goes through: one acquisition, one copy, nothing
    released, and nothing but the log and the texture unit touched. *)
Lemma prepareBackdrop_readable w bounds flipY :
  unreadable w = false →
  ∃ w' rt flipY' evs,
    Mixin.prepareBackdrop host w bounds flipY = (w', Some rt, flipY')
    ∧ log w' = log w ++ evs
    ∧ count is_acquire evs = 1%nat ∧ count is_release evs = 0%nat
    ∧ count is_copy evs = 1%nat ∧ count is_apply evs = 0%nat
    ∧ heap w' = heap w ∧ renderer_of w' = renderer_of w
    ∧ system_of w' = system_of w
    ∧ hadBackbufferError w' = hadBackbufferError w.
Proof.
  unfold unreadable, Mixin.prepareBackdrop. intros Hu.
  destruct (current w) as [target |] eqn:Hc; [| rewrite Hu]; simpl;
    match goal with
    | |- context [bindForceLocation ?w0 ?t ?l] =>
        destruct (bindForceLocation_log w0 t l)
          as (evs & Hl & Ha & Hr & Hk & Hp);
        destruct (bindForceLocation_rest w0 t l) as (Hh & Hn & Hs & Hf)
    end;
    (eexists _, _, _, _; split; [reflexivity |]);
    autorewrite with world in *; rewrite Hl, Hh, Hn, Hs, Hf.
  all: split; [rewrite <- !app_assoc; reflexivity |].
  all: autorewrite with counting; rewrite Ha, Hr, Hk, Hp; simpl.
  all: done.
Qed.
End PrepareBackdrop.

(** ** Capture against the main framebuffer *)

Section Backbuffer.
Context (host : Host).

Lemma captures_silent calls : ∀ w,
  unreadable w = true → hadBackbufferError w = true →
  log (captures (Mixin.prepareBackdrop host) calls w) = log w
  ∧ log (captures (Shared.prepareBackdrop host) calls w) = log w.
Proof.
  induction calls as [| [bounds flipY] calls IH]; intros w Hu Hf; [done |].
  unfold captures in *. simpl.
  rewrite (prepareBackdrop_unreadable host _ _ _ Hu).
  rewrite (prepareBackdrop_unreadable' host _ _ _ Hu). simpl.
  destruct (warnBackbuffer_rest w) as (_ & Hn & _).
  destruct (IH (warnBackbuffer w)) as [-> ->].
  - by rewrite (renderer_of_unreadable _ _ Hn).
  - apply warnBackbuffer_flag.
  - by rewrite warnBackbuffer_log, Hf, app_nil_r.
Qed.
End Backbuffer.

(** C6. With the main framebuffer bound (no current render texture) and a
    background alpha of at least 1, [prepareBackdrop] returns null, copies
    nothing and acquires no texture; it logs its two warnings only if no
    such failure happened before, and every later failure adds nothing to
    the log.  Both revisions. *)
Theorem C6_backbuffer_capture_fails (host : Host) (w : World)
    (bounds : Rectangle.t) (flipY : number * number) :
  current w = None → (1 <= background_alpha w)%Q →
  ∃ w',
    Mixin.prepareBackdrop host w bounds flipY = (w', None, flipY)
    ∧ Shared.prepareBackdrop host w bounds flipY = (w', None, flipY)
    ∧ log w' = log w ++ (if hadBackbufferError w then [] else backbufferWarnings)
    ∧ count is_copy (log w') = count is_copy (log w)
    ∧ count is_acquire (log w') = count is_acquire (log w)
    ∧ hadBackbufferError w' = true
    ∧ ∀ calls,
        log (captures (Mixin.prepareBackdrop host) calls w') = log w'
        ∧ log (captures (Shared.prepareBackdrop host) calls w') = log w'.
Proof.
  intros Hc Ha.
  assert (Hu : unreadable w = true) by (by apply unreadable_spec).
  exists (warnBackbuffer w).
  split; [by apply prepareBackdrop_unreadable |].
  split; [by apply prepareBackdrop_unreadable' |].
  split; [apply warnBackbuffer_log |].
  destruct (warnBackbuffer_counts w) as (evs & Hl & Hq & _ & Hk & _).
  split; [rewrite Hl, count_app; lia |].
  split; [rewrite Hl, count_app; lia |].
  split; [apply warnBackbuffer_flag |].
  intros calls. apply captures_silent; [| apply warnBackbuffer_flag].
  destruct (warnBackbuffer_rest w) as (_ & Hn & _).
  by rewrite (renderer_of_unreadable _ _ Hn).
Qed.

Lemma C6_backbuffer_capture_fails_witness :
  ∃ w',
    Mixin.prepareBackdrop Pixi.host (Pixi.screen ∅)
      (Rectangle.mk 10 10 50 50) (0%Q, 1%Q) = (w', None, (0%Q, 1%Q))
    ∧ log w' = backbufferWarnings.
Proof.
  destruct (C6_backbuffer_capture_fails Pixi.host (Pixi.screen ∅)
              (Rectangle.mk 10 10 50 50) (0%Q, 1%Q))
    as (w' & H1 & _ & H2 & _); [reflexivity | vm_compute; discriminate |].
  exists w'. split; [exact H1 | exact H2].
Defined.

(** ** Capture from a render texture *)

(** C8. With a render texture of resolution 2 bound, no projection
    transform (or the identity), bounds 10,10,50,50 and the visible frame
    0,0,200,200, [prepareBackdrop] sets the flip sign to 1, copies exactly
    the rectangle 20,20,100,100 and records the flip fraction 0.  In
    general the call that captures acquires one texture for the copy
    rectangle at resolution 1, copies last, and records the copy height
    over the height of the acquired texture when the flip sign is negative,
    and 0 otherwise. *)
Theorem C8_backdrop_copy (host : Host) (w w' : World) (bounds : Rectangle.t)
    (flipY flipY' : number * number) (rt : RenderTexture.t) :
  Mixin.prepareBackdrop host w bounds flipY = (w', Some rt, flipY') →
  (∃ x y cw ch alloc between,
      log w' = log w
        ++ [GetOptimalFilterTexture (inject_Z cw) (inject_Z ch) 1 None alloc]
        ++ between ++ [CopyTexSubImage2D x y cw ch]
      ∧ alloc = getOptimalFilterTexture host (log w)
                  (inject_Z cw) (inject_Z ch) 1 None
      ∧ count is_copy between = 0%nat ∧ count is_acquire between = 0%nat
      ∧ snd flipY' = match current w with Some _ => 1%Q | None => (-1)%Q end
      ∧ fst flipY'
        = (if lt (snd flipY') 0
           then (inject_Z ch / RenderTexture.height alloc)%Q else 0%Q))
  ∧ (∀ target,
      current w = Some target → RenderTexture.resolution target = 2%Q →
      bounds = Rectangle.mk 10 10 50 50 →
      sourceFrame w = Rectangle.mk 0 0 200 200 →
      projection_transform w = None
      ∨ projection_transform w = Some Matrix.IDENTITY →
      flipY' = (0%Q, 1%Q)
      ∧ List.filter is_copy (drop (length (log w)) (log w'))
        = [CopyTexSubImage2D 20 20 100 100]).
Proof.
  unfold Mixin.prepareBackdrop. intros H. split.
  - destruct (current w) as [target |] eqn:Hc;
      [| destruct (geq (background_alpha w) 1); [done |]];
      simpl in H;
      match type of H with
      | context [bindForceLocation ?w0 ?t ?l] =>
          destruct (bindForceLocation_log w0 t l)
            as (evs & Hl & Ha & _ & Hk & _)
      end;
      injection H as <- <- <-; autorewrite with world in *; rewrite Hl;
      (eexists _, _, _, _, _, evs; split;
         [rewrite <- !app_assoc; reflexivity |]); done.
  - intros target Hc Hres -> Hfr Htf. rewrite Hc, Hres, Hfr in H.
    assert (Htx : Matrix.tx (nullish (projection_transform w) Matrix.IDENTITY)
                  = 0%Q) by (by destruct Htf as [-> | ->]).
    assert (Hty : Matrix.ty (nullish (projection_transform w) Matrix.IDENTITY)
                  = 0%Q) by (by destruct Htf as [-> | ->]).
    simpl in H. rewrite Htx, Hty in H.
    match type of H with
    | context [bindForceLocation ?w0 ?t ?l] =>
        destruct (bindForceLocation_log w0 t l)
          as (evs & Hl & _ & _ & Hk & _)
    end.
    injection H as <- <- <-. split; [done |].
    autorewrite with world in *. rewrite Hl.
    rewrite <- !app_assoc, drop_app_length.
    unfold count in Hk. simpl.
    rewrite List.filter_app. apply length_zero_iff_nil in Hk. rewrite Hk.
    reflexivity.
Qed.

Lemma C8_backdrop_copy_witness :
  ∃ w' rt,
    Mixin.prepareBackdrop Pixi.host (Pixi.offscreen 2 0 ∅)
      (Rectangle.mk 10 10 50 50) (0%Q, 1%Q) = (w', Some rt, (0%Q, 1%Q))
    ∧ List.filter is_copy
        (drop (length (log (Pixi.offscreen 2 0 ∅))) (log w'))
      = [CopyTexSubImage2D 20 20 100 100].
Proof.
  pose proof (C8_backdrop_copy Pixi.host (Pixi.offscreen 2 0 ∅) _
                (Rectangle.mk 10 10 50 50) (0%Q, 1%Q) _ _ eq_refl) as [_ H].
  eexists _, _. split; [reflexivity |].
  apply (H (Pixi.canvas 2 0)); try reflexivity. by left.
Defined.

(** ** Opening a region: the backdrop loop *)

Lemma same_declared_refl f : same_declared f f.
Proof. by destruct f. Qed.

Lemma same_declared_trans f g k :
  same_declared f g → same_declared g k → same_declared f k.
Proof. unfold same_declared. intros -> ->. by destruct f. Qed.

Lemma heap_declared_refl m : heap_declared m m.
Proof.
  intros r. destruct (m !! r); constructor. apply same_declared_refl.
Qed.

Lemma heap_declared_trans m n k :
  heap_declared m n → heap_declared n k → heap_declared m k.
Proof.
  intros H1 H2 r. specialize (H1 r). specialize (H2 r).
  destruct H1; inversion H2; subst; constructor.
  by eapply same_declared_trans.
Qed.

Lemma heap_declared_insert m r f f' :
  m !! r = Some f → same_declared f f' → heap_declared m (<[r := f']> m).
Proof.
  intros Hr Hf q. destruct (decide (r = q)) as [<- | Hne].
  - rewrite lookup_insert_eq, Hr. by constructor.
  - rewrite lookup_insert_ne by done. apply heap_declared_refl.
Qed.

Lemma heap_declared_lookup m m' r f :
  heap_declared m m' → m !! r = Some f →
  ∃ f', m' !! r = Some f' ∧ same_declared f f'.
Proof.
  intros H Hr. specialize (H r). rewrite Hr in H. inversion H; subst. eauto.
Qed.

Lemma heap_declared_lookup_inv m m' r f' :
  heap_declared m m' → m' !! r = Some f' →
  ∃ f, m !! r = Some f ∧ same_declared f f'.
Proof.
  intros H Hr. specialize (H r). rewrite Hr in H. inversion H; subst. eauto.
Qed.

Lemma heap_declared_deref m m' filters chain :
  heap_declared m m' → deref m filters = Some chain →
  ∃ chain', deref m' filters = Some chain' ∧ Forall2 same_declared chain chain'.
Proof.
  unfold deref. intros H. revert chain.
  induction filters as [| r filters IH]; intros chain Hd.
  - apply mapM_Some in Hd. inversion Hd; subst. exists []. split; [done |].
    constructor.
  - apply mapM_Some in Hd. inversion Hd as [| ? f ? rest Hr Hrest]; subst.
    destruct (heap_declared_lookup _ _ _ _ H Hr) as (f' & Hr' & Hf).
    destruct (IH rest) as (rest' & Hd' & HF); [by apply mapM_Some |].
    exists (f' :: rest'). split; [| by constructor].
    apply mapM_Some. constructor; [done | by apply mapM_Some].
Qed.

Lemma length_append (s t : string) :
  String.length (s +:+ t) = (String.length s + String.length t)%nat.
Proof. induction s as [| c s IH]; simpl; [done | by rewrite IH]. Qed.

Lemma flip_slot_ne (n : string) : n +:+ "_flipY" ≠ n.
Proof.
  intros H. apply (f_equal String.length) in H.
  rewrite length_append in H. simpl in H. lia.
Qed.

(** What the write to the filter at [r] does to the heap. *)
Lemma detect_write (m : gmap nat Filter.t) r f n u b1 :
  m !! r = Some f → truthy_name (Filter.backdropUniformName f) = Some n →
  let f1 := Filter.set_uniforms f (<[n := uniform_of_texture b1]> u) in
  let f2 :=
    match b1 with
    | Some _ => Filter.set_backdropActive f1 true
    | None => f1
    end in
  let m' := <[r := f2]> m in
  heap_declared m m'
  ∧ (b1 = None → (∀ q, active m' q = active m q)
                 ∧ backdropUniform m' r = Some (Some UNull))
  ∧ (∀ q, active m q = true → active m' q = true)
  ∧ (∀ x, b1 = Some x →
          active m' r = true
          ∧ backdropUniform m' r = Some (Some (UTexture x)))
  ∧ (∀ q, q ≠ r → m' !! q = m !! q).
Proof.
  intros Hr Hn f1 f2 m'.
  assert (Hname : Filter.backdropUniformName f2 = Filter.backdropUniformName f)
    by (subst f2 f1; by destruct b1).
  assert (Hu : Filter.uniforms f2 !! n = Some (uniform_of_texture b1))
    by (subst f2 f1; destruct b1; simpl; apply lookup_insert_eq).
  assert (Hm : m' !! r = Some f2) by (subst m'; apply lookup_insert_eq).
  assert (Hne : ∀ q, q ≠ r → m' !! q = m !! q)
    by (intros q Hq; subst m'; by rewrite lookup_insert_ne).
  assert (HB : backdropUniform m' r = Some (Some (uniform_of_texture b1))).
  { unfold backdropUniform. rewrite Hm. simpl. rewrite Hname, Hn. simpl.
    by rewrite Hu. }
  split.
  { apply heap_declared_insert with f; [done |]. subst f2 f1.
    destruct b1, f; reflexivity. }
  split.
  { intros ->. split; [| done]. intros q. unfold active.
    destruct (decide (q = r)) as [-> | Hq].
    - by rewrite Hm, Hr.
    - by rewrite Hne. }
  split.
  { intros q. unfold active. destruct (decide (q = r)) as [-> | Hq].
    - rewrite Hm, Hr. subst f2 f1. by destruct b1.
    - by rewrite Hne. }
  split; [| done].
  intros x ->. split; [| done]. unfold active. by rewrite Hm.
Qed.

Section DetectBackdrop.
Context (host : Host).

(** One turn of the loop. *)
Lemma detectOne_inv w bounds r b bf w' b' bf' :
  Mixin.detectOne host w bounds r b bf = Some (w', b', bf') →
  renderer_of w' = renderer_of w ∧ system_of w' = system_of w
  ∧ heap_declared (heap w) (heap w')
  ∧ (∃ evs, log w' = log w ++ evs
       ∧ count is_release evs = 0%nat ∧ count is_apply evs = 0%nat
       ∧ count is_acquire evs = one_if (negb (is_some b) && is_some b')
       ∧ count is_copy evs = one_if (negb (is_some b) && is_some b'))
  ∧ (is_some b = true → b' = b ∧ bf' = bf)
  ∧ ((is_some b = true → is_some bf = true) →
     is_some b' = true → is_some bf' = true)
  ∧ (b' = None → (∀ q, active (heap w') q = active (heap w) q)
                 ∧ (is_some (backdropUniform (heap w) r) = true →
                    backdropUniform (heap w') r = Some (Some UNull)))
  ∧ (∀ q, active (heap w) q = true → active (heap w') q = true)
  ∧ (∀ x, b' = Some x → is_some (backdropUniform (heap w) r) = true →
          active (heap w') r = true
          ∧ backdropUniform (heap w') r = Some (Some (UTexture x)))
  ∧ (∀ q, q ≠ r → heap w' !! q = heap w !! q)
  ∧ (is_some (backdropUniform (heap w) r) = false → w' = w ∧ b' = b)
  ∧ (b = None → is_some (backdropUniform (heap w) r) = true →
     is_some b' = negb (unreadable w)).
Proof.
  unfold Mixin.detectOne. intros H.
  destruct (heap w !! r) as [f |] eqn:Hr; [| done]. simpl in H.
  assert (HU : backdropUniform (heap w) r
               = n ← truthy_name (Filter.backdropUniformName f);
                 Some (Filter.uniforms f !! n))
    by (unfold backdropUniform; by rewrite Hr).
  destruct (truthy_name (Filter.backdropUniformName f)) as [n |] eqn:Hn;
    simpl in H, HU.
  2: { injection H as <- <- <-. rewrite HU. simpl.
       split; [done |]. split; [done |]. split; [apply heap_declared_refl |].
       split; [exists []; rewrite app_nil_r; by destruct b |].
       repeat split; try done. }
  rewrite HU. clear HU.
  set (u0 := if uniform_truthy (Filter.uniforms f !! (n +:+ "_flipY"))
             then Filter.uniforms f
             else <[n +:+ "_flipY" := UFloats 0 1]> (Filter.uniforms f)) in *.
  destruct b as [x |].
  - (* the backdrop is there already *)
    destruct bf as [fl |]; [| done]. simpl in H. injection H as <- <- <-.
    destruct (detect_write (heap w) r f n
                (<[n +:+ "_flipY" := UFloats fl.1 fl.2]> u0) (Some x) Hr Hn)
      as (Hd & _ & Hmono & Hx & Hne).
    autorewrite with world.
    split; [done |]. split; [done |]. split; [exact Hd |].
    split; [exists []; by rewrite app_nil_r |].
    split; [done |]. split; [done |]. split; [done |].
    split; [exact Hmono |].
    split; [intros y [= <-] _; by apply Hx |].
    split; [exact Hne |]. split; done.
  - destruct (unreadable w) eqn:Hun.
    + (* the capture fails *)
      rewrite (prepareBackdrop_unreadable host _ _ _ Hun) in H.
      simpl in H. injection H as <- <- <-.
      destruct (warnBackbuffer_rest w) as (Hh & Hrn & Hsy).
      destruct (warnBackbuffer_counts w) as (evs & Hl & Ha & Hre & Hk & Hp).
      autorewrite with world. rewrite Hh.
      match goal with
      | |- context [<[r := Filter.set_uniforms f (<[n := ?v]> ?u)]> _] =>
          destruct (detect_write (heap w) r f n u None Hr Hn)
            as (Hd & Hnone & Hmono & _ & Hne)
      end.
      split; [done |]. split; [done |]. split; [exact Hd |].
      split; [by exists evs |].
      split; [done |]. split; [done |].
      split; [intros _; destruct (Hnone eq_refl); by split |].
      split; [exact Hmono |]. split; [done |].
      split; [exact Hne |]. split; done.
    + (* the capture goes through *)
      destruct (prepareBackdrop_readable host w bounds
                  (floats_of (u0 !! (n +:+ "_flipY"))) Hun)
        as (w1 & rt & fl & evs & Hpb & Hl & Ha & Hre & Hk & Hp & Hh & Hrn
            & Hsy & _).
      rewrite Hpb in H. simpl in H. injection H as <- <- <-.
      autorewrite with world. rewrite Hh.
      match goal with
      | |- context [<[r := Filter.set_backdropActive
                             (Filter.set_uniforms f (<[n := ?v]> ?u)) true]> _] =>
          destruct (detect_write (heap w) r f n u (Some rt) Hr Hn)
            as (Hd & _ & Hmono & Hx & Hne)
      end.
      split; [done |]. split; [done |]. split; [exact Hd |].
      split; [by exists evs |].
      split; [done |]. split; [done |]. split; [done |].
      split; [exact Hmono |].
      split; [intros y [= <-] _; by apply Hx |].
      split; [exact Hne |]. split; done.
Qed.

Lemma backdropUniform_other (m m' : gmap nat Filter.t) q :
  m' !! q = m !! q → backdropUniform m' q = backdropUniform m q.
Proof. unfold backdropUniform. by intros ->. Qed.

Lemma wants_declared (m m' : gmap nat Filter.t) q :
  heap_declared m m' →
  is_some (backdropUniform m' q) = is_some (backdropUniform m q).
Proof.
  intros H. specialize (H q). unfold backdropUniform.
  destruct H as [f f' Hf |]; [| done]. simpl. rewrite Hf.
  destruct f. simpl. by destruct (truthy_name backdropUniformName).
Qed.

Lemma wantsBackdrop_declared (m m' : gmap nat Filter.t) filters :
  heap_declared m m' → wantsBackdrop m' filters = wantsBackdrop m filters.
Proof.
  intros H. unfold wantsBackdrop. induction filters as [| r rest IH]; [done |].
  simpl. by rewrite IH, (wants_declared _ _ r H).
Qed.

(** The whole loop. *)
Lemma detectBackdrop_inv filters : ∀ w bounds b bf w' b',
  Mixin.detectBackdrop host w bounds filters b bf = Some (w', b') →
  renderer_of w' = renderer_of w ∧ system_of w' = system_of w
  ∧ heap_declared (heap w) (heap w')
  ∧ (∃ evs, log w' = log w ++ evs
       ∧ count is_release evs = 0%nat ∧ count is_apply evs = 0%nat
       ∧ count is_acquire evs = one_if (negb (is_some b) && is_some b')
       ∧ count is_copy evs = one_if (negb (is_some b) && is_some b'))
  ∧ (is_some b = true → b' = b)
  ∧ (b' = None → ∀ q, active (heap w') q = active (heap w) q)
  ∧ (∀ q, active (heap w) q = true → active (heap w') q = true)
  ∧ (b' = None → ∀ q,
       q ∈ filters ∨ backdropUniform (heap w) q = Some (Some UNull) →
       is_some (backdropUniform (heap w) q) = true →
       backdropUniform (heap w') q = Some (Some UNull))
  ∧ (∀ x q, b = Some x →
       active (heap w) q = true
       ∧ backdropUniform (heap w) q = Some (Some (UTexture x)) →
       active (heap w') q = true
       ∧ backdropUniform (heap w') q = Some (Some (UTexture x)))
  ∧ (∀ x, b = None → b' = Some x →
       ∃ q, q ∈ filters ∧ active (heap w') q = true
            ∧ backdropUniform (heap w') q = Some (Some (UTexture x)))
  ∧ (b = None →
     is_some b' = wantsBackdrop (heap w) filters && negb (unreadable w))
  ∧ (wantsBackdrop (heap w) filters = false → w' = w).
Proof.
  induction filters as [| r rest IH]; intros w bounds b bf w' b' H;
    simpl in H.
  - injection H as <- <-.
    split; [done |]. split; [done |]. split; [apply heap_declared_refl |].
    split; [exists []; rewrite app_nil_r; by destruct b |].
    split; [done |]. split; [done |]. split; [done |].
    split; [intros -> q [Hq | Hq] _; [by apply elem_of_nil in Hq | done] |].
    split; [done |].
    split; [by intros x -> |]. split; [by intros -> |]. done.
  - destruct (Mixin.detectOne host w bounds r b bf)
      as [[[w1 b1] bf1] |] eqn:H1; [| done]. simpl in H.
    destruct (detectOne_inv _ _ _ _ _ _ _ _ H1)
      as (Hrn1 & Hsy1 & Hd1 & (evs1 & Hl1 & Hre1 & Hp1 & Ha1 & Hk1) & Hb1
          & _ & Hnone1 & Hmono1 & Hx1 & Hne1 & Hskip1 & Hcap1).
    destruct (IH _ _ _ _ _ _ H)
      as (Hrn & Hsy & Hd & (evs & Hl & Hre & Hp & Ha & Hk) & Hb & Hact
          & Hmono & Hnull & Htex & Hfound & Hcap & Hskip).
    split; [congruence |]. split; [congruence |].
    split; [by eapply heap_declared_trans |].
    split.
    { exists (evs1 ++ evs). rewrite Hl, Hl1, <- app_assoc.
      split; [done |]. rewrite !count_app, Hre1, Hre, Hp1, Hp, Ha1, Ha, Hk1, Hk.
      split; [done |]. split; [done |].
      destruct b as [x |]; simpl.
      - destruct (Hb1 eq_refl) as [-> _]. simpl. done.
      - destruct b1 as [x1 |]; simpl.
        + rewrite (Hb eq_refl). done.
        + by destruct b'. }
    split.
    { intros Hs. destruct (Hb1 Hs) as [-> _]. by apply Hb. }
    assert (Hb1' : b' = None → b1 = None).
    { intros ->. destruct b1; [| done]. by specialize (Hb eq_refl). }
    split.
    { intros Hn q. rewrite (Hact Hn q).
      by destruct (Hnone1 (Hb1' Hn)) as [-> _]. }
    split; [intros q Hq; by apply Hmono, Hmono1 |].
    split.
    { intros Hn q Hq Hw. destruct (Hnone1 (Hb1' Hn)) as [_ Hr].
      assert (Hw1 : is_some (backdropUniform (heap w1) q) = true)
        by (by rewrite (wants_declared _ _ q Hd1)).
      apply (Hnull Hn q); [| done].
      destruct (decide (q = r)) as [-> | Hqr].
      - right. by apply Hr.
      - destruct Hq as [Hq | Hq].
        + left. apply elem_of_cons in Hq as [Hq | Hq]; done.
        + right. by rewrite (backdropUniform_other _ _ q (Hne1 q Hqr)). }
    split.
    { intros x q -> [Hqa Hqu]. destruct (Hb1 eq_refl) as [-> _].
      apply (Htex x q eq_refl).
      destruct (decide (q = r)) as [-> | Hqr].
      - apply (Hx1 x eq_refl). by rewrite Hqu.
      - split; [by apply Hmono1 |].
        by rewrite (backdropUniform_other _ _ q (Hne1 q Hqr)). }
    split.
    { intros x -> ->. destruct b1 as [x1 |].
      - assert (x1 = x) as -> by (specialize (Hb eq_refl); congruence).
        exists r. split; [by left |].
        apply (Htex x r eq_refl).
        destruct (is_some (backdropUniform (heap w) r)) eqn:Hw.
        + by apply (Hx1 x eq_refl).
        + by destruct (Hskip1 eq_refl).
      - destruct (Hfound x eq_refl eq_refl) as (q & Hq & Hqa & Hqu).
        exists q. split; [by right | done]. }
    split.
    { intros ->. simpl.
      destruct (is_some (backdropUniform (heap w) r)) eqn:Hw; simpl.
      - specialize (Hcap1 eq_refl eq_refl).
        destruct b1 as [x1 |].
        + rewrite (Hb eq_refl). simpl in *. by rewrite <- Hcap1.
        + simpl in Hcap1.
          rewrite (Hcap eq_refl), (renderer_of_unreadable _ _ Hrn1), <- Hcap1.
          by rewrite andb_false_r.
      - destruct (Hskip1 eq_refl) as [-> ->].
        by apply Hcap. }
    simpl. intros Hw. apply orb_false_iff in Hw as [Hw1 Hw2].
    destruct (Hskip1 Hw1) as [-> ->]. by apply Hskip.
Qed.

(** The loop does not throw on a chain whose filters exist. *)
Lemma detectOne_total w bounds r b bf :
  is_Some (heap w !! r) → (is_some b = true → is_some bf = true) →
  is_Some (Mixin.detectOne host w bounds r b bf).
Proof.
  intros [f Hr] Hbf. unfold Mixin.detectOne. rewrite Hr. simpl.
  destruct (truthy_name (Filter.backdropUniformName f)); [| by eexists].
  destruct b as [x |].
  - destruct bf as [fl |]; [by eexists | by specialize (Hbf eq_refl)].
  - simpl. destruct (Mixin.prepareBackdrop host w bounds _) as [[w1 b1] fl].
    by eexists.
Qed.

Lemma heap_declared_is_Some (m m' : gmap nat Filter.t) r :
  heap_declared m m' → is_Some (m !! r) → is_Some (m' !! r).
Proof.
  intros H [f Hf]. destruct (heap_declared_lookup _ _ _ _ H Hf) as (f' & ? & _).
  by eexists.
Qed.

Lemma detectBackdrop_total filters : ∀ w bounds b bf,
  (∀ r, r ∈ filters → is_Some (heap w !! r)) →
  (is_some b = true → is_some bf = true) →
  is_Some (Mixin.detectBackdrop host w bounds filters b bf).
Proof.
  induction filters as [| r rest IH]; intros w bounds b bf Hin Hbf; simpl.
  - by eexists.
  - destruct (detectOne_total w bounds r b bf) as [[[w1 b1] bf1] H1];
      [apply Hin; by left | done |].
    rewrite H1. simpl.
    destruct (detectOne_inv _ _ _ _ _ _ _ _ H1)
      as (_ & _ & Hd1 & _ & _ & Hbf1 & _).
    apply IH; [| by apply Hbf1].
    intros q Hq. apply (heap_declared_is_Some _ _ _ Hd1), Hin. by right.
Qed.

Lemma deref_is_Some (m : gmap nat Filter.t) filters chain :
  deref m filters = Some chain → ∀ r, r ∈ filters → is_Some (m !! r).
Proof.
  unfold deref. intros H%mapM_Some r Hr.
  induction H as [| q f filters chain Hq _ IH]; [by apply elem_of_nil in Hr |].
  apply elem_of_cons in Hr as [-> | Hr]; [by eexists | by apply IH].
Qed.

Lemma deref_length (m : gmap nat Filter.t) filters chain :
  deref m filters = Some chain → length chain = length filters.
Proof. unfold deref. intros H%mapM_Some. symmetry. by eapply Forall2_length. Qed.
End DetectBackdrop.

(** ** Closing a region *)

Lemma same_but_state_refl f : same_but_state f f.
Proof. by destruct f. Qed.

Lemma same_but_state_trans f g k :
  same_but_state f g → same_but_state g k → same_but_state f k.
Proof. unfold same_but_state. intros -> ->. by destruct f. Qed.

Lemma heap_but_state_refl m : heap_but_state m m.
Proof. intros r. destruct (m !! r); constructor. apply same_but_state_refl. Qed.

Lemma heap_but_state_trans m n k :
  heap_but_state m n → heap_but_state n k → heap_but_state m k.
Proof.
  intros H1 H2 r. specialize (H1 r). specialize (H2 r).
  destruct H1; inversion H2; subst; constructor.
  by eapply same_but_state_trans.
Qed.

Lemma heap_but_state_insert m r f s :
  m !! r = Some f → heap_but_state m (<[r := Filter.set_state f s]> m).
Proof.
  intros Hr q. destruct (decide (r = q)) as [<- | Hne].
  - rewrite lookup_insert_eq, Hr. constructor. by destruct f.
  - rewrite lookup_insert_ne by done. apply heap_but_state_refl.
Qed.

Lemma heap_but_state_is_Some m m' r :
  heap_but_state m m' → is_Some (m !! r) → is_Some (m' !! r).
Proof.
  intros H [f Hf]. specialize (H r). rewrite Hf in H. inversion H. by eexists.
Qed.

Lemma heap_but_state_active m m' r :
  heap_but_state m m' → active m' r = active m r.
Proof.
  intros H. specialize (H r). unfold active.
  destruct H as [f f' Hf |]; [| done]. rewrite Hf. by destruct f.
Qed.

Lemma heap_but_state_anyActive m m' filters :
  heap_but_state m m' → anyActive m' filters = anyActive m filters.
Proof.
  intros H. unfold anyActive. induction filters as [| r rest IH]; [done |].
  simpl. by rewrite IH, (heap_but_state_active _ _ r H).
Qed.

Lemma applied_from_none m filters evs :
  count is_apply evs = 0%nat → Forall (applied_from m filters) evs.
Proof.
  induction evs as [| e evs IH]; [constructor |]. rewrite count_cons.
  destruct e; simpl; try done; intros H; constructor; try done; by apply IH.
Qed.

Lemma applied_from_mono m (l l' : list nat) evs :
  (∀ r, r ∈ l → r ∈ l') →
  Forall (applied_from m l) evs → Forall (applied_from m l') evs.
Proof.
  intros Hsub HF. eapply Forall_impl; [exact HF |]. intros [] H; try done.
  destruct H as [Hr Hm]. split; [by apply Hsub | done].
Qed.

Section Pop.
Context (host : Host).

Lemma apply_inv w r input output mode w' :
  Mixin.apply w r input output mode = Some w' →
  ∃ f, heap w !! r = Some f
       ∧ w' = emit w (Apply r f input output mode).
Proof.
  unfold Mixin.apply. destruct (heap w !! r) as [f |]; [| done].
  intros [= <-]. by exists f.
Qed.

Lemma skipTrivial_inv m filters m' filterLen tmpState :
  Mixin.skipTrivial m filters = Some (m', filterLen, tmpState) →
  heap_but_state m m'
  ∧ filterLen ≤ length filters
  ∧ (1 ≤ length filters → 1 ≤ filterLen).
Proof.
  unfold Mixin.skipTrivial. intros H.
  destruct (Nat.leb 2 (length filters)) eqn:Hlen.
  - apply Nat.leb_le in Hlen.
    destruct (filters !! (length filters - 1)%nat) as [rl |]; [| done].
    simpl in H. destruct (m !! rl) as [fl |]; [| done]. simpl in H.
    destruct (Filter.trivial fl).
    + destruct (filters !! (length filters - 2)%nat) as [rp |]; [| done].
      simpl in H. destruct (m !! rp) as [fp |] eqn:Hp; [| done].
      simpl in H. injection H as <- <- <-.
      split; [by apply heap_but_state_insert |]. lia.
    + injection H as <- <- <-. split; [apply heap_but_state_refl |]. lia.
  - injection H as <- <- <-. split; [apply heap_but_state_refl |]. lia.
Qed.

Lemma skipTrivial_total m filters :
  (∀ r, r ∈ filters → is_Some (m !! r)) →
  is_Some (Mixin.skipTrivial m filters).
Proof.
  intros Hin. unfold Mixin.skipTrivial.
  destruct (Nat.leb 2 (length filters)) eqn:Hlen; [| by eexists].
  apply Nat.leb_le in Hlen.
  destruct (lookup_lt_is_Some_2 filters (length filters - 1)) as [rl Hl];
    [lia |].
  destruct (lookup_lt_is_Some_2 filters (length filters - 2)) as [rp Hp];
    [lia |].
  rewrite Hl. simpl.
  destruct (Hin rl) as [fl Hfl]; [by eapply list_elem_of_lookup_2 |].
  rewrite Hfl. simpl. destruct (Filter.trivial fl); [| by eexists].
  rewrite Hp. simpl.
  destruct (Hin rp) as [fp Hfp]; [by eapply list_elem_of_lookup_2 |].
  rewrite Hfp. by eexists.
Qed.

Lemma pingPong_inv filters : ∀ w state i flip flop w' flip' flop',
  Mixin.pingPong host w state filters i flip flop = Some (w', flip', flop') →
  heap w' = heap w ∧ renderer_of w' = renderer_of w
  ∧ system_of w' = system_of w
  ∧ ∃ evs, log w' = log w ++ evs
      ∧ count is_release evs = 0%nat ∧ count is_copy evs = 0%nat
      ∧ count is_apply evs = length filters
      ∧ count is_acquire evs = one_if (extraFlop state i (length filters))
      ∧ Forall (applied_from (heap w) filters) evs.
Proof.
  induction filters as [| r rest IH];
    intros w state i flip flop w' flip' flop' H; simpl in H.
  - injection H as <- <- <-. repeat split; try done.
    exists []. rewrite app_nil_r. unfold extraFlop.
    repeat split; try done.
    destruct (Nat.leb i 1) eqn:E1; [| done].
    apply Nat.leb_le in E1. rewrite Nat.add_0_r.
    assert (Nat.ltb 1 i = false) as -> by (apply Nat.ltb_ge; lia). done.
  - set (again := Nat.eqb i 1 && Z.ltb 1 (FilterState.multisample state)) in *.
    destruct again eqn:Hagain; subst again;
      match type of H with
      | context [Mixin.apply ?w0 r ?a ?b ?c] =>
          destruct (Mixin.apply w0 r a b c) as [w2 |] eqn:Hap; [| done]
      end; simpl in H;
      apply apply_inv in Hap as (f & Hf & ->);
      destruct (IH _ _ _ _ _ _ _ _ H)
        as (Hh & Hrn & Hsy & evs & Hl & Hre & Hk & Hp & Ha & HF);
      autorewrite with world in *.
    all: split; [done |]. all: split; [done |]. all: split; [done |].
    all: eexists; split; [rewrite Hl, <- !app_assoc; reflexivity |].
    all: autorewrite with counting; simpl; rewrite Hre, Hk, Hp, Ha.
    all: split; [done |]. all: split; [done |]. all: split; [done |].
    all: split;
      [| simpl;
         repeat (apply Forall_cons;
                 split; [first [done | split; [by left | done]] |]);
         apply (applied_from_mono _ rest); [intros q Hq; by right | exact HF]].
    all: unfold extraFlop in *.
    + apply andb_true_iff in Hagain as [Hi Hms].
      apply Nat.eqb_eq in Hi as ->. rewrite Hms. simpl. done.
    + apply andb_false_iff in Hagain as [Hi | Hms].
      * apply Nat.eqb_neq in Hi. simpl.
        by destruct i as [| [| i]].
      * rewrite Hms. by rewrite !andb_false_r.
Qed.

Lemma pingPong_total filters : ∀ w state i flip flop,
  (∀ r, r ∈ filters → is_Some (heap w !! r)) →
  is_Some (Mixin.pingPong host w state filters i flip flop).
Proof.
  induction filters as [| r rest IH]; intros w state i flip flop Hin; simpl.
  - by eexists.
  - destruct (Hin r) as [f Hf]; [by left |].
    destruct (Nat.eqb i 1 && Z.ltb 1 (FilterState.multisample state));
      unfold Mixin.apply; autorewrite with world; rewrite Hf; simpl;
      apply IH; intros q Hq; autorewrite with world; apply Hin; by right.
Qed.

Lemma runChain_inv w state lastState rt filters filterLen w' :
  Mixin.runChain host w state lastState rt filters filterLen = Some w' →
  1 ≤ filterLen → filterLen ≤ length filters →
  heap w' = heap w ∧ renderer_of w' = renderer_of w
  ∧ system_of w' = system_of w
  ∧ ∃ evs, log w' = log w ++ evs
      ∧ count is_apply evs = filterLen ∧ count is_copy evs = 0%nat
      ∧ count is_release evs = (count is_acquire evs + 1)%nat
      ∧ count is_acquire evs
        = (if Nat.eqb filterLen 1 then 0
           else 1 + one_if (extraFlop state 0 (filterLen - 1)))%nat
      ∧ Forall (applied_from (heap w) filters) evs.
Proof.
  unfold Mixin.runChain. intros H Hlo Hhi.
  destruct (Nat.eqb filterLen 1) eqn:Hone.
  - apply Nat.eqb_eq in Hone as ->.
    destruct (filters !! 0%nat) as [r0 |] eqn:Hr0; [| done]. simpl in H.
    destruct (Mixin.apply w r0 rt _ BLEND) as [w1 |] eqn:Hap; [| done].
    simpl in H. injection H as <-.
    apply apply_inv in Hap as (f & Hf & ->). autorewrite with world.
    repeat split; try done.
    eexists. split; [rewrite <- !app_assoc; reflexivity |].
    repeat split; try done. repeat constructor; try done.
    by eapply list_elem_of_lookup_2.
  - apply Nat.eqb_neq in Hone.
    match type of H with
    | context [Mixin.pingPong host ?w0 state ?l 0 ?a ?b] =>
        destruct (Mixin.pingPong host w0 state l 0 a b)
          as [[[w1 flip] flop] |] eqn:Hpp; [| done]
    end. simpl in H.
    destruct (filters !! (filterLen - 1)%nat) as [ri |] eqn:Hri; [| done].
    simpl in H.
    destruct (Mixin.apply w1 ri flip _ BLEND) as [w2 |] eqn:Hap; [| done].
    simpl in H. injection H as <-.
    apply apply_inv in Hap as (f & Hf & ->).
    destruct (pingPong_inv _ _ _ _ _ _ _ _ _ Hpp)
      as (Hh & Hrn & Hsy & evs & Hl & Hre & Hk & Hp & Ha & HF).
    rewrite length_take_le in Hp, Ha by lia.
    assert (Hextra : Nat.ltb 1 (filterLen - 1)
                     && Z.ltb 1 (FilterState.multisample state)
                     = extraFlop state 0 (filterLen - 1)) by done.
    rewrite Hextra. destruct (extraFlop state 0 (filterLen - 1));
      autorewrite with world in *; rewrite ?Hl.
    all: split; [done |]. all: split; [done |]. all: split; [done |].
    all: eexists; split; [rewrite <- !app_assoc; reflexivity |].
    all: autorewrite with counting; simpl; rewrite Hre, Hk, Hp, Ha; simpl.
    all: split; [lia |]. all: split; [lia |]. all: split; [lia |].
    all: split; [lia |].
    all: apply Forall_cons; split; [done |].
    all: apply Forall_app; split;
      [apply (applied_from_mono _ (take (filterLen - 1) filters));
         [intros q Hq; by apply (subseteq_take (filterLen - 1) filters)
         | exact HF] |].
    all: rewrite Hh in Hf; autorewrite with world in Hf.
    all: repeat constructor; try done; by eapply list_elem_of_lookup_2.
Qed.

Lemma runChain_total w state lastState rt filters filterLen :
  (∀ r, r ∈ filters → is_Some (heap w !! r)) →
  1 ≤ filterLen → filterLen ≤ length filters →
  is_Some (Mixin.runChain host w state lastState rt filters filterLen).
Proof.
  intros Hin Hlo Hhi. unfold Mixin.runChain.
  assert (Hap : ∀ w0 r a b c, heap w0 = heap w → r ∈ filters →
                  ∃ f, Mixin.apply w0 r a b c = Some (emit w0 (Apply r f a b c))).
  { intros w0 r a b c Hw0 Hr. destruct (Hin r Hr) as [f Hf].
    exists f. unfold Mixin.apply. by rewrite Hw0, Hf. }
  destruct (Nat.eqb filterLen 1) eqn:Hone.
  - destruct (lookup_lt_is_Some_2 filters 0) as [r0 Hr0]; [lia |].
    rewrite Hr0. simpl.
    destruct (Hap w r0 rt (FilterState.renderTexture lastState) BLEND)
      as [f ->]; [done | by eapply list_elem_of_lookup_2 |]. by eexists.
  - match goal with
    | |- context [Mixin.pingPong host ?w0 state ?l 0 ?a ?b] =>
        destruct (pingPong_total (take (filterLen - 1) filters) w0 state 0 a b)
          as [[[w1 flip] flop] Hpp]
    end.
    { intros r Hr. autorewrite with world. apply Hin.
      apply list_elem_of_lookup in Hr as [i Hi].
      apply lookup_take_Some in Hi as [Hi _]. by eapply list_elem_of_lookup_2. }
    rewrite Hpp. simpl.
    destruct (pingPong_inv _ _ _ _ _ _ _ _ _ Hpp) as (Hh & _).
    autorewrite with world in Hh.
    destruct (lookup_lt_is_Some_2 filters (filterLen - 1)) as [ri Hri]; [lia |].
    rewrite Hri. simpl.
    destruct (Hap w1 ri flip (FilterState.renderTexture lastState) BLEND)
      as [f ->]; [done | by eapply list_elem_of_lookup_2 |]. by eexists.
Qed.

Lemma restoreState_inv w filters filterLen tmpState w' :
  Mixin.restoreState w filters filterLen tmpState = Some w' →
  heap_but_state (heap w) (heap w') ∧ log w' = log w
  ∧ renderer_of w' = renderer_of w ∧ system_of w' = system_of w.
Proof.
  unfold Mixin.restoreState. intros H. destruct tmpState as [t |].
  - destruct (filters !! (filterLen - 1)%nat) as [r |]; [| done].
    simpl in H. destruct (heap w !! r) as [f |] eqn:Hf; [| done].
    simpl in H. injection H as <-. autorewrite with world.
    split; [by apply heap_but_state_insert | done].
  - injection H as <-. split; [apply heap_but_state_refl | done].
Qed.

Lemma restoreState_total w filters filterLen tmpState :
  (∀ r, r ∈ filters → is_Some (heap w !! r)) →
  1 ≤ filterLen → filterLen ≤ length filters →
  is_Some (Mixin.restoreState w filters filterLen tmpState).
Proof.
  intros Hin Hlo Hhi. unfold Mixin.restoreState.
  destruct tmpState as [t |]; [| by eexists].
  destruct (lookup_lt_is_Some_2 filters (filterLen - 1)) as [r Hr]; [lia |].
  rewrite Hr. simpl.
  destruct (Hin r) as [f ->]; [by eapply list_elem_of_lookup_2 |]. by eexists.
Qed.

Lemma releaseBackdrop_inv filters : ∀ w free w',
  Mixin.releaseBackdrop w filters free = Some w' →
  renderer_of w' = renderer_of w ∧ system_of w' = system_of w
  ∧ heap_declared (heap w) (heap w')
  ∧ (∀ q, q ∈ filters → active (heap w') q = false)
  ∧ (∀ q, active (heap w) q = false → active (heap w') q = false)
  ∧ ∃ evs, log w' = log w ++ evs
      ∧ count is_acquire evs = 0%nat ∧ count is_copy evs = 0%nat
      ∧ count is_apply evs = 0%nat
      ∧ count is_release evs
        = one_if (negb free && anyActive (heap w) filters).
Proof.
  induction filters as [| r rest IH]; intros w free w' H; simpl in H.
  - injection H as <-. split; [done |]. split; [done |].
    split; [apply heap_declared_refl |].
    split; [intros q Hq; by apply elem_of_nil in Hq |]. split; [done |].
    exists []. rewrite app_nil_r. by rewrite andb_false_r.
  - destruct (heap w !! r) as [f |] eqn:Hr; [| done]. simpl in H.
    assert (Hact : active (heap w) r = Filter._backdropActive f)
      by (unfold active; by rewrite Hr).
    unfold anyActive. simpl. rewrite Hact.
    destruct (Filter._backdropActive f) eqn:Hf.
    + destruct (IH _ _ _ H)
        as (Hrn & Hsy & Hd & Hoff & Hkeep & evs & Hl & Ha & Hk & Hp & Hre).
      set (f1 := Filter.set_backdropActive
                   (Filter.set_uniforms f
                      (<[Filter.key (Filter.backdropUniformName f) := UNull]>
                         (Filter.uniforms f))) false) in *.
      assert (Hd1 : heap_declared (heap w) (<[r := f1]> (heap w))).
      { apply heap_declared_insert with f; [done |]. by destruct f. }
      assert (Hoff1 : active (<[r := f1]> (heap w)) r = false)
        by (unfold active; by rewrite lookup_insert_eq).
      destruct free; autorewrite with world in *.
      all: split; [done |]. all: split; [done |].
      all: split; [by eapply heap_declared_trans |].
      all: split;
        [intros q Hq; apply elem_of_cons in Hq as [-> | Hq];
           [by apply Hkeep | by apply Hoff] |].
      all: split;
        [intros q Hq; apply Hkeep; unfold active;
         destruct (decide (q = r)) as [-> | Hne];
           [by rewrite lookup_insert_eq
           | rewrite lookup_insert_ne by done; exact Hq] |].
      all: eexists; split; [rewrite Hl, <- ?app_assoc; reflexivity |].
      all: autorewrite with counting; simpl; rewrite Ha, Hk, Hp, Hre.
      all: done.
    + destruct (IH _ _ _ H)
        as (Hrn & Hsy & Hd & Hoff & Hkeep & evs & Hl & Ha & Hk & Hp & Hre).
      split; [done |]. split; [done |]. split; [done |].
      split;
        [intros q Hq; apply elem_of_cons in Hq as [-> | Hq];
           [apply Hkeep; by rewrite Hact | by apply Hoff] |].
      split; [done |].
      by exists evs.
Qed.

Lemma releaseBackdrop_total filters : ∀ w free,
  (∀ r, r ∈ filters → is_Some (heap w !! r)) →
  is_Some (Mixin.releaseBackdrop w filters free).
Proof.
  induction filters as [| r rest IH]; intros w free Hin; simpl.
  - by eexists.
  - destruct (Hin r) as [f Hf]; [by left |]. rewrite Hf. simpl.
    destruct (Filter._backdropActive f).
    + apply IH. intros q Hq. destruct free; autorewrite with world.
      all: destruct (decide (q = r)) as [-> | Hne];
        [rewrite lookup_insert_eq; by eexists
        | rewrite lookup_insert_ne by done; apply Hin; by right].
    + apply IH. intros q Hq. apply Hin. by right.
Qed.

Lemma runChain_nil w state lastState rt filterLen :
  Mixin.runChain host w state lastState rt [] filterLen = None.
Proof.
  unfold Mixin.runChain. destruct (Nat.eqb filterLen 1); [done |].
  rewrite take_nil. simpl. done.
Qed.

(** What [pop] does, for the region on top of the stack. *)
Lemma pop_inv w w' :
  Mixin.pop host w = Some w' →
  ∃ state stack filters filterLen,
    defaultFilterStack w = state :: stack
    ∧ FilterState.filters state = Some filters
    ∧ defaultFilterStack w' = stack
    ∧ statePool w' = FilterState.clear state :: statePool w
    ∧ globalUniforms w' = Mixin.writeUniforms (globalUniforms w) state
    ∧ renderer_of w' = renderer_of w
    ∧ (∀ q, q ∈ filters → active (heap w') q = false)
    ∧ (∀ q, active (heap w) q = false → active (heap w') q = false)
    ∧ 1 ≤ filterLen ∧ filterLen ≤ length filters
    ∧ (∃ m tmpState,
         Mixin.skipTrivial (heap w) filters = Some (m, filterLen, tmpState))
    ∧ ∃ evs, log w' = log w ++ evs
        ∧ count is_copy evs = 0%nat
        ∧ count is_apply evs = filterLen
        ∧ count is_release evs
          = (count is_acquire evs + 1
             + one_if (anyActive (heap w) filters))%nat
        ∧ count is_acquire evs
          = (if Nat.eqb filterLen 1 then 0
             else 1 + one_if (extraFlop state 0 (filterLen - 1)))%nat
        ∧ ∃ m tmpState,
            Mixin.skipTrivial (heap w) filters
            = Some (m, filterLen, tmpState)
            ∧ Forall (applied_from m filters) evs.
Proof.
  unfold Mixin.pop. intros H.
  destruct (defaultFilterStack w) as [| state stack] eqn:Hst; [done |].
  destruct (FilterState.filters state) as [filters |] eqn:Hfs; [| done].
  simpl in H.
  destruct (head stack) as [lastState |]; [| done]. simpl in H.
  destruct (FilterState.renderTexture state) as [rt |]; [| done].
  simpl in H.
  set (w0 := if Z.ltb 1 (RenderTexture.framebuffer_multisample rt)
             then emit (emit (set_active w state
                          (Mixin.writeUniforms (globalUniforms w) state))
                          UniformsUpdate) Blit
             else emit (set_active w state
                          (Mixin.writeUniforms (globalUniforms w) state))
                    UniformsUpdate) in *.
  assert (Hw0 : heap w0 = heap w ∧ renderer_of w0 = renderer_of w
                ∧ statePool w0 = statePool w
                ∧ globalUniforms w0
                  = Mixin.writeUniforms (globalUniforms w) state
                ∧ ∃ evs0, log w0 = log w ++ evs0
                    ∧ count is_copy evs0 = 0%nat ∧ count is_apply evs0 = 0%nat
                    ∧ count is_release evs0 = 0%nat
                    ∧ count is_acquire evs0 = 0%nat).
  { subst w0. destruct (Z.ltb 1 _); autorewrite with world.
    - repeat split; try done. eexists [_; _]. by rewrite <- app_assoc.
    - repeat split; try done. by eexists [_]. }
  clearbody w0.
  destruct Hw0 as (Hh0 & Hrn0 & Hpool0 & Hgu0 & evs0 & Hl0 & Hk0 & Hp0 & Hre0
                   & Ha0).
  destruct (Mixin.skipTrivial (heap w0) filters)
    as [[[m filterLen] tmpState] |] eqn:Hskip; [| done]. simpl in H.
  destruct (Mixin.runChain host (set_heap w0 m) state lastState rt filters
              filterLen) as [w1 |] eqn:Hrun; [| done]. simpl in H.
  destruct (Mixin.restoreState w1 filters filterLen tmpState)
    as [w2 |] eqn:Hrest; [| done]. simpl in H.
  destruct (Mixin.releaseBackdrop w2 filters false) as [w3 |] eqn:Hrel;
    [| done]. simpl in H. injection H as <-.
  destruct (skipTrivial_inv _ _ _ _ _ Hskip) as (Hbs & Hhi & Hlo).
  assert (Hne : 1 ≤ length filters).
  { destruct filters; [| simpl; lia]. by rewrite runChain_nil in Hrun. }
  specialize (Hlo Hne).
  destruct (runChain_inv _ _ _ _ _ _ _ Hrun Hlo Hhi)
    as (Hh1 & Hrn1 & Hsy1 & evs1 & Hl1 & Hp1 & Hk1 & Hre1 & Ha1 & HF1).
  destruct (restoreState_inv _ _ _ _ _ Hrest) as (Hbs2 & Hl2 & Hrn2 & Hsy2).
  destruct (releaseBackdrop_inv _ _ _ _ Hrel)
    as (Hrn3 & Hsy3 & Hd3 & Hoff3 & Hkeep3 & evs3 & Hl3 & Ha3 & Hk3 & Hp3
        & Hre3).
  autorewrite with world in *.
  assert (Hbs_all : heap_but_state (heap w) (heap w2)).
  { rewrite <- Hh0. eapply heap_but_state_trans; [exact Hbs |].
    by rewrite <- Hh1. }
  exists state, stack, filters, filterLen.
  split; [done |]. split; [done |]. split; [done |].
  split.
  { f_equal. rewrite (system_of_pool _ _ Hsy3), (system_of_pool _ _ Hsy2),
      (system_of_pool _ _ Hsy1). by autorewrite with world. }
  split.
  { rewrite (system_of_uniforms _ _ Hsy3), (system_of_uniforms _ _ Hsy2),
      (system_of_uniforms _ _ Hsy1). by autorewrite with world. }
  split; [congruence |].
  split; [exact Hoff3 |].
  split.
  { intros q Hq. apply Hkeep3.
    by rewrite (heap_but_state_active _ _ q Hbs_all). }
  split; [done |]. split; [done |].
  split; [rewrite <- Hh0; by eexists _, _ |].
  exists (evs0 ++ evs1 ++ evs3).
  split; [rewrite Hl3, Hl2, Hl1, Hl0, <- !app_assoc; reflexivity |].
  rewrite !count_app, Hk0, Hk1, Hk3, Hp0, Hp1, Hp3, Hre0, Hre1, Hre3, Ha0, Ha3.
  rewrite (heap_but_state_anyActive _ _ filters Hbs_all). simpl.
  split; [lia |]. split; [lia |]. split; [lia |].
  split; [rewrite Ha1; destruct (Nat.eqb filterLen 1); simpl; lia |].
  exists m, tmpState. split; [by rewrite <- Hh0 |].
  apply Forall_app. split; [by apply applied_from_none |].
  apply Forall_app. split; [exact HF1 | by apply applied_from_none].
Qed.

Lemma pop_total w state stack lastState filters rt :
  defaultFilterStack w = state :: lastState :: stack →
  FilterState.filters state = Some filters →
  FilterState.renderTexture state = Some rt →
  filters ≠ [] → (∀ r, r ∈ filters → is_Some (heap w !! r)) →
  is_Some (Mixin.pop host w).
Proof.
  intros Hst Hfs Hrt Hne Hin. unfold Mixin.pop. rewrite Hst, Hfs. simpl.
  rewrite Hrt. simpl.
  set (w0 := if Z.ltb 1 (RenderTexture.framebuffer_multisample rt)
             then _ else _).
  assert (Hh0 : heap w0 = heap w)
    by (subst w0; destruct (Z.ltb 1 _); by autorewrite with world).
  clearbody w0.
  destruct (skipTrivial_total (heap w0) filters)
    as [[[m filterLen] tmpState] Hskip]; [by rewrite Hh0 |].
  rewrite Hskip. simpl.
  destruct (skipTrivial_inv _ _ _ _ _ Hskip) as (Hbs & Hhi & Hlo).
  assert (Hlen : 1 ≤ length filters) by (destruct filters; [done | simpl; lia]).
  specialize (Hlo Hlen).
  assert (Hin1 : ∀ r, r ∈ filters → is_Some (m !! r)).
  { intros r Hr. apply (heap_but_state_is_Some _ _ _ Hbs).
    rewrite Hh0. by apply Hin. }
  destruct (runChain_total (set_heap w0 m) state lastState rt filters filterLen)
    as [w1 Hrun]; [by autorewrite with world | done | done |].
  rewrite Hrun. simpl.
  destruct (runChain_inv _ _ _ _ _ _ _ Hrun Hlo Hhi) as (Hh1 & _).
  autorewrite with world in Hh1.
  destruct (restoreState_total w1 filters filterLen tmpState)
    as [w2 Hrest]; [by rewrite Hh1 | done | done |].
  rewrite Hrest. simpl.
  destruct (restoreState_inv _ _ _ _ _ Hrest) as (Hbs2 & _).
  destruct (releaseBackdrop_total filters w2 false) as [w3 Hrel].
  { intros r Hr. apply (heap_but_state_is_Some _ _ _ Hbs2).
    rewrite Hh1. by apply Hin1. }
  rewrite Hrel. by eexists.
Qed.
End Pop.

(** ** Opening a region *)

Section Push.
Context (host : Host).

(** [pushWithCheck] once the chain is read and its settings resolved. *)
Lemma pushWithCheck_eq w target filters check chain s :
  deref (heap w) filters = Some chain →
  Mixin.settings (useMaxPadding w) (currentResolution w)
    (currentMultisample w) chain = Some s →
  Mixin.pushWithCheck host w target filters check
  = let frame := fst (Mixin.resolveFrame host w target s) in
    let canUseBackdrop := snd (Mixin.resolveFrame host w target s) in
    let state :=
      Mixin.stamp (fst (takeState (statePool w))) target s frame in
    let stack := noteRoot (defaultFilterStack w) (current w) in
    let pool := snd (takeState (statePool w)) in
    if check && leq (Rectangle.width frame) 1
       && leq (Rectangle.height frame) 1
    then Some (false, set_stacks w stack (FilterState.clear state :: pool))
    else Mixin.openRegion host w state stack pool target filters s frame
           canUseBackdrop.
Proof.
  intros Hd Hs. unfold Mixin.pushWithCheck.
  destruct (takeState (statePool w)) as [state pool]. rewrite Hd. simpl.
  rewrite Hs. simpl.
  by destruct (Mixin.resolveFrame host w target s) as [frame cub].
Qed.

Lemma pushWithCheck_reads w target filters check r :
  Mixin.pushWithCheck host w target filters check = Some r →
  ∃ chain s,
    deref (heap w) filters = Some chain
    ∧ Mixin.settings (useMaxPadding w) (currentResolution w)
        (currentMultisample w) chain = Some s.
Proof.
  unfold Mixin.pushWithCheck. destruct (takeState (statePool w)).
  destruct (deref (heap w) filters) as [chain |]; [| done]. simpl.
  destruct (Mixin.settings _ _ _ chain) as [s |] eqn:Hs; [| by simpl].
  intros _. by exists chain, s.
Qed.

(** The part of [pushWithCheck] after the empty-bounds test. *)
Lemma openRegion_inv w state stack pool target filters s frame cub ok w' :
  Mixin.openRegion host w state stack pool target filters s frame cub
  = Some (ok, w') →
  ∃ w1 backdrop st evs rt,
    (if cub
     then Mixin.detectBackdrop host w frame filters None None
          = Some (w1, backdrop)
     else w1 = w ∧ backdrop = None)
    ∧ ok = true
    ∧ defaultFilterStack w' = st :: stack ∧ statePool w' = pool
    ∧ heap w' = heap w1 ∧ globalUniforms w' = globalUniforms w1
    ∧ hadBackbufferError w' = hadBackbufferError w1
    ∧ log w' = log w1 ++ evs
    ∧ head evs = Some (GetOptimalFilterTexture (Rectangle.width frame)
                         (Rectangle.height frame)
                         (FilterState.resolution st)
                         (Some (Mixin.multisample s)) rt)
    ∧ count is_acquire evs = 1%nat ∧ count is_release evs = 0%nat
    ∧ count is_copy evs = 0%nat ∧ count is_apply evs = 0%nat
    ∧ FilterState.filters st = Some filters
    ∧ FilterState.legacy st = Mixin.legacy s
    ∧ FilterState.resolution st
      = match backdrop with
        | Some b => RenderTexture.resolution b
        | None => Mixin.resolution s
        end
    ∧ FilterState.multisample st = FilterState.multisample state
    ∧ FilterState.sourceFrame st = frame
    ∧ is_Some (FilterState.renderTexture st).
Proof.
  unfold Mixin.openRegion. intros H.
  set (detected := if cub
                   then Mixin.detectBackdrop host w frame filters None None
                   else Some (w, None)) in *.
  destruct detected as [[w1 backdrop] |] eqn:Hdet; [| done]. simpl in H.
  destruct (last filters) as [rl |]; [| done]. simpl in H.
  autorewrite with world in H.
  destruct (heap w1 !! rl) as [fl |]; [| done]. simpl in H.
  assert (Hdet' : if cub
                  then Mixin.detectBackdrop host w frame filters None None
                       = Some (w1, backdrop)
                  else w1 = w ∧ backdrop = None)
    by (subst detected; destruct cub; [done | by injection Hdet as <- <-]).
  destruct (Filter.clearColor fl) as [[[[cr cg] cb] ca] |];
    injection H as <- <-; eexists w1, backdrop, _, _, _;
    (split; [exact Hdet' |]); (split; [done |]); autorewrite with world.
  all: split; [reflexivity |]. all: split; [done |]. all: split; [done |].
  all: split; [done |]. all: split; [done |].
  all: split; [rewrite <- !app_assoc; reflexivity |].
  all: simpl. all: split; [reflexivity |].
  all: repeat split; try done. all: by eexists.
Qed.

Lemma openRegion_total w state stack pool target filters s frame cub :
  filters ≠ [] → (∀ r, r ∈ filters → is_Some (heap w !! r)) →
  is_Some (Mixin.openRegion host w state stack pool target filters s frame
             cub).
Proof.
  intros Hne Hin. unfold Mixin.openRegion.
  set (detected := if cub
                   then Mixin.detectBackdrop host w frame filters None None
                   else Some (w, None)).
  assert (Hdet : ∃ w1 backdrop, detected = Some (w1, backdrop)
                                ∧ heap_declared (heap w) (heap w1)).
  { subst detected. destruct cub.
    - destruct (detectBackdrop_total host filters w frame None None)
        as [[w1 backdrop] H1]; [done | done |].
      exists w1, backdrop. split; [done |].
      by destruct (detectBackdrop_inv host _ _ _ _ _ _ _ H1) as (_ & _ & ? & _).
    - exists w, None. split; [done | apply heap_declared_refl]. }
  destruct Hdet as (w1 & backdrop & -> & Hd). simpl.
  destruct (last filters) as [rl |] eqn:Hlast.
  2: { apply last_None in Hlast. done. }
  simpl. autorewrite with world.
  destruct (heap_declared_is_Some _ _ rl Hd) as [fl ->].
  { apply Hin. apply last_Some in Hlast as [l' ->].
    apply elem_of_app. right. by left. }
  by eexists.
Qed.
End Push.

(** ** One open/close cycle *)

Lemma deref_inactive (m : gmap nat Filter.t) filters chain :
  deref m filters = Some chain →
  Forall (fun f => Filter._backdropActive f = false) chain →
  ∀ r, r ∈ filters → active m r = false.
Proof.
  unfold deref. intros H%mapM_Some HF r Hr.
  induction H as [| q f filters chain Hq _ IH]; [by apply elem_of_nil in Hr |].
  inversion HF as [| ? ? Hf HF']; subst.
  apply elem_of_cons in Hr as [-> | Hr]; [| by apply IH].
  unfold active. by rewrite Hq.
Qed.

Lemma anyActive_false m filters :
  (∀ r, r ∈ filters → active m r = false) → anyActive m filters = false.
Proof.
  intros H. unfold anyActive. induction filters as [| r rest IH]; [done |].
  simpl. rewrite (H r) by (by left). simpl. apply IH. intros q Hq. apply H.
  by right.
Qed.

Lemma anyActive_true m filters r :
  r ∈ filters → active m r = true → anyActive m filters = true.
Proof.
  intros Hr Ha. unfold anyActive. apply existsb_exists. exists r.
  split; [by apply list_elem_of_In | done].
Qed.

Lemma anyActive_ext m m' filters :
  (∀ r, active m' r = active m r) → anyActive m' filters = anyActive m filters.
Proof.
  intros H. unfold anyActive. induction filters as [| r rest IH]; [done |].
  simpl. by rewrite IH, H.
Qed.

Lemma noteRoot_nonempty stack cur : stack ≠ [] → noteRoot stack cur ≠ [].
Proof. destruct stack as [| a [| b l]]; done. Qed.

Lemma deref_nonempty (m : gmap nat Filter.t) filters chain :
  deref m filters = Some chain → filters ≠ [] → ∃ f0 rest, chain = f0 :: rest.
Proof.
  intros H%deref_length Hne. destruct chain as [| f0 rest]; [| by eauto].
  destruct filters; [done | discriminate].
Qed.

(** X21. One cycle on one region: [pushWithCheck] (or [push]) and, where it
    accepted the region, the [pop] that follows.  For a chain of one filter
    or more none of whose filters is marked backdrop-active when the region
    is opened, and a filter stack that holds its root entry, neither call
    throws and the pass manager calls [getOptimalFilterTexture] as often as
    [returnFilterTexture]: whatever the frame, the sample counts, the
    backdrop and the last filter are; and [pop] leaves no filter of the
    chain marked backdrop-active, so the next cycle starts as this one
    did.  A rejected region acquires and returns nothing. *)
Theorem cycle_textures_balanced (host : Host) (w : World)
    (target : DisplayObject.t) (filters : list nat) (check : bool)
    (chain : list Filter.t) :
  deref (heap w) filters = Some chain → filters ≠ [] →
  defaultFilterStack w ≠ [] →
  Forall (fun f => Filter._backdropActive f = false) chain →
  Mixin.push host w target filters
  = Mixin.pushWithCheck host w target filters false
  ∧ ∃ ok w1,
      Mixin.pushWithCheck host w target filters check = Some (ok, w1)
      ∧ if ok
        then ∃ w2 evs,
               Mixin.pop host w1 = Some w2 ∧ log w2 = log w ++ evs
               ∧ count is_acquire evs = count is_release evs
               ∧ ∀ q, q ∈ filters → active (heap w2) q = false
        else log w1 = log w.
Proof.
  intros Hd Hne Hstack Hstale. split; [done |].
  destruct (deref_nonempty _ _ _ Hd Hne) as (f0 & rest & ->).
  destruct (settings_total (useMaxPadding w) (currentResolution w)
              (currentMultisample w) f0 rest) as [s Hs].
  rewrite (pushWithCheck_eq host _ _ _ _ _ _ Hd Hs). simpl.
  set (frame := fst (Mixin.resolveFrame host w target s)).
  set (cub := snd (Mixin.resolveFrame host w target s)).
  destruct (check && leq (Rectangle.width frame) 1
            && leq (Rectangle.height frame) 1).
  { eexists false, _. split; [reflexivity |]. by autorewrite with world. }
  pose proof (deref_is_Some _ _ _ Hd) as Hin.
  match goal with
  | |- context [Mixin.openRegion host w ?st ?sk ?pl target filters s frame cub] =>
      destruct (openRegion_total host w st sk pl target filters s frame cub
                  Hne Hin) as [[ok w1] Hopen]
  end.
  exists ok, w1. split; [exact Hopen |].
  destruct (openRegion_inv host _ _ _ _ _ _ _ _ _ _ _ Hopen)
    as (wd & backdrop & st & evs1 & rt & Hdet & -> & Hst1 & Hpool1 & Hh1 & _
        & _ & Hl1 & _ & Ha1 & Hre1 & _ & _ & Hfs & _ & _ & _ & _ & [rt1 Hrt]).
  (* the backdrop loop *)
  assert (Hloop : heap_declared (heap w) (heap wd)
                  ∧ anyActive (heap wd) filters = is_some backdrop
                  ∧ ∃ evs0, log wd = log w ++ evs0
                      ∧ count is_acquire evs0 = one_if (is_some backdrop)
                      ∧ count is_release evs0 = 0%nat).
  { pose proof (deref_inactive _ _ _ Hd Hstale) as Hoff.
    destruct cub.
    - destruct (detectBackdrop_inv host _ _ _ _ _ _ _ Hdet)
        as (_ & _ & Hdecl & (evs0 & Hl0 & Hre0 & _ & Ha0 & _) & _ & Hsame & _
            & _ & _ & Hfound & _).
      split; [exact Hdecl |]. split.
      + destruct backdrop as [x |]; simpl.
        * destruct (Hfound x eq_refl eq_refl) as (q & Hq & Hqa & _).
          by apply anyActive_true with q.
        * apply anyActive_false. intros r Hr.
          rewrite (Hsame eq_refl r). by apply Hoff.
      + by exists evs0.
    - destruct Hdet as [-> ->]. split; [apply heap_declared_refl |].
      split; [by apply anyActive_false |].
      exists []. by rewrite app_nil_r. }
  destruct Hloop as (Hdecl & Hany & evs0 & Hl0 & Ha0 & Hre0).
  (* the pop *)
  destruct (noteRoot (defaultFilterStack w) (current w))
    as [| lastState stack] eqn:Hroot.
  { by apply noteRoot_nonempty in Hroot. }
  destruct (pop_total host w1 st stack lastState filters rt1) as [w2 Hpop];
    try done.
  { intros r Hr. rewrite Hh1.
    by apply (heap_declared_is_Some _ _ _ Hdecl), Hin. }
  destruct (pop_inv host _ _ Hpop)
    as (st' & stack' & filters' & filterLen & Hst' & Hfs' & _ & _ & _ & _
        & Hoff2 & _ & _ & _ & _ & evs2 & Hl2 & _ & _ & Hre2 & _).
  assert (st' = st) as -> by congruence.
  assert (filters' = filters) as -> by congruence.
  exists w2, (evs0 ++ evs1 ++ evs2). split; [exact Hpop |].
  split; [rewrite Hl2, Hl1, Hl0, <- !app_assoc; reflexivity |].
  split; [| exact Hoff2].
  rewrite !count_app, Ha0, Ha1, Hre0, Hre1, Hre2, Hh1, Hany. lia.
Qed.

Lemma cycle_textures_balanced_witness :
  ∃ ok w1,
    Mixin.pushWithCheck Pixi.host Sample.three (Pixi.sprite 10 10 50 50)
      [0; 1; 2]%nat true = Some (ok, w1)
    ∧ if ok
      then ∃ w2 evs,
             Mixin.pop Pixi.host w1 = Some w2
             ∧ log w2 = log Sample.three ++ evs
             ∧ count is_acquire evs = count is_release evs
             ∧ ∀ q, q ∈ [0; 1; 2]%nat → active (heap w2) q = false
      else log w1 = log Sample.three.
Proof.
  refine (proj2 (cycle_textures_balanced Pixi.host Sample.three
                   (Pixi.sprite 10 10 50 50) [0; 1; 2]%nat true
                   [Sample.blend 1 true 10; Sample.pass false 11;
                    Sample.pass false 12] _ _ _ _)).
  - vm_compute. reflexivity.
  - discriminate.
  - discriminate.
  - repeat constructor.
Defined.

(** C1 fails on the code.  A region is open on a blend filter that opts
    out of auto-fit, so its [pushWithCheck] has captured a backdrop and
    marked the filter backdrop-active.  A second region is opened inside it
    on the same filter, with a frame that reaches beyond the outer one, so
    that it may not use a backdrop.  The cycle of the inner region takes
    one texture from the pool, its working texture, and returns two: the
    working texture and the backdrop of the outer region, which is still
    open. *)
Theorem C1_shared_filter_unbalanced :
  ∃ w1 w3 evs,
    Nested.run = Some (w1, w3)
    ∧ map RenderTexture.id (acquired (log w1)) = [0; 1]%nat
    ∧ active (heap w1) 0 = true
    ∧ log w3 = log w1 ++ evs
    ∧ count is_acquire evs = 1%nat ∧ count is_release evs = 2%nat
    ∧ map RenderTexture.id (acquired evs) = [2]%nat
    ∧ map texture_id (released evs) = [Some 2; Some 0]%nat.
Proof.
  eexists _, _, _. split; [vm_compute; reflexivity |].
  split; [vm_compute; reflexivity |]. split; [vm_compute; reflexivity |].
  split; [vm_compute; reflexivity |]. split; [vm_compute; reflexivity |].
  split; [vm_compute; reflexivity |]. split; vm_compute; reflexivity.
Qed.

(** ** The empty-bounds test *)

(** C2, as the specification states it, fails: a rejected region leaves
    the stack as it was.  A stack that holds only its root entry has that
    entry's [renderTexture] overwritten before the test. *)
Lemma C2_counterexample :
  ∃ w',
    Mixin.pushWithCheck Pixi.host Sample.idle (Pixi.sprite 10 10 1 1)
      [0%nat] true = Some (false, w')
    ∧ log w' = log Sample.idle
    ∧ defaultFilterStack w' ≠ defaultFilterStack Sample.idle.
Proof.
  eexists. split; [vm_compute; reflexivity |]. split; [reflexivity |].
  vm_compute. discriminate.
Qed.

(** C2, amended.  With the empty-bounds check requested and a rounded
    source frame of width and height at most 1, [pushWithCheck] returns
    false and calls nothing in the host: no texture is acquired and no
    backdrop captured.  The stack keeps its length and, unless it holds
    only its root entry, its contents; a sole root entry has its
    [renderTexture] set to the render texture currently bound.  Filters
    and bindings are untouched and the state taken for the region goes
    (back) to the pool, cleared. *)
Theorem C2_empty_bounds_rejected (host : Host) (w : World)
    (target : DisplayObject.t) (filters : list nat) (chain : list Filter.t)
    (s : Mixin.Settings) :
  deref (heap w) filters = Some chain →
  Mixin.settings (useMaxPadding w) (currentResolution w)
    (currentMultisample w) chain = Some s →
  (Rectangle.width (fst (Mixin.resolveFrame host w target s)) <= 1)%Q →
  (Rectangle.height (fst (Mixin.resolveFrame host w target s)) <= 1)%Q →
  ∃ w',
    Mixin.pushWithCheck host w target filters true = Some (false, w')
    ∧ log w' = log w ∧ heap w' = heap w ∧ renderer_of w' = renderer_of w
    ∧ length (defaultFilterStack w') = length (defaultFilterStack w)
    ∧ (length (defaultFilterStack w) ≠ 1%nat →
       defaultFilterStack w' = defaultFilterStack w)
    ∧ (∀ root, defaultFilterStack w = [root] →
         defaultFilterStack w'
         = [FilterState.set_renderTexture root (current w)])
    ∧ ∃ state,
        statePool w' = state :: tail (statePool w)
        ∧ FilterState.renderTexture state = None
        ∧ FilterState.filters state = None.
Proof.
  intros Hd Hs Hw Hh.
  rewrite (pushWithCheck_eq host _ _ _ _ _ _ Hd Hs). simpl.
  apply Qle_bool_iff in Hw, Hh. unfold leq. rewrite Hw, Hh. simpl.
  eexists. split; [reflexivity |]. autorewrite with world.
  split; [done |]. split; [done |]. split; [done |].
  split; [by destruct (defaultFilterStack w) as [| a [| b l]] |].
  split; [by destruct (defaultFilterStack w) as [| a [| b l]] |].
  split; [by intros root -> |].
  exists (FilterState.clear
            (Mixin.stamp (fst (takeState (statePool w))) target s
               (fst (Mixin.resolveFrame host w target s)))).
  split; [| done]. by destruct (statePool w).
Qed.

Lemma C2_empty_bounds_rejected_witness :
  ∃ w',
    Mixin.pushWithCheck Pixi.host Sample.idle (Pixi.sprite 10 10 1 1)
      [0%nat] true = Some (false, w')
    ∧ log w' = log Sample.idle
    ∧ defaultFilterStack w'
      = [FilterState.set_renderTexture Pixi.root (current Sample.idle)].
Proof.
  destruct (C2_empty_bounds_rejected Pixi.host Sample.idle
              (Pixi.sprite 10 10 1 1) [0%nat] [Pixi.plain]
              (Mixin.seed 1 0 Pixi.plain))
    as (w' & Hp & Hl & _ & _ & _ & _ & Hroot & _).
  - vm_compute. reflexivity.
  - reflexivity.
  - vm_compute. discriminate.
  - vm_compute. discriminate.
  - exists w'. split; [exact Hp |]. split; [exact Hl |].
    by apply Hroot.
Defined.

(** The second revision tests the frame before it is rounded. *)
Lemma Shared_empty_bounds_rejected (host : Host) (w : World)
    (target : DisplayObject.t) (filters : list nat) (chain : list Filter.t)
    (s : Shared.Settings) (frame : Rectangle.t) (canUseBackdrop : bool) :
  deref (heap w) filters = Some chain →
  Shared.settings (useMaxPadding w) chain = Some s →
  Shared.resolveFrame host w target s = Some (frame, canUseBackdrop) →
  (Rectangle.width frame <= 1)%Q → (Rectangle.height frame <= 1)%Q →
  ∃ w',
    Shared.pushWithCheck host w target filters true = Some (false, w')
    ∧ log w' = log w ∧ heap w' = heap w
    ∧ defaultFilterStack w' = noteRoot (defaultFilterStack w) (current w).
Proof.
  intros Hd Hs Hf Hw Hh. unfold Shared.pushWithCheck.
  destruct (takeState (statePool w)) as [state pool]. rewrite Hd. simpl.
  rewrite Hs. simpl. rewrite Hf. simpl.
  apply Qle_bool_iff in Hw, Hh. unfold leq. rewrite Hw, Hh. simpl.
  eexists. split; [reflexivity |]. by autorewrite with world.
Qed.

(** ** Resolution and sample count of a region *)

(** C4, as the specification states it, fails: the resolution recorded in
    the pushed state is the minimum of the declared resolutions.  Once a
    backdrop is captured the state records the backdrop's resolution: here
    the only filter declares 1 and the state records 2, the resolution of
    the render texture the backdrop was copied from. *)
Lemma C4_counterexample :
  ∃ w1 st stack,
    Mixin.pushWithCheck Pixi.host Sample.fine (Pixi.sprite 10 10 50 50)
      [0%nat] true = Some (true, w1)
    ∧ defaultFilterStack w1 = st :: stack
    ∧ is_min 1
        (map (declaredResolution (currentResolution Sample.fine))
           [Sample.blend 1 true 10])
    ∧ ¬ (FilterState.resolution st == 1)%Q.
Proof.
  eexists _, _, _. split; [vm_compute; reflexivity |].
  split; [reflexivity |]. split.
  - split.
    + intros v Hv. apply list_elem_of_singleton in Hv as ->. vm_compute.
      discriminate.
    + exists 1%Q. split; [by apply list_elem_of_singleton | reflexivity].
  - vm_compute. discriminate.
Qed.

Section Resolution.
Context (host : Host).

(** What an accepted [pushWithCheck] leaves on the stack and in the
    log. *)
Lemma pushWithCheck_accepted w target filters check chain s w1 :
  deref (heap w) filters = Some chain →
  Mixin.settings (useMaxPadding w) (currentResolution w)
    (currentMultisample w) chain = Some s →
  Mixin.pushWithCheck host w target filters check = Some (true, w1) →
  let frame := fst (Mixin.resolveFrame host w target s) in
  let cub := snd (Mixin.resolveFrame host w target s) in
  ∃ wd backdrop st evs0 evs1 rt,
    (if cub
     then Mixin.detectBackdrop host w frame filters None None
          = Some (wd, backdrop)
     else wd = w ∧ backdrop = None)
    ∧ defaultFilterStack w1
      = st :: noteRoot (defaultFilterStack w) (current w)
    ∧ heap w1 = heap wd ∧ heap_declared (heap w) (heap wd)
    ∧ globalUniforms w1 = globalUniforms w
    ∧ log wd = log w ++ evs0 ∧ log w1 = log wd ++ evs1
    ∧ count is_copy evs0 = one_if (is_some backdrop)
    ∧ count is_copy evs1 = 0%nat
    ∧ head evs1 = Some (GetOptimalFilterTexture (Rectangle.width frame)
                          (Rectangle.height frame)
                          (FilterState.resolution st)
                          (Some (Mixin.multisample s)) rt)
    ∧ FilterState.filters st = Some filters
    ∧ FilterState.legacy st = Mixin.legacy s
    ∧ FilterState.sourceFrame st = frame
    ∧ FilterState.resolution st
      = match backdrop with
        | Some b => RenderTexture.resolution b
        | None => Mixin.resolution s
        end.
Proof.
  intros Hd Hs. rewrite (pushWithCheck_eq host _ _ _ _ _ _ Hd Hs). simpl.
  destruct (check && _ && _); [done |]. intros Hopen.
  destruct (openRegion_inv host _ _ _ _ _ _ _ _ _ _ _ Hopen)
    as (wd & backdrop & st & evs1 & rt & Hdet & _ & Hst1 & _ & Hh1 & Hgu
        & _ & Hl1 & Hhead & _ & _ & Hk1 & _ & Hfs & Hleg & Hres & _ & Hsf
        & _).
  exists wd, backdrop, st.
  destruct (snd (Mixin.resolveFrame host w target s)).
  - destruct (detectBackdrop_inv host _ _ _ _ _ _ _ Hdet)
      as (_ & Hsy & Hdecl & (evs0 & Hl0 & _ & _ & _ & Hk0) & _).
    exists evs0, evs1, rt. rewrite (system_of_uniforms _ _ Hsy) in Hgu.
    repeat split; done.
  - destruct Hdet as [-> ->]. exists [], evs1, rt.
    rewrite app_nil_r. repeat split; try done. apply heap_declared_refl.
Qed.
End Resolution.

(** C4, amended.  For a region [pushWithCheck] accepts, the chain resolves
    to the minimum of the resolutions its filters declare (an unset or zero
    resolution counting as that of the enclosing render target or
    renderer) and to the minimum of the sample counts they declare (an
    unset one counting as the enclosing one).  The state records that
    resolution unless a backdrop was captured for the region, in which case
    it records the backdrop's resolution; the working texture is requested
    with the state's resolution and the minimal sample count.  Both minima
    are the same for every permutation of the chain. *)
Theorem C4_resolution_and_samples (host : Host) (w : World)
    (target : DisplayObject.t) (filters : list nat) (check : bool)
    (chain : list Filter.t) (w1 : World) :
  deref (heap w) filters = Some chain →
  Mixin.pushWithCheck host w target filters check = Some (true, w1) →
  let cr := currentResolution w in
  let cm := currentMultisample w in
  ∃ s st stack evs,
    Mixin.settings (useMaxPadding w) cr cm chain = Some s
    ∧ is_min (Mixin.resolution s) (map (declaredResolution cr) chain)
    ∧ is_minZ (Mixin.multisample s) (map (declaredMultisample cm) chain)
    ∧ defaultFilterStack w1 = st :: stack
    ∧ log w1 = log w ++ evs
    ∧ (count is_copy evs = 0%nat →
       FilterState.resolution st = Mixin.resolution s)
    ∧ (count is_copy evs ≠ 0%nat →
       ∃ wd backdrop,
         Mixin.detectBackdrop host w (FilterState.sourceFrame st) filters
           None None = Some (wd, Some backdrop)
         ∧ FilterState.resolution st = RenderTexture.resolution backdrop)
    ∧ (∃ rt, GetOptimalFilterTexture
               (Rectangle.width (FilterState.sourceFrame st))
               (Rectangle.height (FilterState.sourceFrame st))
               (FilterState.resolution st) (Some (Mixin.multisample s)) rt
             ∈ evs)
    ∧ ∀ chain' s',
        chain ≡ₚ chain' →
        Mixin.settings (useMaxPadding w) cr cm chain' = Some s' →
        (Mixin.resolution s' == Mixin.resolution s)%Q
        ∧ Mixin.multisample s' = Mixin.multisample s.
Proof.
  intros Hd Hpush cr cm.
  destruct (pushWithCheck_reads host _ _ _ _ _ Hpush) as (chain0 & s & Hd0 & Hs).
  assert (chain0 = chain) as -> by congruence.
  destruct (settings_resolved _ _ _ _ _ Hs) as [Hres Hms _ _ _].
  destruct (pushWithCheck_accepted host _ _ _ _ _ _ _ Hd Hs Hpush)
    as (wd & backdrop & st & evs0 & evs1 & rt & Hdet & Hst & _ & _ & _ & Hl0
        & Hl1 & Hk0 & Hk1 & Hhead & _ & _ & Hsf & Hr).
  exists s, st, (noteRoot (defaultFilterStack w) (current w)), (evs0 ++ evs1).
  split; [done |]. split; [done |]. split; [done |]. split; [done |].
  split; [by rewrite Hl1, Hl0, <- app_assoc |].
  rewrite count_app, Hk0, Hk1, Nat.add_0_r.
  split; [| split; [| split]].
  - destruct backdrop; [done | by rewrite Hr].
  - destruct backdrop as [b |]; [| done]. intros _.
    destruct (snd (Mixin.resolveFrame host w target s));
      [| by destruct Hdet as [_ ?]].
    exists wd, b. by rewrite Hsf.
  - exists rt. apply elem_of_app. right. rewrite Hsf.
    destruct evs1 as [| e evs1]; [done |]. injection Hhead as ->. by left.
  - intros chain' s' Hperm Hs'.
    destruct (settings_resolved _ _ _ _ _ Hs') as [Hres' Hms' _ _ _].
    split.
    + apply (is_min_unique _ _ (map (declaredResolution cr) chain')
               (map (declaredResolution cr) chain)); [| done | done].
      by apply fmap_Permutation.
    + apply (is_minZ_unique _ _ (map (declaredMultisample cm) chain')
               (map (declaredMultisample cm) chain)); [| done | done].
      by apply fmap_Permutation.
Qed.

Lemma C4_resolution_and_samples_witness :
  ∃ w1 s st stack evs,
    Mixin.pushWithCheck Pixi.host Sample.three (Pixi.sprite 10 10 50 50)
      [0; 1; 2]%nat true = Some (true, w1)
    ∧ defaultFilterStack w1 = st :: stack
    ∧ log w1 = log Sample.three ++ evs
    ∧ is_min (Mixin.resolution s)
        (map (declaredResolution (currentResolution Sample.three))
           [Sample.blend 1 true 10; Sample.pass false 11;
            Sample.pass false 12])
    ∧ (count is_copy evs = 0%nat →
       FilterState.resolution st = Mixin.resolution s).
Proof.
  assert (Hpush : ∃ w1,
            Mixin.pushWithCheck Pixi.host Sample.three
              (Pixi.sprite 10 10 50 50) [0; 1; 2]%nat true = Some (true, w1))
    by (eexists; vm_compute; reflexivity).
  destruct Hpush as [w1 Hpush].
  assert (Hd : deref (heap Sample.three) [0; 1; 2]%nat
               = Some [Sample.blend 1 true 10; Sample.pass false 11;
                       Sample.pass false 12])
    by (vm_compute; reflexivity).
  destruct (C4_resolution_and_samples Pixi.host Sample.three
              (Pixi.sprite 10 10 50 50) [0; 1; 2]%nat true _ w1 Hd Hpush)
    as (s & st & stack & evs & _ & Hmin & _ & Hst & Hl & Hres & _).
  exists w1, s, st, stack, evs. split; [exact Hpush |].
  split; [exact Hst |]. split; [exact Hl |]. split; [exact Hmin | exact Hres].
Defined.

(** ** Legacy uniforms *)

(** C9, as the specification states it, fails: a chain without a legacy
    filter does not leave [filterClamp] alone.  The first region's only
    filter leaves [legacy] undeclared, so its [pop] makes [filterClamp] the
    array of [inputClamp]; the second region's only filter declares
    [legacy] false, and its [pop], writing [inputClamp] in place, changes
    the contents of [filterClamp] with it. *)
Lemma C9_counterexample :
  existsb declaredLegacy [Pixi.plain] = false
  ∧ ∃ before after,
      (w2 ← cycle Legacy.world (Pixi.sprite 10 10 50 50) [0%nat];
       w4 ← cycle w2 (Pixi.sprite 10 10 20 20) [1%nat];
       Some (GlobalUniforms.read_filterClamp (globalUniforms w2),
             GlobalUniforms.read_filterClamp (globalUniforms w4)))
      = Some (before, after)
      ∧ before ≠ after.
Proof.
  split; [reflexivity |]. eexists _, _.
  split; [vm_compute; reflexivity | discriminate].
Qed.

(** C9, amended.  Over one cycle, [pop] writes [filterArea] if some filter
    of the chain declares [legacy] true or leaves it undeclared, and
    leaves it as it was otherwise.  In the first case it also makes
    [filterClamp] the very array of [inputClamp].  In the second case it
    does not assign [filterClamp]: an array of its own keeps its contents,
    but once an earlier [pop] has made it the array of [inputClamp] its
    contents are those [pop] has just written to [inputClamp]. *)
Theorem C9_legacy_uniforms (host : Host) (w : World)
    (target : DisplayObject.t) (filters : list nat) (check : bool)
    (chain : list Filter.t) (w1 w2 : World) :
  deref (heap w) filters = Some chain →
  Mixin.pushWithCheck host w target filters check = Some (true, w1) →
  Mixin.pop host w1 = Some w2 →
  ∃ st stack,
    defaultFilterStack w1 = st :: stack
    ∧ if existsb declaredLegacy chain
      then GlobalUniforms.filterArea (globalUniforms w2)
           = (Rectangle.width (FilterState.destinationFrame st),
              Rectangle.height (FilterState.destinationFrame st),
              Rectangle.x (FilterState.sourceFrame st),
              Rectangle.y (FilterState.sourceFrame st))
           ∧ GlobalUniforms.filterClamp (globalUniforms w2)
             = GlobalUniforms.InputClamp
           ∧ GlobalUniforms.read_filterClamp (globalUniforms w2)
             = GlobalUniforms.inputClamp (globalUniforms w2)
      else GlobalUniforms.filterArea (globalUniforms w2)
           = GlobalUniforms.filterArea (globalUniforms w)
           ∧ GlobalUniforms.filterClamp (globalUniforms w2)
             = GlobalUniforms.filterClamp (globalUniforms w)
           ∧ GlobalUniforms.read_filterClamp (globalUniforms w2)
             = match GlobalUniforms.filterClamp (globalUniforms w) with
               | GlobalUniforms.Own v => v
               | GlobalUniforms.InputClamp =>
                   GlobalUniforms.inputClamp (globalUniforms w2)
               end.
Proof.
  intros Hd Hpush Hpop.
  destruct (pushWithCheck_reads host _ _ _ _ _ Hpush) as (chain0 & s & Hd0 & Hs).
  assert (chain0 = chain) as -> by congruence.
  destruct (settings_resolved _ _ _ _ _ Hs) as [_ _ _ _ Hleg].
  destruct (pushWithCheck_accepted host _ _ _ _ _ _ _ Hd Hs Hpush)
    as (wd & backdrop & st & evs0 & evs1 & rt & _ & Hst & _ & _ & Hgu & _ & _
        & _ & _ & _ & _ & Hl & _).
  destruct (pop_inv host _ _ Hpop)
    as (st' & stack' & filters' & filterLen & Hst' & _ & _ & _ & Hgu2 & _).
  assert (st' = st) as -> by congruence.
  exists st, (noteRoot (defaultFilterStack w) (current w)). split; [done |].
  rewrite Hgu2, Hgu, <- Hleg, <- Hl.
  unfold Mixin.writeUniforms, GlobalUniforms.read_filterClamp.
  destruct (FilterState.legacy st); simpl; [done |].
  split; [done |]. split; [done |].
  by destruct (GlobalUniforms.filterClamp (globalUniforms w)).
Qed.

Lemma C9_legacy_uniforms_witness :
  ∃ w1 w2,
    Mixin.pushWithCheck Pixi.host Sample.three (Pixi.sprite 10 10 50 50)
      [0; 1; 2]%nat true = Some (true, w1)
    ∧ Mixin.pop Pixi.host w1 = Some w2
    ∧ GlobalUniforms.filterArea (globalUniforms w2)
      = GlobalUniforms.filterArea (globalUniforms Sample.three)
    ∧ GlobalUniforms.filterClamp (globalUniforms w2)
      = GlobalUniforms.filterClamp (globalUniforms Sample.three).
Proof.
  assert (Hpush : ∃ w1,
            Mixin.pushWithCheck Pixi.host Sample.three
              (Pixi.sprite 10 10 50 50) [0; 1; 2]%nat true = Some (true, w1)
            ∧ ∃ w2, Mixin.pop Pixi.host w1 = Some w2)
    by (eexists; split; [vm_compute; reflexivity
                        | eexists; vm_compute; reflexivity]).
  destruct Hpush as (w1 & Hpush & w2 & Hpop).
  assert (Hd : deref (heap Sample.three) [0; 1; 2]%nat
               = Some [Sample.blend 1 true 10; Sample.pass false 11;
                       Sample.pass false 12])
    by (vm_compute; reflexivity).
  destruct (C9_legacy_uniforms Pixi.host Sample.three
              (Pixi.sprite 10 10 50 50) [0; 1; 2]%nat true _ w1 w2 Hd Hpush
              Hpop) as (st & stack & _ & Harea & Hclamp & _).
  exists w1, w2. split; [exact Hpush |]. split; [exact Hpop |].
  split; [exact Harea | exact Hclamp].
Defined.

(** ** Multisampled targets *)

Section Multisample.
Context (host : Host).

(** With every filter of the chain auto-fit, a multisampled target does
    rule the backdrop out. *)
Lemma multisample_rules_out_backdrop w target s :
  currentMultisample w ≠ 0%Z → Mixin.autoFit s = true →
  snd (Mixin.resolveFrame host w target s) = false.
Proof.
  intros Hms Hfit. unfold Mixin.resolveFrame. rewrite Hfit. simpl.
  by apply Z.eqb_neq.
Qed.

(** Without auto-fit the sample count is not consulted: containment of
    the padded frame in the visible frame decides alone. *)
Lemma no_autoFit_forgets_multisample w target s :
  Mixin.autoFit s = false →
  snd (Mixin.resolveFrame host w target s)
  = containsRect (sourceFrame w)
      (pad host
         (nullish (DisplayObject.filterArea target)
            (DisplayObject.getBounds target)) (Mixin.padding s)).
Proof. intros Hfit. unfold Mixin.resolveFrame. by rewrite Hfit. Qed.
End Multisample.

(** C10 fails on the code.  The render texture bound has four samples; the
    chain's only filter names a backdrop uniform and opts out of auto-fit;
    the source frame lies inside the visible frame.  [pushWithCheck]
    captures a backdrop all the same: [prepareBackdrop] copies once and the
    filter comes out marked backdrop-active, its uniform holding the
    captured texture. *)
Theorem C10_backdrop_captured_under_multisample :
  currentMultisample Sample.multisampled = 4%Z
  ∧ ∃ w1 captured,
      Mixin.pushWithCheck Pixi.host Sample.multisampled
        (Pixi.sprite 10 10 50 50) [0%nat] true = Some (true, w1)
      ∧ List.filter is_copy (log w1) = [CopyTexSubImage2D 10 10 50 50]
      ∧ active (heap w1) 0 = true
      ∧ backdropUniform (heap w1) 0 = Some (Some (UTexture captured)).
Proof.
  split; [reflexivity |]. eexists _, _.
  split; [vm_compute; reflexivity |].
  split; [vm_compute; reflexivity |]. split; vm_compute; reflexivity.
Qed.

(** ** A trivial last filter *)

(** C3, as the specification states it, fails in its last part: the
    trivial filter's state object ends up attached to the filter that
    rendered last.  The filter at address 1 renders last and carries the
    trivial filter's state (12) while it does; once [pop] is over it
    carries its own state (11) again. *)
Lemma C3_counterexample :
  ∃ w1 w2 f1,
    Mixin.pushWithCheck Pixi.host Sample.trivialLast (Pixi.sprite 10 10 50 50)
      [0; 1; 2]%nat true = Some (true, w1)
    ∧ Mixin.pop Pixi.host w1 = Some w2
    ∧ passes (log w2) = [(0%nat, Some 10%nat); (1%nat, Some 12%nat)]
    ∧ heap w2 !! 1%nat = Some f1
    ∧ Filter.state f1 = Some 11%nat
    ∧ Filter.state f1 ≠ Filter.state (Sample.pass true 12).
Proof.
  eexists _, _, _. split; [vm_compute; reflexivity |].
  split; [vm_compute; reflexivity |]. split; [vm_compute; reflexivity |].
  split; [vm_compute; reflexivity |]. split; [reflexivity | discriminate].
Qed.

Section Trivial.
Context (host : Host).

(** [runChain] reads the chain up to [filterLen] only. *)
Lemma runChain_take w state lastState rt filters filterLen :
  1 ≤ filterLen →
  Mixin.runChain host w state lastState rt filters filterLen
  = Mixin.runChain host w state lastState rt (take filterLen filters)
      filterLen.
Proof.
  intros Hlo. unfold Mixin.runChain.
  destruct (Nat.eqb filterLen 1) eqn:Hone.
  - apply Nat.eqb_eq in Hone as ->. by destruct filters.
  - rewrite take_take, Nat.min_l by lia.
    by rewrite (lookup_take_lt filters filterLen (filterLen - 1)) by lia.
Qed.

Lemma passes_app l l' : passes (l ++ l') = passes l ++ passes l'.
Proof. apply omap_app. Qed.

Lemma passes_none evs : count is_apply evs = 0%nat → passes evs = [].
Proof.
  induction evs as [| e evs IH]; [done |]. rewrite count_cons.
  destruct e; simpl; try done; intros H; by apply IH.
Qed.

Lemma same_declared_state f f' :
  same_declared f f' → Filter.state f' = Filter.state f.
Proof. intros ->. by destruct f. Qed.
End Trivial.

Opaque Mixin.releaseBackdrop.

(** C3, amended.  For a chain of three filters whose last one is marked
    trivial, [pop] applies two filters, the first and the second of the
    chain, and acquires one texture, as [runChain] does for the chain of
    the first two filters alone.  During both passes the second filter
    carries the trivial filter's state object.  Once the chain has run the
    second filter gets its own state object back, if it had one. *)
Theorem C3_trivial_last_filter (host : Host) (w : World)
    (state lastState : FilterState.t) (stack : list FilterState.t)
    (rt : RenderTexture.t) (r0 r1 r2 : nat) (f0 f1 f2 : Filter.t) :
  defaultFilterStack w = state :: lastState :: stack →
  FilterState.filters state = Some [r0; r1; r2] →
  FilterState.renderTexture state = Some rt →
  heap w !! r0 = Some f0 → heap w !! r1 = Some f1 → heap w !! r2 = Some f2 →
  Filter.trivial f2 = true →
  ∃ w' evs f1',
    Mixin.pop host w = Some w' ∧ log w' = log w ++ evs
    ∧ passes evs
      = [(r0, if decide (r0 = r1) then Filter.state f2 else Filter.state f0);
         (r1, Filter.state f2)]
    ∧ count is_apply evs = 2%nat ∧ count is_acquire evs = 1%nat
    ∧ heap w' !! r1 = Some f1'
    ∧ Filter.state f1'
      = match Filter.state f1 with
        | Some own => Some own
        | None => Filter.state f2
        end
    ∧ ∀ wx, Mixin.runChain host wx state lastState rt [r0; r1; r2] 2
            = Mixin.runChain host wx state lastState rt [r0; r1] 2.
Proof.
  intros Hst Hfs Hrt H0 H1 H2 Htriv. unfold Mixin.pop.
  rewrite Hst, Hfs. simpl. rewrite Hrt. simpl.
  set (w0 := if Z.ltb 1 (RenderTexture.framebuffer_multisample rt)
             then _ else _).
  assert (Hw0 : heap w0 = heap w
                ∧ ∃ evs0, log w0 = log w ++ evs0
                          ∧ count is_apply evs0 = 0%nat
                          ∧ count is_acquire evs0 = 0%nat).
  { subst w0. destruct (Z.ltb 1 _); autorewrite with world.
    - split; [done |]. eexists [_; _]. by rewrite <- app_assoc.
    - split; [done |]. by eexists [_]. }
  clearbody w0. destruct Hw0 as (Hh0 & evs0 & Hl0 & Hp0 & Ha0).
  set (m := <[r1 := Filter.set_state f1 (Filter.state f2)]> (heap w)).
  assert (Hskip : Mixin.skipTrivial (heap w0) [r0; r1; r2]
                  = Some (m, 2%nat, Filter.state f1)).
  { unfold Mixin.skipTrivial. simpl. rewrite Hh0, H2. simpl.
    rewrite Htriv, H1. done. }
  rewrite Hskip. simpl.
  assert (Hm1 : m !! r1 = Some (Filter.set_state f1 (Filter.state f2)))
    by (subst m; apply lookup_insert_eq).
  assert (Hm0 : ∃ g0, m !! r0 = Some g0
                      ∧ Filter.state g0
                        = if decide (r0 = r1) then Filter.state f2
                          else Filter.state f0).
  { destruct (decide (r0 = r1)) as [-> | Hne].
    - eexists. split; [exact Hm1 | by destruct f1].
    - exists f0. split; [| done]. subst m. by rewrite lookup_insert_ne. }
  destruct Hm0 as (g0 & Hm0 & Hg0).
  unfold Mixin.runChain. simpl. unfold Mixin.apply.
  autorewrite with world. rewrite Hm0. simpl.
  autorewrite with world. rewrite Hm1. simpl.
  unfold Mixin.restoreState. simpl.
  set (w1 := emit (emit _ _) _).
  assert (Hw1 : heap w1 = m) by (subst w1; by autorewrite with world).
  set (w2 := match Filter.state f1 with
             | Some _ => _
             | None => Some w1
             end).
  assert (Hw2 : ∃ w2' g1, w2 = Some w2' ∧ log w2' = log w1
                  ∧ heap w2' !! r1 = Some g1
                  ∧ (∀ r, is_Some (heap w !! r) → is_Some (heap w2' !! r))
                  ∧ Filter.state g1
                    = match Filter.state f1 with
                      | Some own => Some own
                      | None => Filter.state f2
                      end).
  { subst w2. destruct (Filter.state f1) as [own |] eqn:Hown.
    - rewrite Hw1, Hm1. simpl. eexists _, _. split; [reflexivity |].
      autorewrite with world. split; [done |].
      split; [apply lookup_insert_eq |]. split; [| done].
      intros r Hr. destruct (decide (r = r1)) as [-> | Hne].
      + rewrite lookup_insert_eq. by eexists.
      + rewrite lookup_insert_ne by done. subst m.
        by rewrite lookup_insert_ne.
    - eexists w1, _. split; [done |]. split; [done |].
      rewrite Hw1. split; [exact Hm1 |]. split; [| by destruct f1].
      intros r Hr. subst m. destruct (decide (r = r1)) as [-> | Hne].
      + rewrite lookup_insert_eq. by eexists.
      + by rewrite lookup_insert_ne. }
  destruct Hw2 as (w2' & g1 & -> & Hl2 & Hg1 & Hdom & Hs1). simpl.
  destruct (releaseBackdrop_total [r0; r1; r2] w2' false) as [w3 Hrel].
  { intros r Hr. apply Hdom.
    apply elem_of_cons in Hr as [-> | Hr]; [by eexists |].
    apply elem_of_cons in Hr as [-> | Hr]; [by eexists |].
    apply list_elem_of_singleton in Hr as ->. by eexists. }
  rewrite Hrel. simpl.
  destruct (releaseBackdrop_inv _ _ _ _ Hrel)
    as (_ & _ & Hd3 & _ & _ & evs3 & Hl3 & Ha3 & _ & Hp3 & _).
  destruct (heap_declared_lookup _ _ _ _ Hd3 Hg1) as (f1' & Hf1' & Hsame).
  eexists _, _, f1'. split; [reflexivity |]. autorewrite with world.
  rewrite Hl3, Hl2. subst w1. autorewrite with world. rewrite Hl0.
  split; [rewrite <- !app_assoc; reflexivity |].
  split.
  { rewrite !passes_app, (passes_none _ Hp0), (passes_none _ Hp3). simpl.
    rewrite Hg0. by destruct f1. }
  rewrite !count_app, Hp0, Hp3, Ha0, Ha3. simpl.
  split; [done |]. split; [done |]. split; [exact Hf1' |].
  split; [by rewrite (same_declared_state _ _ Hsame) |].
  intros wx. reflexivity.
Qed.

Transparent Mixin.releaseBackdrop.

(** The second revision handles a trivial last filter with the same
    code. *)
Lemma Shared_skipTrivial (m : gmap nat Filter.t) (filters : list nat) :
  Shared.skipTrivial m filters = Mixin.skipTrivial m filters.
Proof. reflexivity. Qed.

Lemma Shared_restoreState (w : World) (filters : list nat) (filterLen : nat)
    (tmpState : option nat) :
  Shared.restoreState w filters filterLen tmpState
  = Mixin.restoreState w filters filterLen tmpState.
Proof. reflexivity. Qed.

Lemma C3_trivial_last_filter_witness :
  ∃ w' evs f1',
    Mixin.pop Pixi.host Opened.world = Some w'
    ∧ log w' = log Opened.world ++ evs
    ∧ passes evs = [(0%nat, Some 10%nat); (1%nat, Some 12%nat)]
    ∧ count is_acquire evs = 1%nat
    ∧ heap w' !! 1%nat = Some f1' ∧ Filter.state f1' = Some 11%nat.
Proof.
  destruct (C3_trivial_last_filter Pixi.host Opened.world Opened.state
              Pixi.root [] Opened.texture 0 1 2 (Sample.pass false 10)
              (Sample.pass false 11) (Sample.pass true 12))
    as (w' & evs & f1' & Hpop & Hl & Hp & _ & Ha & Hf1 & Hs & _);
    try (vm_compute; reflexivity).
  exists w', evs, f1'. split; [exact Hpop |]. split; [exact Hl |].
  split; [exact Hp |]. split; [exact Ha |]. split; [exact Hf1 | exact Hs].
Defined.

(** ** No backdrop available *)

Lemma heap_but_state_lookup_inv m m' r f' :
  heap_but_state m m' → m' !! r = Some f' →
  ∃ f, m !! r = Some f ∧ same_but_state f f'.
Proof.
  intros H Hr. specialize (H r). rewrite Hr in H. inversion H; subst. eauto.
Qed.

(** The second revision leaves the uniform alone before the pass and sets
    it to null after it; with no backdrop on the state [pop] returns no
    backdrop texture. *)
Lemma Shared_applyFilter_without_backdrop (w : World) (state : FilterState.t)
    (r : nat) (f : Filter.t) (n : string) (input : RenderTexture.t)
    (output : option RenderTexture.t) (clearMode : CLEAR_MODES) :
  heap w !! r = Some f →
  truthy_name (Filter.backdropUniformName f) = Some n →
  FilterState.backdrop state = None →
  ∃ this w',
    Shared.applyFilter w state r input output clearMode = Some w'
    ∧ log w' = log w ++ [Apply r this input output clearMode]
    ∧ Filter.uniforms this !! n = Filter.uniforms f !! n
    ∧ backdropUniform (heap w') r = Some (Some UNull).
Proof.
  intros Hr Hn Hb. unfold Shared.applyFilter. rewrite Hr. simpl.
  rewrite Hn, Hb.
  eexists _, _. split; [reflexivity |]. autorewrite with world.
  split; [done |]. split.
  - destruct (FilterState.backdropFlip state) as [fl |]; [| done].
    destruct (uniform_truthy _); [| done]. simpl.
    rewrite lookup_insert_ne; [done | apply flip_slot_ne].
  - unfold backdropUniform. rewrite lookup_insert_eq. simpl. rewrite Hn.
    simpl. by rewrite lookup_insert_eq.
Qed.

Lemma Shared_releaseBackdrop_without_backdrop (w : World)
    (state : FilterState.t) :
  FilterState.backdrop state = None →
  Shared.releaseBackdrop w state = (w, state).
Proof. unfold Shared.releaseBackdrop. by intros ->. Qed.

(** C7, as the specification states it, fails: the backdrop uniform is not
    skipped.  The filter's uniform holds a texture when the region is
    opened on the main framebuffer, cleared opaque; [prepareBackdrop]
    returns null, and [pushWithCheck] assigns that null to the uniform,
    over the texture. *)
Lemma C7_counterexample :
  unreadable Preset.world = true
  ∧ backdropUniform (heap Preset.world) 0
    = Some (Some (UTexture Preset.texture))
  ∧ ∃ w1,
      Mixin.pushWithCheck Pixi.host Preset.world (Pixi.sprite 10 10 50 50)
        [0%nat] true = Some (true, w1)
      ∧ backdropUniform (heap w1) 0 = Some (Some UNull).
Proof.
  split; [reflexivity |]. split; [vm_compute; reflexivity |].
  eexists. split; vm_compute; reflexivity.
Qed.

(** C7, amended.  Let the main framebuffer be bound and cleared opaque, so
    that [prepareBackdrop] returns null.  Then [pushWithCheck] returns
    without throwing, copies nothing, acquires the working texture only,
    and marks no filter backdrop-active.  Where the region may use a
    backdrop, every filter of the chain that names a backdrop uniform has
    null assigned to it, whatever it held, and holds null after
    [pushWithCheck] and at its pass in [pop]; and [pop] returns nothing
    beyond the textures of the chain itself, unless a filter of the chain
    was marked backdrop-active before the region was opened.  In the
    second revision, with no backdrop on the state, [applyFilter] hands
    the filter over with the uniform as it found it, not assigned, and
    [pop] returns no backdrop. *)
Theorem C7_no_backdrop_available (host : Host) (w : World)
    (target : DisplayObject.t) (filters : list nat) (check : bool)
    (chain : list Filter.t) (s : Mixin.Settings) :
  deref (heap w) filters = Some chain →
  Mixin.settings (useMaxPadding w) (currentResolution w)
    (currentMultisample w) chain = Some s →
  current w = None → (1 <= background_alpha w)%Q →
  ∃ ok w1,
    Mixin.pushWithCheck host w target filters check = Some (ok, w1)
    ∧ count is_copy (log w1) = count is_copy (log w)
    ∧ count is_acquire (log w1) = (count is_acquire (log w) + one_if ok)%nat
    ∧ (∀ q, active (heap w1) q = active (heap w) q)
    ∧ (ok = true → snd (Mixin.resolveFrame host w target s) = true →
       ∀ r, r ∈ filters → is_some (backdropUniform (heap w) r) = true →
            backdropUniform (heap w1) r = Some (Some UNull))
    ∧ (ok = true → ∀ w2, Mixin.pop host w1 = Some w2 →
       ∃ evs, log w2 = log w1 ++ evs
         ∧ count is_release evs
           = (count is_acquire evs + 1
              + one_if (anyActive (heap w) filters))%nat
         ∧ (snd (Mixin.resolveFrame host w target s) = true →
            Forall backdrop_unset evs))
    ∧ ∀ wx state r f n input output clearMode,
        heap wx !! r = Some f →
        truthy_name (Filter.backdropUniformName f) = Some n →
        FilterState.backdrop state = None →
        ∃ this wx',
          Shared.applyFilter wx state r input output clearMode = Some wx'
          ∧ log wx' = log wx ++ [Apply r this input output clearMode]
          ∧ Filter.uniforms this !! n = Filter.uniforms f !! n
          ∧ Shared.releaseBackdrop wx' state = (wx', state).
Proof.
  intros Hd Hs Hc Ha.
  assert (Hun : unreadable w = true) by (by apply unreadable_spec).
  assert (Hne : filters ≠ []).
  { intros ->. apply deref_length in Hd.
    destruct chain; [done | discriminate]. }
  pose proof (deref_is_Some _ _ _ Hd) as Hin.
  rewrite (pushWithCheck_eq host _ _ _ _ _ _ Hd Hs). simpl.
  set (frame := fst (Mixin.resolveFrame host w target s)).
  set (cub := snd (Mixin.resolveFrame host w target s)).
  destruct (check && leq (Rectangle.width frame) 1
            && leq (Rectangle.height frame) 1).
  { eexists false, _. split; [reflexivity |]. autorewrite with world.
    simpl. rewrite Nat.add_0_r. repeat split; try done.
    intros wx state r f n input output clearMode Hr Hn Hb.
    destruct (Shared_applyFilter_without_backdrop wx state r f n input output
                clearMode Hr Hn Hb) as (this & wx' & Hap & Hl & Hu & _).
    exists this, wx'. repeat split; try done.
    by apply Shared_releaseBackdrop_without_backdrop. }
  match goal with
  | |- context [Mixin.openRegion host w ?st ?sk ?pl target filters s frame cub] =>
      destruct (openRegion_total host w st sk pl target filters s frame cub
                  Hne Hin) as [[ok w1] Hopen]
  end.
  exists ok, w1. split; [exact Hopen |].
  destruct (openRegion_inv host _ _ _ _ _ _ _ _ _ _ _ Hopen)
    as (wd & backdrop & st & evs1 & rt & Hdet & -> & Hst1 & _ & Hh1 & _ & _
        & Hl1 & _ & Ha1 & _ & Hk1 & _ & Hfs & _).
  assert (Hloop : heap_declared (heap w) (heap wd)
                  ∧ (∀ q, active (heap wd) q = active (heap w) q)
                  ∧ (cub = true → ∀ r, r ∈ filters →
                       is_some (backdropUniform (heap w) r) = true →
                       backdropUniform (heap wd) r = Some (Some UNull))
                  ∧ ∃ evs0, log wd = log w ++ evs0
                      ∧ count is_acquire evs0 = 0%nat
                      ∧ count is_copy evs0 = 0%nat).
  { destruct cub.
    - destruct (detectBackdrop_inv host _ _ _ _ _ _ _ Hdet)
        as (_ & _ & Hdecl & (evs0 & Hl0 & _ & _ & Ha0 & Hk0) & _ & Hsame & _
            & Hnull & _ & _ & Hcap & _).
      assert (backdrop = None) as ->.
      { specialize (Hcap eq_refl). rewrite Hun, andb_false_r in Hcap.
        by destruct backdrop. }
      split; [exact Hdecl |]. split; [by apply Hsame |].
      split; [intros _ r Hr Hw; apply (Hnull eq_refl r); [by left | done] |].
      by exists evs0.
    - destruct Hdet as [-> ->]. split; [apply heap_declared_refl |].
      split; [done |]. split; [done |]. exists []. by rewrite app_nil_r. }
  destruct Hloop as (Hdecl & Hsame & Hnull & evs0 & Hl0 & Ha0 & Hk0).
  rewrite Hl1, Hl0, !count_app, Ha0, Ha1, Hk0, Hk1, Hh1. simpl.
  split; [lia |]. split; [lia |]. split; [exact Hsame |].
  split; [intros _; exact Hnull |].
  split.
  2: { intros wx state r f n input output clearMode Hr Hn Hb.
       destruct (Shared_applyFilter_without_backdrop wx state r f n input
                   output clearMode Hr Hn Hb) as (this & wx' & Hap & Hl & Hu & _).
       exists this, wx'. repeat split; try done.
       by apply Shared_releaseBackdrop_without_backdrop. }
  intros _ w2 Hpop.
  destruct (pop_inv host _ _ Hpop)
    as (st' & stack' & filters' & filterLen & Hst' & Hfs' & _ & _ & _ & _ & _
        & _ & _ & _ & _ & evs2 & Hl2 & _ & _ & Hre2 & _ & m & tmpState & Hskip
        & HF).
  assert (st' = st) as -> by congruence.
  assert (filters' = filters) as -> by congruence.
  exists evs2. split; [by rewrite Hl2, Hl1, Hl0 |].
  split.
  { rewrite Hre2, Hh1. f_equal. f_equal. by apply anyActive_ext. }
  intros Hcub. destruct (skipTrivial_inv _ _ _ _ _ Hskip) as (Hbs & _).
  eapply Forall_impl; [exact HF |].
  intros [] Hev; try done. destruct Hev as [Hr Hm]. intros n Hn.
  destruct (heap_but_state_lookup_inv _ _ _ _ Hbs Hm) as (f' & Hf' & Hsb).
  rewrite Hh1 in Hf'.
  assert (Hname : Filter.backdropUniformName f'
                  = Filter.backdropUniformName this)
    by (rewrite Hsb; by destruct f').
  assert (Huni : Filter.uniforms f' = Filter.uniforms this)
    by (rewrite Hsb; by destruct f').
  assert (Hw : is_some (backdropUniform (heap wd) filter) = true).
  { unfold backdropUniform. rewrite Hf'. simpl. by rewrite Hname, Hn. }
  rewrite (wants_declared _ _ filter Hdecl) in Hw.
  specialize (Hnull Hcub filter Hr Hw). unfold backdropUniform in Hnull.
  rewrite Hf' in Hnull. simpl in Hnull. rewrite Hname, Hn in Hnull.
  simpl in Hnull. rewrite <- Huni. congruence.
Qed.

Lemma C7_no_backdrop_available_witness :
  ∃ ok w1,
    Mixin.pushWithCheck Pixi.host Sample.opaque (Pixi.sprite 10 10 50 50)
      [0%nat] true = Some (ok, w1)
    ∧ count is_copy (log w1) = count is_copy (log Sample.opaque)
    ∧ (∀ q, active (heap w1) q = active (heap Sample.opaque) q)
    ∧ (ok = true → backdropUniform (heap w1) 0 = Some (Some UNull)).
Proof.
  destruct (C7_no_backdrop_available Pixi.host Sample.opaque
              (Pixi.sprite 10 10 50 50) [0%nat] true
              [Sample.blend 1 true 10] (Mixin.seed 1 0 (Sample.blend 1 true 10)))
    as (ok & w1 & Hpush & Hk & _ & Hact & Hnull & _ & _);
    [vm_compute; reflexivity | vm_compute; reflexivity | reflexivity
    | vm_compute; discriminate |].
  exists ok, w1. split; [exact Hpush |]. split; [exact Hk |].
  split; [exact Hact |]. intros Hok.
  apply (Hnull Hok); [vm_compute; reflexivity | | ].
  - by left.
  - vm_compute. reflexivity.
Defined.


(** * Further properties of the pass manager *)

(** ** When [pushWithCheck] returns, and what *)

Lemma deref_total (m : gmap nat Filter.t) filters :
  (∀ r, r ∈ filters → is_Some (m !! r)) → is_Some (deref m filters).
Proof.
  unfold deref. induction filters as [| r rest IH]; intros Hin.
  - by eexists.
  - destruct (Hin r) as [f Hf]; [by left |].
    destruct IH as [chain Hc]; [intros q Hq; apply Hin; by right |].
    exists (f :: chain). apply mapM_Some. constructor; [done |].
    by apply mapM_Some.
Qed.

(** X1. [pushWithCheck] returns, rather than throws, exactly when the chain
    is not empty and every one of its filters exists: an empty [filters]
    array fails at [filters[0]], a hole in it at the first read of the
    missing filter.  The calls into the host are taken to return. *)
Theorem pushWithCheck_returns (host : Host) (w : World)
    (target : DisplayObject.t) (filters : list nat) (check : bool) :
  is_Some (Mixin.pushWithCheck host w target filters check)
  ↔ filters ≠ [] ∧ ∀ r, r ∈ filters → is_Some (heap w !! r).
Proof.
  split.
  - intros [res Hpush].
    destruct (pushWithCheck_reads host _ _ _ _ _ Hpush) as (chain & s & Hd & Hs).
    split; [| by eapply deref_is_Some].
    intros ->. apply deref_length in Hd. by destruct chain.
  - intros [Hne Hin]. destruct (deref_total _ _ Hin) as [chain Hd].
    destruct (deref_nonempty _ _ _ Hd Hne) as (f0 & rest & ->).
    destruct (settings_total (useMaxPadding w) (currentResolution w)
                (currentMultisample w) f0 rest) as [s Hs].
    rewrite (pushWithCheck_eq host _ _ _ _ _ _ Hd Hs). simpl.
    destruct (check && _ && _); [by eexists |].
    by apply openRegion_total.
Qed.

(** X2. The verdict of [pushWithCheck] is decided by the empty-bounds test
    alone: it returns false exactly when the check was requested and the
    rounded source frame is at most 1 wide and at most 1 high.  An accepted
    region adds one entry to the stack and takes one state from the pool
    (if the pool has one); a rejected one leaves the stack's length and
    returns the state to the pool. *)
Theorem pushWithCheck_verdict (host : Host) (w : World)
    (target : DisplayObject.t) (filters : list nat) (check : bool)
    (chain : list Filter.t) (s : Mixin.Settings) (ok : bool) (w1 : World) :
  deref (heap w) filters = Some chain →
  Mixin.settings (useMaxPadding w) (currentResolution w)
    (currentMultisample w) chain = Some s →
  Mixin.pushWithCheck host w target filters check = Some (ok, w1) →
  let frame := fst (Mixin.resolveFrame host w target s) in
  ok = negb (check && leq (Rectangle.width frame) 1
             && leq (Rectangle.height frame) 1)
  ∧ length (defaultFilterStack w1)
    = (length (defaultFilterStack w) + one_if ok)%nat
  ∧ length (statePool w1)
    = if ok then (length (statePool w) - 1)%nat
      else Nat.max 1 (length (statePool w)).
Proof.
  intros Hd Hs. rewrite (pushWithCheck_eq host _ _ _ _ _ _ Hd Hs). simpl.
  assert (Hroot : length (noteRoot (defaultFilterStack w) (current w))
                  = length (defaultFilterStack w))
    by (by destruct (defaultFilterStack w) as [| a [| b l]]).
  destruct (check && _ && _).
  - intros [= <- <-]. autorewrite with world. simpl.
    split; [done |]. split; [lia |]. destruct (statePool w); simpl; lia.
  - intros Hopen.
    destruct (openRegion_inv host _ _ _ _ _ _ _ _ _ _ _ Hopen)
      as (wd & backdrop & st & evs1 & rt & _ & -> & Hst & Hpool & _).
    rewrite Hst, Hpool. simpl. split; [done |]. split; [lia |].
    destruct (statePool w); simpl; lia.
Qed.

Lemma pushWithCheck_verdict_witness :
  ∃ w1,
    Mixin.pushWithCheck Pixi.host Sample.idle (Pixi.sprite 10 10 1 1)
      [0%nat] true = Some (false, w1)
    ∧ length (defaultFilterStack w1) = 1%nat
    ∧ length (statePool w1) = 1%nat.
Proof.
  assert (Hpush : ∃ w1,
            Mixin.pushWithCheck Pixi.host Sample.idle (Pixi.sprite 10 10 1 1)
              [0%nat] true = Some (false, w1))
    by (eexists; vm_compute; reflexivity).
  destruct Hpush as [w1 Hpush].
  assert (Hd : deref (heap Sample.idle) [0%nat] = Some [Pixi.plain])
    by (vm_compute; reflexivity).
  destruct (pushWithCheck_verdict Pixi.host Sample.idle
              (Pixi.sprite 10 10 1 1) [0%nat] true [Pixi.plain]
              (Mixin.seed 1 0 Pixi.plain) false w1 Hd eq_refl Hpush)
    as (_ & Hstack & Hpool).
  exists w1. split; [exact Hpush |]. split; [exact Hstack | exact Hpool].
Defined.

Lemma Shared_openRegion_accepts (host : Host) w state stack pool target
    filters s frame cub ok w' :
  Shared.openRegion host w state stack pool target filters s frame cub
  = Some (ok, w') →
  ok = true ∧ ∃ st, defaultFilterStack w' = st :: stack ∧ statePool w' = pool.
Proof.
  unfold Shared.openRegion. intros H.
  match type of H with
  | context [if cub then ?d else ?e] =>
      destruct (if cub then d else e) as [[[w1 backdrop] backdropFlip] |];
        [| done]
  end. simpl in H.
  destruct (last filters) as [rl |]; [| done]. simpl in H.
  match type of H with
  | context [heap ?w3 !! rl] => destruct (heap w3 !! rl) as [fl |]; [| done]
  end. simpl in H.
  destruct (Filter.clearColor fl) as [[[[cr cg] cb] ca] |];
    injection H as <- <-; (split; [done |]); eexists;
    by autorewrite with world.
Qed.

(** X3. [push] never rejects a region: it calls [pushWithCheck] with the
    empty-bounds check off, so whenever it returns it returns true and the
    stack is one entry longer, however small the frame.  Both revisions. *)
Theorem push_never_rejects (host : Host) (w : World)
    (target : DisplayObject.t) (filters : list nat) :
  (∀ ok w1, Mixin.push host w target filters = Some (ok, w1) →
     ok = true
     ∧ length (defaultFilterStack w1) = S (length (defaultFilterStack w)))
  ∧ (∀ ok w1, Shared.push host w target filters = Some (ok, w1) →
       ok = true
       ∧ length (defaultFilterStack w1) = S (length (defaultFilterStack w))).
Proof.
  assert (Hroot : length (noteRoot (defaultFilterStack w) (current w))
                  = length (defaultFilterStack w))
    by (by destruct (defaultFilterStack w) as [| a [| b l]]).
  split; intros ok w1 Hpush.
  - unfold Mixin.push in Hpush.
    destruct (pushWithCheck_reads host _ _ _ _ _ Hpush) as (chain & s & Hd & Hs).
    rewrite (pushWithCheck_eq host _ _ _ _ _ _ Hd Hs) in Hpush. simpl in Hpush.
    destruct (openRegion_inv host _ _ _ _ _ _ _ _ _ _ _ Hpush)
      as (wd & backdrop & st & evs1 & rt & _ & -> & Hst & _).
    split; [done |]. rewrite Hst. simpl. by rewrite Hroot.
  - unfold Shared.push, Shared.pushWithCheck in Hpush.
    destruct (takeState (statePool w)) as [state pool].
    destruct (deref (heap w) filters) as [chain |]; [| done]. simpl in Hpush.
    destruct (Shared.settings (useMaxPadding w) chain) as [s |]; [| done].
    simpl in Hpush.
    destruct (Shared.resolveFrame host w target s) as [[frame cub] |];
      [| done].
    simpl in Hpush.
    destruct (Shared_openRegion_accepts host _ _ _ _ _ _ _ _ _ _ _ Hpush)
      as (-> & st & Hst & _).
    split; [done |]. rewrite Hst. simpl. by rewrite Hroot.
Qed.

Lemma push_never_rejects_witness :
  ∃ w1 w1',
    Mixin.push Pixi.host Unset.world (Pixi.sprite 10 10 1 1) [0%nat]
    = Some (true, w1)
    ∧ Shared.push Pixi.host Unset.world (Pixi.sprite 10 10 1 1) [0%nat]
      = Some (true, w1')
    ∧ length (defaultFilterStack w1) = 2%nat
    ∧ length (defaultFilterStack w1') = 2%nat.
Proof.
  assert (Hm : ∃ ok w1,
            Mixin.push Pixi.host Unset.world (Pixi.sprite 10 10 1 1) [0%nat]
            = Some (ok, w1)) by (eexists _, _; vm_compute; reflexivity).
  assert (Hs : ∃ ok w1,
            Shared.push Pixi.host Unset.world (Pixi.sprite 10 10 1 1) [0%nat]
            = Some (ok, w1)) by (eexists _, _; vm_compute; reflexivity).
  destruct Hm as (ok & w1 & Hm). destruct Hs as (ok' & w1' & Hs).
  destruct (push_never_rejects Pixi.host Unset.world (Pixi.sprite 10 10 1 1)
              [0%nat]) as [HM HS].
  destruct (HM _ _ Hm) as [-> Hlen]. destruct (HS _ _ Hs) as [-> Hlen'].
  exists w1, w1'. split; [exact Hm |]. split; [exact Hs |].
  split; [exact Hlen | exact Hlen'].
Defined.

(** ** The phases of [pop] *)

Section PopSteps.
Context (host : Host).

Lemma pop_steps w w' :
  Mixin.pop host w = Some w' →
  ∃ state lastState stack filters rt m filterLen tmpState w0 w1 w2 w3 evs0,
    defaultFilterStack w = state :: lastState :: stack
    ∧ FilterState.filters state = Some filters
    ∧ FilterState.renderTexture state = Some rt
    ∧ heap w0 = heap w ∧ statePool w0 = statePool w
    ∧ log w0 = log w ++ evs0 ∧ flows evs0 = [] ∧ released evs0 = []
    ∧ acquired evs0 = []
    ∧ Mixin.skipTrivial (heap w) filters = Some (m, filterLen, tmpState)
    ∧ Mixin.runChain host (set_heap w0 m) state lastState rt filters filterLen
      = Some w1
    ∧ Mixin.restoreState w1 filters filterLen tmpState = Some w2
    ∧ Mixin.releaseBackdrop w2 filters false = Some w3
    ∧ w' = set_stacks w3 (lastState :: stack)
             (FilterState.clear state :: statePool w3)
    ∧ 1 ≤ filterLen ∧ filterLen ≤ length filters.
Proof.
  unfold Mixin.pop. intros H.
  destruct (defaultFilterStack w) as [| state stack] eqn:Hst; [done |].
  destruct (FilterState.filters state) as [filters |] eqn:Hfs; [| done].
  simpl in H.
  destruct stack as [| lastState stack]; [done |]. simpl in H.
  destruct (FilterState.renderTexture state) as [rt |] eqn:Hrt; [| done].
  simpl in H.
  set (w0 := if Z.ltb 1 (RenderTexture.framebuffer_multisample rt)
             then emit (emit (set_active w state
                          (Mixin.writeUniforms (globalUniforms w) state))
                          UniformsUpdate) Blit
             else emit (set_active w state
                          (Mixin.writeUniforms (globalUniforms w) state))
                    UniformsUpdate) in *.
  assert (Hw0 : heap w0 = heap w ∧ statePool w0 = statePool w
                ∧ ∃ evs0, log w0 = log w ++ evs0 ∧ flows evs0 = []
                          ∧ released evs0 = [] ∧ acquired evs0 = []).
  { subst w0. destruct (Z.ltb 1 _); autorewrite with world.
    - repeat split; try done. eexists [_; _]. by rewrite <- app_assoc.
    - repeat split; try done. by eexists [_]. }
  clearbody w0. destruct Hw0 as (Hh0 & Hpool0 & evs0 & Hl0 & Hf0 & Hr0 & Ha0).
  destruct (Mixin.skipTrivial (heap w0) filters)
    as [[[m filterLen] tmpState] |] eqn:Hskip; [| done]. simpl in H.
  destruct (Mixin.runChain host (set_heap w0 m) state lastState rt filters
              filterLen) as [w1 |] eqn:Hrun; [| done]. simpl in H.
  destruct (Mixin.restoreState w1 filters filterLen tmpState)
    as [w2 |] eqn:Hrest; [| done]. simpl in H.
  destruct (Mixin.releaseBackdrop w2 filters false) as [w3 |] eqn:Hrel;
    [| done]. simpl in H. injection H as <-.
  destruct (skipTrivial_inv _ _ _ _ _ Hskip) as (Hbs & Hhi & Hlo).
  assert (Hne : 1 ≤ length filters).
  { destruct filters; [| simpl; lia]. by rewrite runChain_nil in Hrun. }
  rewrite Hh0 in Hskip.
  exists state, lastState, stack, filters, rt, m, filterLen, tmpState,
    w0, w1, w2, w3, evs0.
  repeat split; try done. by apply Hlo.
Qed.

(** Every filter [releaseBackdrop] visits is read. *)
Lemma releaseBackdrop_reads filters : ∀ w free w',
  Mixin.releaseBackdrop w filters free = Some w' →
  ∀ r, r ∈ filters → is_Some (heap w !! r).
Proof.
  induction filters as [| r rest IH]; intros w free w' H q Hq.
  - by apply elem_of_nil in Hq.
  - simpl in H. destruct (heap w !! r) as [f |] eqn:Hr; [| done].
    simpl in H. apply elem_of_cons in Hq as [-> | Hq]; [by eexists |].
    destruct (Filter._backdropActive f).
    + specialize (IH _ _ _ H q Hq). destruct free;
        autorewrite with world in IH.
      all: destruct (decide (q = r)) as [-> | Hne]; [by eexists |].
      all: by rewrite lookup_insert_ne in IH.
    + by apply (IH _ _ _ H).
Qed.

Lemma heap_but_state_sym m m' : heap_but_state m m' → heap_but_state m' m.
Proof.
  intros H r. specialize (H r). destruct H as [f f' Hf |]; constructor.
  unfold same_but_state in *. rewrite Hf. by destruct f.
Qed.

End PopSteps.

(** X4. [pop] returns only for a region that sits above another entry of
    the stack and has a working texture and a chain of one filter or more,
    all of whose filters exist: on an empty stack, on the root entry
    alone, or for a region whose chain is empty, it throws.  For such a
    region it does return, provided [returnFilterTexture] is handed a
    texture for the backdrop: the backdrop uniform of the first filter of
    the chain marked backdrop-active, if one is marked, holds a texture.
    The other calls into the host are taken to return. *)
Theorem pop_returns (host : Host) (w : World) :
  (is_Some (Mixin.pop host w) →
   ∃ state lastState stack filters rt,
     defaultFilterStack w = state :: lastState :: stack
     ∧ FilterState.filters state = Some filters
     ∧ FilterState.renderTexture state = Some rt
     ∧ filters ≠ []
     ∧ ∀ r, r ∈ filters → is_Some (heap w !! r))
  ∧ ∀ state lastState stack filters rt,
      defaultFilterStack w = state :: lastState :: stack →
      FilterState.filters state = Some filters →
      FilterState.renderTexture state = Some rt →
      filters ≠ [] →
      (∀ r, r ∈ filters → is_Some (heap w !! r)) →
      (∀ v, heldBackdrop (heap w) filters = Some v → ∃ t, v = UTexture t) →
      is_Some (Mixin.pop host w).
Proof.
  split.
  - intros [w' H].
    destruct (pop_steps host _ _ H)
      as (state & lastState & stack & filters & rt & m & filterLen & tmpState
          & w0 & w1 & w2 & w3 & evs0 & Hst & Hfs & Hrt & Hh0 & _ & _ & _ & _
          & _ & Hskip & Hrun & Hrest & Hrel & _ & Hlo & Hhi).
    exists state, lastState, stack, filters, rt.
    repeat split; try done.
    + intros ->. simpl in Hhi. lia.
    + intros r Hr.
      destruct (skipTrivial_inv _ _ _ _ _ Hskip) as (Hbs & _).
      destruct (runChain_inv host _ _ _ _ _ _ _ Hrun Hlo Hhi) as (Hh1 & _).
      destruct (restoreState_inv _ _ _ _ _ Hrest) as (Hbs2 & _).
      autorewrite with world in Hh1.
      pose proof (releaseBackdrop_reads _ _ _ _ Hrel r Hr) as Hr3.
      apply (heap_but_state_is_Some _ _ _ (heap_but_state_sym _ _ Hbs)).
      rewrite <- Hh1.
      by apply (heap_but_state_is_Some _ _ _ (heap_but_state_sym _ _ Hbs2)).
  - intros state lastState stack filters rt Hst Hfs Hrt Hne Hin _.
    by eapply pop_total.
Qed.

(** ** The order and the data flow of the passes *)

Lemma flows_app l l' : flows (l ++ l') = flows l ++ flows l'.
Proof. apply omap_app. Qed.

Lemma flows_none evs : count is_apply evs = 0%nat → flows evs = [].
Proof.
  induction evs as [| e evs IH]; [done |]. rewrite count_cons.
  destruct e; simpl; try done; intros H; by apply IH.
Qed.

Lemma skipTrivial_passCount m filters m' filterLen tmpState :
  Mixin.skipTrivial m filters = Some (m', filterLen, tmpState) →
  filterLen = passCount m filters.
Proof.
  unfold Mixin.skipTrivial, passCount. rewrite last_lookup.
  replace (pred (length filters)) with (length filters - 1)%nat by lia.
  destruct (Nat.leb 2 (length filters)) eqn:Hlen.
  - destruct (filters !! (length filters - 1)%nat) as [rl |]; [| done].
    simpl. destruct (m !! rl) as [fl |]; [| done]. simpl.
    destruct (Filter.trivial fl).
    + destruct (filters !! (length filters - 2)%nat) as [rp |]; [| done].
      simpl. destruct (m !! rp); [| done]. by intros [= _ <- _].
    + by intros [= _ <- _].
  - intros [= _ <- _]. apply Nat.leb_gt in Hlen.
    destruct (filters !! (length filters - 1)%nat) as [rl |] eqn:Hl.
    + by destruct (m !! rl).
    + apply lookup_ge_None in Hl. lia.
Qed.

Section Flow.
Context (host : Host).

Lemma pingPong_pipeline filters : ∀ w state i flip flop w' flip' flop',
  Mixin.pingPong host w state filters i flip flop = Some (w', flip', flop') →
  ∃ evs, log w' = log w ++ evs
    ∧ map flow_filter (flows evs) = filters
    ∧ pipeline flip (flows evs) flip'.
Proof.
  induction filters as [| r rest IH];
    intros w state i flip flop w' flip' flop' H; simpl in H.
  - injection H as <- <- <-. exists []. by rewrite app_nil_r.
  - destruct (Nat.eqb i 1 && Z.ltb 1 (FilterState.multisample state));
      match type of H with
      | context [Mixin.apply ?w0 r ?a ?b ?c] =>
          destruct (Mixin.apply w0 r a b c) as [w2 |] eqn:Hap; [| done]
      end; simpl in H;
      apply apply_inv in Hap as (f & Hf & ->);
      destruct (IH _ _ _ _ _ _ _ _ H) as (evs & Hl & Hm & Hp);
      autorewrite with world in Hl.
    all: eexists; split; [rewrite Hl, <- !app_assoc; reflexivity |].
    all: simpl; rewrite Hm; split; [done |].
    all: split; [done |]; split; [done |]; by eexists.
Qed.

Lemma runChain_pipeline w state lastState rt filters filterLen w' :
  Mixin.runChain host w state lastState rt filters filterLen = Some w' →
  1 ≤ filterLen → filterLen ≤ length filters →
  ∃ evs body input rl,
    log w' = log w ++ evs
    ∧ flows evs
      = body ++ [(rl, input, FilterState.renderTexture lastState, BLEND)]
    ∧ map flow_filter (flows evs) = take filterLen filters
    ∧ pipeline rt body input.
Proof.
  unfold Mixin.runChain. intros H Hlo Hhi.
  destruct (Nat.eqb filterLen 1) eqn:Hone.
  - apply Nat.eqb_eq in Hone as ->.
    destruct (filters !! 0%nat) as [r0 |] eqn:Hr0; [| done]. simpl in H.
    destruct (Mixin.apply w r0 rt _ BLEND) as [w1 |] eqn:Hap; [| done].
    simpl in H. injection H as <-.
    apply apply_inv in Hap as (f & Hf & ->). autorewrite with world.
    eexists _, [], rt, r0.
    split; [rewrite <- !app_assoc; reflexivity |]. simpl.
    split; [done |]. split; [| done].
    destruct filters as [| r' rest']; [done |]. simpl in Hr0.
    by injection Hr0 as ->.
  - apply Nat.eqb_neq in Hone.
    match type of H with
    | context [Mixin.pingPong host ?w0 state ?l 0 ?a ?b] =>
        destruct (Mixin.pingPong host w0 state l 0 a b)
          as [[[w1 flip] flop] |] eqn:Hpp; [| done]
    end. simpl in H.
    destruct (filters !! (filterLen - 1)%nat) as [ri |] eqn:Hri; [| done].
    simpl in H.
    destruct (Mixin.apply w1 ri flip _ BLEND) as [w2 |] eqn:Hap; [| done].
    simpl in H. injection H as <-.
    apply apply_inv in Hap as (f & Hf & ->).
    destruct (pingPong_pipeline _ _ _ _ _ _ _ _ _ Hpp)
      as (evs & Hl & Hm & Hp).
    autorewrite with world in Hl.
    assert (Htake : take filterLen filters
                    = take (filterLen - 1) filters ++ [ri]).
    { replace filterLen with (S (filterLen - 1)) at 1 by lia.
      by apply take_S_r. }
    destruct (Nat.ltb 1 (filterLen - 1)
              && Z.ltb 1 (FilterState.multisample state));
      autorewrite with world; rewrite Hl.
    all: eexists _, (flows evs), flip, ri.
    all: split; [rewrite <- !app_assoc; reflexivity |].
    all: rewrite !flows_app; simpl; rewrite ?app_nil_r.
    all: split; [done |]. all: split; [| done].
    all: by rewrite map_app, Hm, Htake.
Qed.
End Flow.

(** X5. The passes of [pop], in order: it applies the filters of the chain
    from the first one on, as many as [passCount] says (all of them, or all
    but a trivial last one), each once.  The first pass reads the region's
    working texture, every later pass reads the texture the pass before it
    wrote, and every pass but the last clears its output first; the last
    one blends into the render texture of the enclosing entry of the
    stack. *)
Theorem pop_pipeline (host : Host) (w w' : World) (evs : list Event)
    (state lastState : FilterState.t) (stack : list FilterState.t)
    (filters : list nat) (rt : RenderTexture.t) :
  defaultFilterStack w = state :: lastState :: stack →
  FilterState.filters state = Some filters →
  FilterState.renderTexture state = Some rt →
  Mixin.pop host w = Some w' → log w' = log w ++ evs →
  ∃ body input rl,
    flows evs
    = body ++ [(rl, input, FilterState.renderTexture lastState, BLEND)]
    ∧ map flow_filter (flows evs)
      = take (passCount (heap w) filters) filters
    ∧ pipeline rt body input.
Proof.
  intros Hst Hfs Hrt Hpop Hlog.
  destruct (pop_steps host _ _ Hpop)
    as (state' & lastState' & stack' & filters' & rt' & m & filterLen
        & tmpState & w0 & w1 & w2 & w3 & evs0 & Hst' & Hfs' & Hrt' & Hh0 & _
        & Hl0 & Hf0 & _ & _ & Hskip & Hrun & Hrest & Hrel & -> & Hlo & Hhi).
  rewrite Hst in Hst'. injection Hst' as <- <- <-.
  rewrite Hfs in Hfs'. injection Hfs' as <-.
  rewrite Hrt in Hrt'. injection Hrt' as <-.
  destruct (runChain_pipeline host _ _ _ _ _ _ _ Hrun Hlo Hhi)
    as (evs1 & body & input & rl & Hl1 & Hf1 & Hm1 & Hp1).
  destruct (restoreState_inv _ _ _ _ _ Hrest) as (_ & Hl2 & _).
  destruct (releaseBackdrop_inv _ _ _ _ Hrel)
    as (_ & _ & _ & _ & _ & evs3 & Hl3 & _ & _ & Hp3 & _).
  autorewrite with world in Hlog, Hl1.
  rewrite Hl3, Hl2, Hl1, Hl0, <- !app_assoc in Hlog.
  apply app_inv_head in Hlog as <-.
  rewrite !flows_app, Hf0, (flows_none _ Hp3), app_nil_r. simpl.
  exists body, input, rl. split; [done |]. split; [| done].
  by rewrite Hm1, (skipTrivial_passCount _ _ _ _ _ Hskip).
Qed.

Lemma pop_pipeline_witness :
  ∃ w' evs body input rl,
    Mixin.pop Pixi.host Opened.world = Some w'
    ∧ flows evs
      = body ++ [(rl, input, FilterState.renderTexture Pixi.root, BLEND)]
    ∧ map flow_filter (flows evs) = [0; 1]%nat
    ∧ pipeline Opened.texture body input.
Proof.
  assert (Hpop : ∃ w', Mixin.pop Pixi.host Opened.world = Some w')
    by (eexists; vm_compute; reflexivity).
  destruct Hpop as [w' Hpop].
  assert (Hlog : ∃ evs, log w' = log Opened.world ++ evs).
  { destruct (pop_inv Pixi.host _ _ Hpop)
      as (_ & _ & _ & _ & _ & _ & _ & _ & _ & _ & _ & _ & _ & _ & _ & evs
          & Hl & _).
    by exists evs. }
  destruct Hlog as [evs Hlog].
  destruct (pop_pipeline Pixi.host Opened.world w' evs Opened.state Pixi.root
              [] [0; 1; 2]%nat Opened.texture eq_refl eq_refl eq_refl Hpop
              Hlog) as (body & input & rl & Hf & Hm & Hp).
  exists w', evs, body, input, rl. split; [exact Hpop |].
  split; [exact Hf |]. split; [exact Hm | exact Hp].
Defined.

(** ** Which textures go back to the pool *)

Lemma acquired_app l l' : acquired (l ++ l') = acquired l ++ acquired l'.
Proof. apply omap_app. Qed.

Lemma released_app l l' : released (l ++ l') = released l ++ released l'.
Proof. apply omap_app. Qed.

Lemma acquired_none evs : count is_acquire evs = 0%nat → acquired evs = [].
Proof.
  induction evs as [| e evs IH]; [done |]. rewrite count_cons.
  destruct e; simpl; try done; intros H; by apply IH.
Qed.

Lemma released_none evs : count is_release evs = 0%nat → released evs = [].
Proof.
  induction evs as [| e evs IH]; [done |]. rewrite count_cons.
  destruct e; simpl; try done; intros H; by apply IH.
Qed.

Lemma heldBackdrop_ext m m' filters :
  (∀ r, r ∈ filters → m' !! r = m !! r) →
  heldBackdrop m' filters = heldBackdrop m filters.
Proof.
  induction filters as [| r rest IH]; intros H; [done |]. simpl.
  rewrite (H r) by (by left). rewrite IH; [done |].
  intros q Hq. apply H. by right.
Qed.

Lemma heldBackdrop_but_state m m' filters :
  heap_but_state m m' → heldBackdrop m' filters = heldBackdrop m filters.
Proof.
  intros H. induction filters as [| r rest IH]; [done |]. simpl.
  rewrite IH. destruct (H r) as [f f' Hf |]; [| done].
  rewrite Hf. by destruct f.
Qed.

Lemma heldBackdrop_active m filters :
  is_some (heldBackdrop m filters) = anyActive m filters.
Proof.
  unfold anyActive. induction filters as [| r rest IH]; [done |]. simpl.
  unfold active at 1. destruct (m !! r) as [f |]; [| done].
  by destruct (Filter._backdropActive f).
Qed.

Section Textures.
Context (host : Host).

(** Without a second ping-pong texture the loop only swaps the two it was
    given. *)
Lemma pingPong_swap filters : ∀ w state i flip flop w' flip' flop',
  Mixin.pingPong host w state filters i flip flop = Some (w', flip', flop') →
  2 ≤ i ∨ Z.ltb 1 (FilterState.multisample state) = false →
  ∃ evs, log w' = log w ++ evs ∧ acquired evs = [] ∧ released evs = []
         ∧ [flip'; flop'] ≡ₚ [flip; flop].
Proof.
  induction filters as [| r rest IH];
    intros w state i flip flop w' flip' flop' H Hi; simpl in H.
  - injection H as <- <- <-. exists []. by rewrite app_nil_r.
  - assert (Nat.eqb i 1 && Z.ltb 1 (FilterState.multisample state) = false)
      as Hno.
    { destruct Hi as [Hi | ->]; [| by rewrite andb_false_r].
      assert (Nat.eqb i 1 = false) as -> by (apply Nat.eqb_neq; lia). done. }
    rewrite Hno in H.
    destruct (Mixin.apply w r flip (Some flop) CLEAR) as [w2 |] eqn:Hap;
      [| done].
    simpl in H. apply apply_inv in Hap as (f & Hf & ->).
    destruct (IH _ _ _ _ _ _ _ _ H) as (evs & Hl & Ha & Hr & Hperm).
    { destruct Hi as [Hi | Hms]; [left; lia | by right]. }
    autorewrite with world in Hl.
    eexists. split; [rewrite Hl, <- !app_assoc; reflexivity |].
    simpl. split; [done |]. split; [done |].
    rewrite Hperm. apply perm_swap.
Qed.

(** The loop from its start: a multisampled region of three passes or more
    drops the working texture for a second texture from the pool. *)
Lemma pingPong_textures filters w state flip flop w' flip' flop' :
  Mixin.pingPong host w state filters 0 flip flop = Some (w', flip', flop') →
  ∃ evs, log w' = log w ++ evs ∧ released evs = []
    ∧ if extraFlop state 0 (length filters)
      then ∃ t, acquired evs = [t] ∧ [flip'; flop'] ≡ₚ [flop; framed flop t]
      else acquired evs = [] ∧ [flip'; flop'] ≡ₚ [flip; flop].
Proof.
  intros H. unfold extraFlop.
  destruct (Z.ltb 1 (FilterState.multisample state)) eqn:Hms.
  2: { destruct (pingPong_swap _ _ _ _ _ _ _ _ _ H) as (evs & Hl & Ha & Hr & Hp);
         [by right |].
       exists evs. by rewrite andb_false_r. }
  destruct filters as [| r0 [| r1 rest]].
  - simpl in H. injection H as <- <- <-. exists []. by rewrite app_nil_r.
  - simpl in H.
    destruct (Mixin.apply w r0 flip (Some flop) CLEAR) as [w2 |] eqn:Hap;
      [| done].
    simpl in H. injection H as <- <- <-.
    apply apply_inv in Hap as (f & Hf & ->). autorewrite with world.
    eexists [_]. simpl. split; [done |]. split; [done |]. split; [done |].
    apply perm_swap.
  - simpl in H.
    destruct (Mixin.apply w r0 flip (Some flop) CLEAR) as [w2 |] eqn:Hap;
      [| done].
    simpl in H. apply apply_inv in Hap as (f & Hf & ->).
    rewrite Hms in H. simpl in H.
    match type of H with
    | context [Mixin.apply ?w0 r1 ?a ?b ?c] =>
        destruct (Mixin.apply w0 r1 a b c) as [w3 |] eqn:Hap; [| done]
    end.
    simpl in H. apply apply_inv in Hap as (f1 & Hf1 & ->).
    destruct (pingPong_swap _ _ _ _ _ _ _ _ _ H) as (evs & Hl & Ha & Hr & Hp);
      [left; lia |].
    autorewrite with world in Hl.
    eexists. split; [rewrite Hl, <- !app_assoc; reflexivity |].
    simpl. rewrite Ha, Hr. split; [done |].
    eexists. split; [reflexivity |]. rewrite Hp. apply perm_swap.
Qed.

(** [runChain] returns the working texture and every texture it took. *)
Lemma runChain_textures w state lastState rt filters filterLen w' :
  Mixin.runChain host w state lastState rt filters filterLen = Some w' →
  1 ≤ filterLen → filterLen ≤ length filters →
  ∃ evs, log w' = log w ++ evs
    ∧ released evs
      ≡ₚ UTexture rt :: map (fun t => UTexture (framed rt t)) (acquired evs).
Proof.
  unfold Mixin.runChain. intros H Hlo Hhi.
  destruct (Nat.eqb filterLen 1) eqn:Hone.
  - apply Nat.eqb_eq in Hone as ->.
    destruct (filters !! 0%nat) as [r0 |] eqn:Hr0; [| done]. simpl in H.
    destruct (Mixin.apply w r0 rt _ BLEND) as [w1 |] eqn:Hap; [| done].
    simpl in H. injection H as <-.
    apply apply_inv in Hap as (f & Hf & ->). autorewrite with world.
    eexists. split; [rewrite <- !app_assoc; reflexivity |]. done.
  - apply Nat.eqb_neq in Hone.
    match type of H with
    | context [Mixin.pingPong host ?w0 state ?l 0 ?a ?b] =>
        destruct (Mixin.pingPong host w0 state l 0 a b)
          as [[[w1 flip] flop] |] eqn:Hpp; [| done]
    end. simpl in H.
    destruct (filters !! (filterLen - 1)%nat) as [ri |] eqn:Hri; [| done].
    simpl in H.
    destruct (Mixin.apply w1 ri flip _ BLEND) as [w2 |] eqn:Hap; [| done].
    simpl in H. injection H as <-.
    apply apply_inv in Hap as (f & Hf & ->).
    destruct (pingPong_textures _ _ _ _ _ _ _ _ Hpp) as (evs & Hl & Hr & Ht).
    rewrite length_take_le in Ht by lia.
    assert (Hextra : Nat.ltb 1 (filterLen - 1)
                     && Z.ltb 1 (FilterState.multisample state)
                     = extraFlop state 0 (filterLen - 1)) by done.
    rewrite Hextra. autorewrite with world in Hl.
    match type of Hpp with
    | Mixin.pingPong _ _ _ _ _ _ ?fl = _ => set (flop0 := fl) in *
    end.
    assert (Hpair : ∀ a b c d : RenderTexture.t, [a; b] ≡ₚ [c; d] →
              [UTexture a; UTexture b] ≡ₚ [UTexture c; UTexture d]).
    { intros a b c d Hp. apply (fmap_Permutation UTexture) in Hp. exact Hp. }
    destruct (extraFlop state 0 (filterLen - 1)).
    + destruct Ht as (t & Ha & Hp). autorewrite with world. rewrite Hl.
      eexists. split; [rewrite <- !app_assoc; reflexivity |].
      rewrite !released_app, !acquired_app, Hr, Ha. simpl.
      apply Permutation_skip. rewrite (Hpair _ _ _ _ Hp). done.
    + destruct Ht as (Ha & Hp). autorewrite with world. rewrite Hl.
      eexists. split; [rewrite <- !app_assoc; reflexivity |].
      rewrite !released_app, !acquired_app, Hr, Ha. simpl.
      rewrite (Hpair _ _ _ _ Hp). done.
Qed.

(** The loop under [// release the backdrop!] returns one value: the
    backdrop uniform of the first filter marked backdrop-active. *)
Lemma releaseBackdrop_released filters : ∀ w free w',
  Mixin.releaseBackdrop w filters free = Some w' →
  ∃ evs, log w' = log w ++ evs ∧ acquired evs = []
    ∧ released evs
      = if free then []
        else match heldBackdrop (heap w) filters with
             | Some v => [v]
             | None => []
             end.
Proof.
  induction filters as [| r rest IH]; intros w free w' H; simpl in H.
  - injection H as <-. exists []. rewrite app_nil_r. by destruct free.
  - destruct (heap w !! r) as [f |] eqn:Hr; [| done]. simpl in H.
    simpl. rewrite Hr.
    destruct (Filter._backdropActive f) eqn:Hf.
    + destruct (IH _ _ _ H) as (evs & Hl & Ha & Hre).
      destruct free; autorewrite with world in Hl.
      * by exists evs.
      * eexists. split; [rewrite Hl, <- !app_assoc; reflexivity |].
        simpl. rewrite Ha, Hre. done.
    + destruct (IH _ _ _ H) as (evs & Hl & Ha & Hre). by exists evs.
Qed.

(** [pop]: the working texture and the ping-pong textures, then the
    backdrop. *)
Lemma pop_textures w w' state stack filters rt :
  Mixin.pop host w = Some w' →
  defaultFilterStack w = state :: stack →
  FilterState.filters state = Some filters →
  FilterState.renderTexture state = Some rt →
  ∃ evs work,
    log w' = log w ++ evs
    ∧ released evs
      = work ++ match heldBackdrop (heap w) filters with
                | Some v => [v]
                | None => []
                end
    ∧ work ≡ₚ UTexture rt
              :: map (fun t => UTexture (framed rt t)) (acquired evs).
Proof.
  intros Hpop Hst Hfs Hrt.
  destruct (pop_steps host _ _ Hpop)
    as (state' & lastState & stack' & filters' & rt' & m & filterLen
        & tmpState & w0 & w1 & w2 & w3 & evs0 & Hst' & Hfs' & Hrt' & Hh0 & _
        & Hl0 & _ & Hr0 & Ha0 & Hskip & Hrun & Hrest & Hrel & -> & Hlo & Hhi).
  rewrite Hst in Hst'. injection Hst' as <- ->.
  rewrite Hfs in Hfs'. injection Hfs' as <-.
  rewrite Hrt in Hrt'. injection Hrt' as <-.
  destruct (skipTrivial_inv _ _ _ _ _ Hskip) as (Hbs & _).
  destruct (runChain_inv host _ _ _ _ _ _ _ Hrun Hlo Hhi) as (Hh1 & _).
  destruct (runChain_textures _ _ _ _ _ _ _ Hrun Hlo Hhi)
    as (evs1 & Hl1 & Hperm).
  destruct (restoreState_inv _ _ _ _ _ Hrest) as (Hbs2 & Hl2 & _).
  destruct (releaseBackdrop_released _ _ _ _ Hrel) as (evs3 & Hl3 & Ha3 & Hr3).
  autorewrite with world in Hl1, Hh1.
  exists (evs0 ++ evs1 ++ evs3), (released evs1).
  split; [autorewrite with world;
          rewrite Hl3, Hl2, Hl1, Hl0, <- !app_assoc; reflexivity |].
  rewrite !released_app, !acquired_app, Hr0, Ha0, Ha3, Hr3, app_nil_r.
  simpl. split; [| exact Hperm]. f_equal.
  rewrite (heldBackdrop_but_state _ _ _ Hbs2), Hh1.
  by rewrite (heldBackdrop_but_state _ _ _ Hbs).
Qed.
End Textures.

(** ** The textures of one cycle *)

Lemma heldBackdrop_shared m filters x :
  (∀ q, q ∈ filters → active m q = true →
        backdropUniform m q = Some (Some (UTexture x))) →
  heldBackdrop m filters
  = if anyActive m filters then Some (UTexture x) else None.
Proof.
  unfold anyActive. induction filters as [| r rest IH]; intros H; [done |].
  simpl. specialize (H r) as Hr. unfold active, backdropUniform in Hr |- *.
  destruct (m !! r) as [f |]; simpl in *.
  - destruct (Filter._backdropActive f); simpl.
    + specialize (Hr ltac:(by left) eq_refl).
      destruct (Filter.backdropUniformName f) as [[| c n] |]; simpl in Hr;
        try done.
      injection Hr as Hr. simpl. by rewrite Hr.
    + apply IH. intros q Hq. apply H. by right.
  - apply IH. intros q Hq. apply H. by right.
Qed.

Section CycleTextures.
Context (host : Host).
Hypothesis setResolution_id : ∀ t r,
  RenderTexture.id (setResolution host t r) = RenderTexture.id t.

Lemma prepareBackdrop_ids w bounds flipY w' o fl :
  Mixin.prepareBackdrop host w bounds flipY = (w', o, fl) →
  ∃ evs, log w' = log w ++ evs ∧ released evs = []
    ∧ map RenderTexture.id (acquired evs)
      = match o with Some x => [RenderTexture.id x] | None => [] end.
Proof.
  destruct (unreadable w) eqn:Hun.
  - rewrite (prepareBackdrop_unreadable host _ _ _ Hun). intros [= <- <- <-].
    destruct (warnBackbuffer_counts w) as (evs & Hl & Ha & Hre & _).
    exists evs. split; [done |].
    by rewrite (released_none _ Hre), (acquired_none _ Ha).
  - unfold unreadable in Hun. unfold Mixin.prepareBackdrop.
    destruct (current w) as [target |] eqn:Hc; [| rewrite Hun]; simpl;
      match goal with
      | |- context [bindForceLocation ?w0 ?t ?l] =>
          destruct (bindForceLocation_log w0 t l)
            as (evs & Hl & Ha & Hr & _)
      end; intros [= <- <- <-]; autorewrite with world in *; rewrite Hl.
    all: eexists; split; [rewrite <- !app_assoc; reflexivity |].
    all: rewrite !released_app, !acquired_app, (released_none _ Hr),
           (acquired_none _ Ha); simpl.
    all: by rewrite setResolution_id.
Qed.

Lemma detectOne_ids w bounds r b bf w' b' bf' :
  Mixin.detectOne host w bounds r b bf = Some (w', b', bf') →
  ∃ evs, log w' = log w ++ evs ∧ released evs = []
    ∧ map RenderTexture.id (acquired evs)
      = match b, b' with
        | None, Some x => [RenderTexture.id x]
        | _, _ => []
        end.
Proof.
  unfold Mixin.detectOne. intros H.
  destruct (heap w !! r) as [f |] eqn:Hr; [| done]. simpl in H.
  destruct (truthy_name (Filter.backdropUniformName f)) as [n |] eqn:Hn;
    simpl in H.
  2: { injection H as <- <- <-. exists []. rewrite app_nil_r.
       by destruct b. }
  destruct b as [x |].
  - destruct bf as [fl |]; [| done]. simpl in H. injection H as <- <- <-.
    exists []. autorewrite with world. by rewrite app_nil_r.
  - match type of H with
    | context [Mixin.prepareBackdrop host w bounds ?fl] =>
        destruct (Mixin.prepareBackdrop host w bounds fl)
          as [[w1 b1] fl1] eqn:Hpb
    end.
    simpl in H. injection H as <- <- <-.
    destruct (prepareBackdrop_ids _ _ _ _ _ _ Hpb) as (evs & Hl & Hre & Ha).
    exists evs. by autorewrite with world.
Qed.

Lemma detectBackdrop_ids filters : ∀ w bounds b bf w' b',
  Mixin.detectBackdrop host w bounds filters b bf = Some (w', b') →
  ∃ evs, log w' = log w ++ evs ∧ released evs = []
    ∧ map RenderTexture.id (acquired evs)
      = match b, b' with
        | None, Some x => [RenderTexture.id x]
        | _, _ => []
        end.
Proof.
  induction filters as [| r rest IH]; intros w bounds b bf w' b' H;
    simpl in H.
  - injection H as <- <-. exists []. rewrite app_nil_r. by destruct b.
  - destruct (Mixin.detectOne host w bounds r b bf)
      as [[[w1 b1] bf1] |] eqn:Hone; [| done].
    simpl in H.
    destruct (detectOne_ids _ _ _ _ _ _ _ _ Hone) as (evs1 & Hl1 & Hr1 & Ha1).
    destruct (IH _ _ _ _ _ _ H) as (evs2 & Hl2 & Hr2 & Ha2).
    destruct (detectOne_inv host _ _ _ _ _ _ _ _ Hone)
      as (_ & _ & _ & _ & Hkeep1 & _).
    destruct (detectBackdrop_inv host _ _ _ _ _ _ _ H)
      as (_ & _ & _ & _ & Hkeep2 & _).
    exists (evs1 ++ evs2). split; [by rewrite Hl2, Hl1, <- app_assoc |].
    rewrite released_app, acquired_app, map_app, Hr1, Hr2, Ha1, Ha2.
    split; [done |].
    destruct b as [x |].
    + by destruct (Hkeep1 eq_refl) as [-> _].
    + destruct b1 as [x1 |]; [| done]. by rewrite (Hkeep2 eq_refl).
Qed.

End CycleTextures.

Section Held.
Context (host : Host).

(** A filter marked backdrop-active holds the region's backdrop. *)
Lemma detectOne_held w bounds r b bf w' b' bf' q :
  Mixin.detectOne host w bounds r b bf = Some (w', b', bf') →
  (active (heap w) q = true →
   ∃ x, b = Some x ∧ backdropUniform (heap w) q = Some (Some (UTexture x))) →
  active (heap w') q = true →
  ∃ x, b' = Some x ∧ backdropUniform (heap w') q = Some (Some (UTexture x)).
Proof.
  intros H Hinv Hact.
  destruct (detectOne_inv host _ _ _ _ _ _ _ _ H)
    as (_ & _ & _ & _ & Hkeep & _ & Hnone & _ & Hsome & Hne & Hskip & _).
  destruct (is_some (backdropUniform (heap w) r)) eqn:Hwants.
  2: { destruct (Hskip eq_refl) as [-> ->]. by apply Hinv. }
  destruct b' as [x |].
  - exists x. split; [done |].
    destruct (decide (q = r)) as [-> | Hq]; [by apply Hsome |].
    rewrite (backdropUniform_other _ _ _ (Hne q Hq)).
    unfold active in Hact. rewrite (Hne q Hq) in Hact.
    destruct (Hinv Hact) as (y & -> & Hy).
    destruct (Hkeep eq_refl) as [[= ->] _]. done.
  - destruct (Hnone eq_refl) as [Hsame _]. rewrite Hsame in Hact.
    destruct (Hinv Hact) as (y & -> & _). by destruct (Hkeep eq_refl).
Qed.

Lemma detectBackdrop_held filters : ∀ w bounds b bf w' b' q,
  Mixin.detectBackdrop host w bounds filters b bf = Some (w', b') →
  (active (heap w) q = true →
   ∃ x, b = Some x ∧ backdropUniform (heap w) q = Some (Some (UTexture x))) →
  active (heap w') q = true →
  ∃ x, b' = Some x ∧ backdropUniform (heap w') q = Some (Some (UTexture x)).
Proof.
  induction filters as [| r rest IH]; intros w bounds b bf w' b' q H Hinv;
    simpl in H.
  - injection H as <- <-. exact Hinv.
  - destruct (Mixin.detectOne host w bounds r b bf)
      as [[[w1 b1] bf1] |] eqn:Hone; [| done].
    simpl in H. apply (IH _ _ _ _ _ _ _ H).
    by apply (detectOne_held _ _ _ _ _ _ _ _ _ Hone).
Qed.

(** Every filter of the chain that names a backdrop uniform gets the
    backdrop, if there is one. *)
Lemma detectBackdrop_shared filters : ∀ w bounds b bf w' x,
  Mixin.detectBackdrop host w bounds filters b bf = Some (w', Some x) →
  ∀ q, q ∈ filters → is_some (backdropUniform (heap w) q) = true →
    active (heap w') q = true
    ∧ backdropUniform (heap w') q = Some (Some (UTexture x)).
Proof.
  induction filters as [| r rest IH]; intros w bounds b bf w' x H q Hq Hwants.
  { by apply elem_of_nil in Hq. }
  simpl in H.
  destruct (Mixin.detectOne host w bounds r b bf)
    as [[[w1 b1] bf1] |] eqn:Hone; [| done].
  simpl in H.
  destruct (detectOne_inv host _ _ _ _ _ _ _ _ Hone)
    as (Hrn1 & _ & Hdecl1 & _ & Hkeep1 & _ & _ & _ & Hsome1 & _ & _ & Hcap1).
  destruct (detectBackdrop_inv host _ _ _ _ _ _ _ H)
    as (_ & _ & _ & _ & Hkeep2 & _ & _ & _ & Hstable & _ & Hcap2 & _).
  assert (Hb1 : is_some (backdropUniform (heap w) r) = true → b1 = Some x).
  { intros Hr. destruct b1 as [x1 |].
    - specialize (Hkeep2 eq_refl). by injection Hkeep2 as ->.
    - exfalso. destruct b as [y |]; [by destruct (Hkeep1 eq_refl) |].
      specialize (Hcap1 eq_refl Hr). specialize (Hcap2 eq_refl).
      rewrite (renderer_of_unreadable _ _ Hrn1) in Hcap2.
      simpl in Hcap1, Hcap2. destruct (unreadable w); [| done].
      by rewrite andb_false_r in Hcap2. }
  destruct (decide (q ∈ rest)) as [Hin | Hnotin].
  - apply (IH _ _ _ _ _ _ H q Hin).
    by rewrite (wants_declared _ _ q Hdecl1).
  - apply elem_of_cons in Hq as [-> | Hq]; [| done].
    specialize (Hb1 Hwants). subst b1.
    apply (Hstable x r eq_refl). by apply Hsome1.
Qed.

(** The part of [pushWithCheck] after the empty-bounds test: the working
    texture it takes. *)
Lemma openRegion_texture w state stack pool target filters s frame cub ok w' :
  Mixin.openRegion host w state stack pool target filters s frame cub
  = Some (ok, w') →
  ∃ w1 backdrop st evs rt,
    (if cub
     then Mixin.detectBackdrop host w frame filters None None
          = Some (w1, backdrop)
     else w1 = w ∧ backdrop = None)
    ∧ defaultFilterStack w' = st :: stack
    ∧ heap w' = heap w1
    ∧ log w' = log w1 ++ evs
    ∧ acquired evs = [rt] ∧ released evs = []
    ∧ FilterState.filters st = Some filters
    ∧ FilterState.renderTexture st
      = Some (RenderTexture.set_filterFrame rt (Some frame)).
Proof.
  unfold Mixin.openRegion. intros H.
  set (detected := if cub
                   then Mixin.detectBackdrop host w frame filters None None
                   else Some (w, None)) in *.
  destruct detected as [[w1 backdrop] |] eqn:Hdet; [| done]. simpl in H.
  destruct (last filters) as [rl |]; [| done]. simpl in H.
  autorewrite with world in H.
  destruct (heap w1 !! rl) as [fl |]; [| done]. simpl in H.
  assert (Hdet' : if cub
                  then Mixin.detectBackdrop host w frame filters None None
                       = Some (w1, backdrop)
                  else w1 = w ∧ backdrop = None)
    by (subst detected; destruct cub; [done | by injection Hdet as <- <-]).
  destruct (Filter.clearColor fl) as [[[[cr cg] cb] ca] |];
    injection H as <- <-; eexists w1, backdrop, _, _, _;
    (split; [exact Hdet' |]); autorewrite with world.
  all: split; [reflexivity |]. all: split; [done |].
  all: split; [rewrite <- !app_assoc; reflexivity |].
  all: simpl. all: done.
Qed.
End Held.

(** ** Both calls only append to the log *)

Lemma pushWithCheck_log (host : Host) w target filters check ok w1 :
  Mixin.pushWithCheck host w target filters check = Some (ok, w1) →
  ∃ evs, log w1 = log w ++ evs.
Proof.
  intros Hpush.
  destruct (pushWithCheck_reads host _ _ _ _ _ Hpush) as (chain & s & Hd & Hs).
  rewrite (pushWithCheck_eq host _ _ _ _ _ _ Hd Hs) in Hpush.
  simpl in Hpush.
  destruct (check && _ && _).
  { injection Hpush as <- <-. exists []. autorewrite with world.
    by rewrite app_nil_r. }
  destruct (openRegion_inv host _ _ _ _ _ _ _ _ _ _ _ Hpush)
    as (wd & backdrop & st & evs1 & rt & Hdet & _ & _ & _ & _ & _ & _ & Hl1
        & _).
  destruct (snd (Mixin.resolveFrame host w target s)).
  - destruct (detectBackdrop_inv host _ _ _ _ _ _ _ Hdet)
      as (_ & _ & _ & (evs0 & Hl0 & _) & _).
    exists (evs0 ++ evs1). by rewrite Hl1, Hl0, <- app_assoc.
  - destruct Hdet as [-> ->]. by exists evs1.
Qed.

Lemma pop_log (host : Host) w w' :
  Mixin.pop host w = Some w' → ∃ evs, log w' = log w ++ evs.
Proof.
  intros Hpop.
  destruct (pop_inv host _ _ Hpop)
    as (_ & _ & _ & _ & _ & _ & _ & _ & _ & _ & _ & _ & _ & _ & _ & evs
        & Hl & _).
  by exists evs.
Qed.

(** X6. [pop] hands back to the pool the region's working texture and every
    ping-pong texture it took from the pool while running the chain, each
    of them once, the ping-pong textures carrying the working texture's
    filter frame; after them it hands back one more value if some filter
    of the chain is marked backdrop-active: the backdrop uniform of the
    first such filter. *)
Theorem pop_returns_textures (host : Host) (w w' : World) (evs : list Event)
    (state : FilterState.t) (stack : list FilterState.t)
    (filters : list nat) (rt : RenderTexture.t) :
  defaultFilterStack w = state :: stack →
  FilterState.filters state = Some filters →
  FilterState.renderTexture state = Some rt →
  Mixin.pop host w = Some w' → log w' = log w ++ evs →
  ∃ work,
    released evs
    = work ++ match heldBackdrop (heap w) filters with
              | Some v => [v]
              | None => []
              end
    ∧ work ≡ₚ UTexture rt
              :: map (fun t => UTexture (framed rt t)) (acquired evs).
Proof.
  intros Hst Hfs Hrt Hpop Hlog.
  destruct (pop_textures host _ _ _ _ _ _ Hpop Hst Hfs Hrt)
    as (evs' & work & Hl & Hrel & Hperm).
  rewrite Hl in Hlog. apply app_inv_head in Hlog as <-. by exists work.
Qed.

Lemma pop_returns_textures_witness :
  ∃ w' evs work,
    Mixin.pop Pixi.host Opened.world = Some w'
    ∧ released evs = work ++ []
    ∧ work ≡ₚ UTexture Opened.texture
              :: map (fun t => UTexture (framed Opened.texture t))
                   (acquired evs).
Proof.
  assert (Hpop : ∃ w', Mixin.pop Pixi.host Opened.world = Some w')
    by (eexists; vm_compute; reflexivity).
  destruct Hpop as [w' Hpop].
  destruct (pop_log _ _ _ Hpop) as [evs Hlog].
  assert (Hst : defaultFilterStack Opened.world
                = Opened.state :: [Pixi.root]) by (vm_compute; reflexivity).
  assert (Hheld : heldBackdrop (heap Opened.world) [0; 1; 2]%nat = None)
    by (vm_compute; reflexivity).
  destruct (pop_returns_textures Pixi.host Opened.world w' evs Opened.state
              [Pixi.root] [0; 1; 2]%nat Opened.texture Hst eq_refl eq_refl
              Hpop Hlog) as (work & Hrel & Hperm).
  rewrite Hheld in Hrel.
  exists w', evs, work. split; [exact Hpop |]. split; [exact Hrel |].
  exact Hperm.
Defined.

(** X7. One capture serves the whole chain.  While opening a region
    [pushWithCheck] copies the framebuffer at most once; when it does,
    every filter of the chain that names a backdrop uniform is marked
    backdrop-active and holds one and the same texture in that uniform. *)
Theorem one_backdrop_for_the_chain (host : Host) (w w1 : World)
    (target : DisplayObject.t) (filters : list nat) (check : bool)
    (evs : list Event) :
  Mixin.pushWithCheck host w target filters check = Some (true, w1) →
  log w1 = log w ++ evs →
  count is_copy evs ≤ 1
  ∧ (count is_copy evs = 1%nat →
     ∃ x, ∀ q, q ∈ filters →
            is_some (backdropUniform (heap w) q) = true →
            active (heap w1) q = true
            ∧ backdropUniform (heap w1) q = Some (Some (UTexture x))).
Proof.
  intros Hpush Hlog.
  destruct (pushWithCheck_reads host _ _ _ _ _ Hpush) as (chain & s & Hd & Hs).
  rewrite (pushWithCheck_eq host _ _ _ _ _ _ Hd Hs) in Hpush.
  simpl in Hpush.
  destruct (check && _ && _); [done |].
  destruct (openRegion_inv host _ _ _ _ _ _ _ _ _ _ _ Hpush)
    as (wd & backdrop & st & evs1 & rt & Hdet & _ & _ & _ & Hh1 & _ & _ & Hl1
        & _ & _ & _ & Hk1 & _).
  destruct (snd (Mixin.resolveFrame host w target s)).
  - destruct (detectBackdrop_inv host _ _ _ _ _ _ _ Hdet)
      as (_ & _ & _ & (evs0 & Hl0 & _ & _ & _ & Hk0) & _).
    rewrite Hl1, Hl0, <- app_assoc in Hlog.
    apply app_inv_head in Hlog as <-.
    rewrite count_app, Hk0, Hk1. simpl.
    destruct backdrop as [x |]; simpl; [| split; [lia | done]].
    split; [lia |]. intros _. exists x. intros q Hq Hwants. rewrite Hh1.
    by apply (detectBackdrop_shared host _ _ _ _ _ _ _ Hdet).
  - destruct Hdet as [-> ->]. rewrite Hl1 in Hlog.
    apply app_inv_head in Hlog as <-. rewrite Hk1. split; [lia | done].
Qed.

Lemma one_backdrop_for_the_chain_witness :
  ∃ w1 evs,
    Mixin.pushWithCheck Pixi.host Sample.three (Pixi.sprite 10 10 50 50)
      [0; 1; 2]%nat true = Some (true, w1)
    ∧ log w1 = log Sample.three ++ evs
    ∧ count is_copy evs ≤ 1.
Proof.
  assert (Hpush : ∃ w1,
            Mixin.pushWithCheck Pixi.host Sample.three
              (Pixi.sprite 10 10 50 50) [0; 1; 2]%nat true = Some (true, w1))
    by (eexists; vm_compute; reflexivity).
  destruct Hpush as [w1 Hpush].
  destruct (pushWithCheck_log _ _ _ _ _ _ _ Hpush) as [evs Hlog].
  destruct (one_backdrop_for_the_chain Pixi.host Sample.three w1
              (Pixi.sprite 10 10 50 50) [0; 1; 2]%nat true evs Hpush Hlog)
    as (Hle & _).
  exists w1, evs. split; [exact Hpush |]. split; [exact Hlog | exact Hle].
Defined.

(** ** Round trips of one cycle *)

(** X8. What one cycle takes from the pool it gives back, and nothing
    else: over a [pushWithCheck] that accepts the region and the [pop]
    that follows, the textures handed to [returnFilterTexture] are the
    textures [getOptimalFilterTexture] handed out, each of them once.  The
    chain's filters carry no backdrop left over from elsewhere, and
    [setResolution] changes a texture in place. *)
Theorem cycle_returns_textures (host : Host) (w w1 w2 : World)
    (target : DisplayObject.t) (filters : list nat) (check : bool)
    (chain : list Filter.t) (evs : list Event) :
  (∀ t r, RenderTexture.id (setResolution host t r) = RenderTexture.id t) →
  deref (heap w) filters = Some chain →
  Forall (fun f => Filter._backdropActive f = false) chain →
  Mixin.pushWithCheck host w target filters check = Some (true, w1) →
  Mixin.pop host w1 = Some w2 →
  log w2 = log w ++ evs →
  map texture_id (released evs)
  ≡ₚ map (fun t => Some (RenderTexture.id t)) (acquired evs).
Proof.
  intros Hid Hd Hstale Hpush Hpop Hlog.
  destruct (pushWithCheck_reads host _ _ _ _ _ Hpush)
    as (chain' & s & Hd' & Hs).
  rewrite (pushWithCheck_eq host _ _ _ _ _ _ Hd' Hs) in Hpush.
  simpl in Hpush.
  destruct (check && _ && _); [done |].
  destruct (openRegion_texture host _ _ _ _ _ _ _ _ _ _ _ Hpush)
    as (wd & backdrop & st & evs1 & rt & Hdet & Hst & Hh1 & Hl1 & Ha1 & Hr1
        & Hfs & Hrt).
  pose proof (deref_inactive _ _ _ Hd Hstale) as Hoff.
  assert (Hloop : ∃ evs0, log wd = log w ++ evs0 ∧ released evs0 = []
            ∧ map RenderTexture.id (acquired evs0)
              = match backdrop with
                | Some x => [RenderTexture.id x]
                | None => []
                end
            ∧ heldBackdrop (heap wd) filters
              = match backdrop with
                | Some x => Some (UTexture x)
                | None => None
                end).
  { destruct (snd (Mixin.resolveFrame host w target s)).
    - destruct (detectBackdrop_ids host Hid _ _ _ _ _ _ _ Hdet)
        as (evs0 & Hl0 & Hr0 & Ha0).
      exists evs0. split; [done |]. split; [done |]. split; [done |].
      destruct (detectBackdrop_inv host _ _ _ _ _ _ _ Hdet)
        as (_ & _ & _ & _ & _ & Hsame & _ & _ & _ & Hfound & _).
      destruct backdrop as [x |].
      + rewrite (heldBackdrop_shared _ _ x).
        * destruct (Hfound x eq_refl eq_refl) as (q & Hq & Hqa & _).
          by rewrite (anyActive_true _ _ q Hq Hqa).
        * intros q Hq Hact.
          destruct (detectBackdrop_held host _ _ _ _ _ _ _ q Hdet)
            as (y & [= <-] & Hy); [| done | done].
          intros Hact0. by rewrite (Hoff q Hq) in Hact0.
      + rewrite (heldBackdrop_shared _ _ rt); [| intros q Hq Hact].
        * rewrite anyActive_false; [done |]. intros q Hq.
          rewrite (Hsame eq_refl q). by apply Hoff.
        * rewrite (Hsame eq_refl q), (Hoff q Hq) in Hact. done.
    - destruct Hdet as [-> ->]. exists []. rewrite app_nil_r.
      split; [done |]. split; [done |]. split; [done |].
      rewrite (heldBackdrop_shared _ _ rt); [| intros q Hq Hact].
      + by rewrite anyActive_false.
      + by rewrite (Hoff q Hq) in Hact. }
  destruct Hloop as (evs0 & Hl0 & Hr0 & Ha0 & Hheld).
  destruct (pop_textures host _ _ _ _ _ _ Hpop Hst Hfs Hrt)
    as (evs2 & work & Hl2 & Hr2 & Hperm).
  rewrite Hl2, Hl1, Hl0, <- !app_assoc in Hlog.
  apply app_inv_head in Hlog as <-.
  rewrite !released_app, !acquired_app, Hr0, Hr1, Hr2, Ha1, Hh1, Hheld.
  simpl. rewrite !map_app, Hperm. simpl.
  rewrite <- (map_map RenderTexture.id Some (acquired evs0)), Ha0.
  rewrite !map_map. simpl.
  destruct backdrop as [x |]; simpl.
  - symmetry. apply (Permutation_cons_append (_ :: _)).
  - by rewrite app_nil_r.
Qed.

Lemma cycle_returns_textures_witness :
  ∃ w1 w2 evs,
    Mixin.pushWithCheck Pixi.host Sample.three (Pixi.sprite 10 10 50 50)
      [0; 1; 2]%nat true = Some (true, w1)
    ∧ Mixin.pop Pixi.host w1 = Some w2
    ∧ log w2 = log Sample.three ++ evs
    ∧ map texture_id (released evs)
      ≡ₚ map (fun t => Some (RenderTexture.id t)) (acquired evs).
Proof.
  assert (Hcycle : ∃ w1 w2,
            Mixin.pushWithCheck Pixi.host Sample.three
              (Pixi.sprite 10 10 50 50) [0; 1; 2]%nat true = Some (true, w1)
            ∧ Mixin.pop Pixi.host w1 = Some w2).
  { assert (Hrun : is_Some
              ('(ok, w1) ← Mixin.pushWithCheck Pixi.host Sample.three
                             (Pixi.sprite 10 10 50 50) [0; 1; 2]%nat true;
               if ok : bool then Mixin.pop Pixi.host w1 else None))
      by (vm_compute; eexists; reflexivity).
    destruct (Mixin.pushWithCheck Pixi.host Sample.three
                (Pixi.sprite 10 10 50 50) [0; 1; 2]%nat true)
      as [[[|] w1] |]; simpl in Hrun;
      [| by destruct Hrun | by destruct Hrun].
    destruct Hrun as [w2 Hpop]. by exists w1, w2. }
  destruct Hcycle as (w1 & w2 & Hpush & Hpop).
  destruct (pushWithCheck_log _ _ _ _ _ _ _ Hpush) as [evs1 Hl1].
  destruct (pop_log _ _ _ Hpop) as [evs2 Hl2].
  assert (Hlog : log w2 = log Sample.three ++ (evs1 ++ evs2))
    by (by rewrite Hl2, Hl1, <- app_assoc).
  assert (Hd : deref (heap Sample.three) [0; 1; 2]%nat
               = Some [Sample.blend 1 true 10; Sample.pass false 11;
                       Sample.pass false 12])
    by (vm_compute; reflexivity).
  exists w1, w2, (evs1 ++ evs2). split; [exact Hpush |].
  split; [exact Hpop |]. split; [exact Hlog |].
  apply (cycle_returns_textures Pixi.host Sample.three w1 w2
           (Pixi.sprite 10 10 50 50) [0; 1; 2]%nat true
           [Sample.blend 1 true 10; Sample.pass false 11;
            Sample.pass false 12] (evs1 ++ evs2));
    [done | exact Hd | repeat constructor | exact Hpush | exact Hpop
    | exact Hlog].
Defined.

(** X9. A cycle leaves the stack as it found it and the state in the
    pool.  After a [pushWithCheck] that accepts the region and the [pop]
    that follows, the filter stack is the stack from before the cycle (a
    stack of the root entry alone has had the current render texture
    written to that entry), and the state object the region used is back
    on top of the pool, cleared of its target, its chain and its working
    texture. *)
Theorem cycle_restores_stack (host : Host) (w w1 w2 : World)
    (target : DisplayObject.t) (filters : list nat) (check : bool) :
  Mixin.pushWithCheck host w target filters check = Some (true, w1) →
  Mixin.pop host w1 = Some w2 →
  defaultFilterStack w2 = noteRoot (defaultFilterStack w) (current w)
  ∧ length (statePool w2) = Nat.max 1 (length (statePool w))
  ∧ ∃ st, statePool w2 = st :: snd (takeState (statePool w))
          ∧ FilterState.target st = None
          ∧ FilterState.filters st = None
          ∧ FilterState.renderTexture st = None.
Proof.
  intros Hpush Hpop.
  destruct (pushWithCheck_reads host _ _ _ _ _ Hpush) as (chain & s & Hd & Hs).
  rewrite (pushWithCheck_eq host _ _ _ _ _ _ Hd Hs) in Hpush.
  simpl in Hpush.
  destruct (check && _ && _); [done |].
  destruct (openRegion_inv host _ _ _ _ _ _ _ _ _ _ _ Hpush)
    as (wd & backdrop & st & evs1 & rt & _ & _ & Hst & Hpool & _).
  destruct (pop_inv host _ _ Hpop)
    as (st' & stack' & filters' & filterLen & Hst' & _ & Hst2 & Hpool2 & _).
  rewrite Hst in Hst'. injection Hst' as <- <-.
  split; [done |]. rewrite Hpool2, Hpool. split.
  - simpl. destruct (statePool w); simpl; lia.
  - by exists (FilterState.clear st).
Qed.

Lemma cycle_restores_stack_witness :
  ∃ w1 w2,
    Mixin.pushWithCheck Pixi.host Sample.three (Pixi.sprite 10 10 50 50)
      [0; 1; 2]%nat true = Some (true, w1)
    ∧ Mixin.pop Pixi.host w1 = Some w2
    ∧ defaultFilterStack w2
      = noteRoot (defaultFilterStack Sample.three) (current Sample.three)
    ∧ length (statePool w2) = Nat.max 1 (length (statePool Sample.three)).
Proof.
  assert (Hcycle : ∃ w1 w2,
            Mixin.pushWithCheck Pixi.host Sample.three
              (Pixi.sprite 10 10 50 50) [0; 1; 2]%nat true = Some (true, w1)
            ∧ Mixin.pop Pixi.host w1 = Some w2).
  { assert (Hrun : is_Some
              ('(ok, w1) ← Mixin.pushWithCheck Pixi.host Sample.three
                             (Pixi.sprite 10 10 50 50) [0; 1; 2]%nat true;
               if ok : bool then Mixin.pop Pixi.host w1 else None))
      by (vm_compute; eexists; reflexivity).
    destruct (Mixin.pushWithCheck Pixi.host Sample.three
                (Pixi.sprite 10 10 50 50) [0; 1; 2]%nat true)
      as [[[|] w1] |]; simpl in Hrun;
      [| by destruct Hrun | by destruct Hrun].
    destruct Hrun as [w2 Hpop]. by exists w1, w2. }
  destruct Hcycle as (w1 & w2 & Hpush & Hpop).
  destruct (cycle_restores_stack Pixi.host Sample.three w1 w2
              (Pixi.sprite 10 10 50 50) [0; 1; 2]%nat true Hpush Hpop)
    as (Hstack & Hlen & _).
  exists w1, w2. split; [exact Hpush |]. split; [exact Hpop |].
  split; [exact Hstack | exact Hlen].
Defined.

(** ** [containsRect] *)

From Stdlib Require Import Lqa.

Lemma containsRect_true (rectOut rectIn : Rectangle.t) :
  containsRect rectOut rectIn = true
  ↔ (Rectangle.x rectOut <= Rectangle.x rectIn
     ∧ Rectangle.x rectIn <= Rectangle.x rectOut + Rectangle.width rectOut
     ∧ Rectangle.y rectOut <= Rectangle.y rectIn
     ∧ Rectangle.y rectIn <= Rectangle.y rectOut + Rectangle.height rectOut
     ∧ Rectangle.x rectOut <= Rectangle.x rectIn + Rectangle.width rectIn
     ∧ Rectangle.x rectIn + Rectangle.width rectIn
       <= Rectangle.x rectOut + Rectangle.width rectOut
     ∧ Rectangle.y rectOut <= Rectangle.y rectIn + Rectangle.height rectIn
     ∧ Rectangle.y rectIn + Rectangle.height rectIn
       <= Rectangle.y rectOut + Rectangle.height rectOut)%Q.
Proof.
  unfold containsRect, geq, leq. cbv zeta.
  rewrite !andb_true_iff, !Qle_bool_iff. tauto.
Qed.

(** X10. For a rectangle of non-negative width and height, [containsRect]
    answers true exactly when the rectangle lies within the outer one: its
    left and top edges are not before the outer ones and its right and
    bottom edges not after them.  The other four comparisons of the source
    follow from these. *)
Theorem containsRect_spec (rectOut rectIn : Rectangle.t) :
  (0 <= Rectangle.width rectIn)%Q → (0 <= Rectangle.height rectIn)%Q →
  containsRect rectOut rectIn = true
  ↔ (Rectangle.x rectOut <= Rectangle.x rectIn
     ∧ Rectangle.x rectIn + Rectangle.width rectIn
       <= Rectangle.x rectOut + Rectangle.width rectOut
     ∧ Rectangle.y rectOut <= Rectangle.y rectIn
     ∧ Rectangle.y rectIn + Rectangle.height rectIn
       <= Rectangle.y rectOut + Rectangle.height rectOut)%Q.
Proof.
  intros Hw Hh. rewrite containsRect_true.
  split.
  - intros (? & ? & ? & ? & ? & ? & ? & ?). done.
  - intros (Hx & Hr & Hy & Hb).
    repeat split; try done; lra.
Qed.

Lemma containsRect_spec_witness :
  containsRect (Rectangle.mk 0 0 200 200) (Rectangle.mk 10 10 50 50) = true
  ↔ (0 <= 10 ∧ 10 + 50 <= 0 + 200 ∧ 0 <= 10 ∧ 10 + 50 <= 0 + 200)%Q.
Proof.
  apply (containsRect_spec (Rectangle.mk 0 0 200 200)
           (Rectangle.mk 10 10 50 50)); discriminate.
Defined.

(** X11. [containsRect] is transitive: a rectangle within a rectangle that
    is within a third one is within the third. *)
Theorem containsRect_transitive (a b c : Rectangle.t) :
  containsRect a b = true → containsRect b c = true →
  containsRect a c = true.
Proof.
  rewrite !containsRect_true.
  intros (? & ? & ? & ? & ? & ? & ? & ?) (? & ? & ? & ? & ? & ? & ? & ?).
  repeat split; lra.
Qed.

Lemma containsRect_transitive_witness :
  containsRect (Rectangle.mk 0 0 200 200) (Rectangle.mk 20 20 10 10) = true.
Proof.
  apply (containsRect_transitive (Rectangle.mk 0 0 200 200)
           (Rectangle.mk 10 10 50 50) (Rectangle.mk 20 20 10 10));
    reflexivity.
Defined.

(** ** The second revision: one cycle *)

Section SharedCycle.
Context (host : Host).

Lemma Shared_prepareBackdrop_counts w bounds flipY w' o fl :
  Shared.prepareBackdrop host w bounds flipY = (w', o, fl) →
  ∃ evs, log w' = log w ++ evs
    ∧ count is_acquire evs = one_if (is_some o)
    ∧ count is_copy evs = one_if (is_some o)
    ∧ count is_release evs = 0%nat ∧ count is_apply evs = 0%nat.
Proof.
  destruct (unreadable w) eqn:Hun.
  - rewrite (prepareBackdrop_unreadable' host _ _ _ Hun). intros [= <- <- <-].
    destruct (warnBackbuffer_counts w) as (evs & Hl & Ha & Hre & Hk & Hp).
    by exists evs.
  - unfold unreadable in Hun. unfold Shared.prepareBackdrop.
    destruct (current w) as [target |] eqn:Hc; [| rewrite Hun]; simpl;
      match goal with
      | |- context [bindForceLocation ?w0 ?t ?l] =>
          destruct (bindForceLocation_log w0 t l)
            as (evs & Hl & Ha & Hr & Hk & Hp)
      end; intros [= <- <- <-]; autorewrite with world in *; rewrite Hl.
    all: eexists; split; [rewrite <- !app_assoc; reflexivity |].
    all: autorewrite with counting; rewrite Ha, Hr, Hk, Hp; simpl.
    all: done.
Qed.






Lemma Shared_runChain_nil w state lastState rt filterLen :
  Shared.runChain host w state lastState rt [] filterLen = None.
Proof.
  unfold Shared.runChain. destruct (Nat.eqb filterLen 1); [done |].
  rewrite take_nil. simpl. done.
Qed.


End SharedCycle.



(** ** The second revision: the backdrop during the passes *)

Lemma backdropUniform_but_state m m' q :
  heap_but_state m m' → backdropUniform m' q = backdropUniform m q.
Proof.
  intros H. unfold backdropUniform. destruct (H q) as [f f' Hf |]; [| done].
  simpl. rewrite Hf. by destruct f.
Qed.

Section SharedBackdrop.
Context (host : Host).

Lemma Shared_applyFilter_inv w state r input output mode w' :
  Shared.applyFilter w state r input output mode = Some w' →
  (∀ q, q ≠ r → heap w' !! q = heap w !! q)
  ∧ backdrop_null (heap w') r
  ∧ is_some (backdropUniform (heap w') r)
    = is_some (backdropUniform (heap w) r)
  ∧ ∃ this, log w' = log w ++ [Apply r this input output mode]
      ∧ ∀ b, FilterState.backdrop state = Some b →
             backdrop_set b (Apply r this input output mode).
Proof.
  unfold Shared.applyFilter, backdrop_null, backdropUniform. intros H.
  destruct (heap w !! r) as [f |] eqn:Hr; [| done]. simpl in H.
  destruct (truthy_name (Filter.backdropUniformName f)) as [n |] eqn:Hn.
  - injection H as <-. autorewrite with world.
    split; [intros q Hq; by rewrite lookup_insert_ne |].
    rewrite lookup_insert_eq. simpl. rewrite Hn. simpl.
    rewrite lookup_insert_eq.
    split; [done |]. split; [done |].
    eexists. split; [reflexivity |]. intros b Hb n' Hn'. simpl in *.
    rewrite Hn in Hn'. injection Hn' as <-. rewrite Hb.
    destruct (FilterState.backdropFlip state) as [fl |];
      [| apply lookup_insert_eq].
    destruct (uniform_truthy _); [| apply lookup_insert_eq].
    rewrite lookup_insert_ne; [apply lookup_insert_eq | apply flip_slot_ne].
  - injection H as <-. autorewrite with world.
    split; [done |]. rewrite Hr. simpl. rewrite Hn. simpl.
    split; [done |]. split; [done |].
    eexists. split; [reflexivity |]. intros b Hb n' Hn'. simpl in *.
    by rewrite Hn in Hn'.
Qed.

Lemma Shared_applyFilter_null w state r input output mode w' q :
  Shared.applyFilter w state r input output mode = Some w' →
  (q = r ∨ backdrop_null (heap w) q) → backdrop_null (heap w') q.
Proof.
  intros H Hq.
  destruct (Shared_applyFilter_inv _ _ _ _ _ _ _ H) as (Hne & Hnull & _).
  destruct (decide (q = r)) as [-> | Hqr]; [done |].
  destruct Hq as [-> | Hq]; [done |].
  unfold backdrop_null. by rewrite (backdropUniform_other _ _ _ (Hne q Hqr)).
Qed.

Lemma Shared_pingPong_backdrop filters : ∀ w state flip flop w' flip' flop',
  Shared.pingPong w state filters flip flop = Some (w', flip', flop') →
  (∀ q, q ∈ filters ∨ backdrop_null (heap w) q → backdrop_null (heap w') q)
  ∧ ∃ evs, log w' = log w ++ evs ∧ released evs = []
      ∧ ∀ b, FilterState.backdrop state = Some b →
             Forall (backdrop_set b) evs.
Proof.
  induction filters as [| r rest IH];
    intros w state flip flop w' flip' flop' H; simpl in H.
  - injection H as <- <- <-. split.
    + intros q [Hq | Hq]; [by apply elem_of_nil in Hq | done].
    + exists []. by rewrite app_nil_r.
  - destruct (Shared.applyFilter w state r flip (Some flop) CLEAR)
      as [w1 |] eqn:Hap; [| done].
    simpl in H.
    destruct (Shared_applyFilter_inv _ _ _ _ _ _ _ Hap)
      as (_ & _ & _ & this & Hl1 & Hset).
    destruct (IH _ _ _ _ _ _ _ H) as (Hnull & evs & Hl & Hr & HF).
    split.
    + intros q Hq. apply Hnull.
      destruct Hq as [Hq | Hq].
      * apply elem_of_cons in Hq as [-> | Hq]; [| by left].
        right. apply (Shared_applyFilter_null _ _ _ _ _ _ _ _ Hap). by left.
      * right. apply (Shared_applyFilter_null _ _ _ _ _ _ _ _ Hap). by right.
    + eexists. split; [rewrite Hl, Hl1, <- app_assoc; reflexivity |].
      simpl. split; [done |]. intros b Hb.
      apply Forall_cons. split; [by apply Hset | by apply HF].
Qed.

Lemma Shared_runChain_backdrop w state lastState rt filters filterLen w' :
  Shared.runChain host w state lastState rt filters filterLen = Some w' →
  1 ≤ filterLen → filterLen ≤ length filters →
  (∀ q, q ∈ take filterLen filters → backdrop_null (heap w') q)
  ∧ ∃ evs, log w' = log w ++ evs
      ∧ ∀ b, FilterState.backdrop state = Some b →
             Forall (backdrop_set b) evs.
Proof.
  unfold Shared.runChain. intros H Hlo Hhi.
  destruct (Nat.eqb filterLen 1) eqn:Hone.
  - apply Nat.eqb_eq in Hone as ->.
    destruct (filters !! 0%nat) as [r0 |] eqn:Hr0; [| done]. simpl in H.
    destruct (Shared.applyFilter w state r0 rt _ BLEND) as [w1 |] eqn:Hap;
      [| done].
    simpl in H. injection H as <-.
    destruct (Shared_applyFilter_inv _ _ _ _ _ _ _ Hap)
      as (_ & Hnull & _ & this & Hl1 & Hset).
    autorewrite with world. rewrite Hl1. split.
    + intros q Hq. destruct filters as [| r' rest']; [done |].
      simpl in Hr0. injection Hr0 as ->. simpl in Hq. rewrite take_0 in Hq.
      by apply list_elem_of_singleton in Hq as ->.
    + eexists. split; [rewrite <- !app_assoc; reflexivity |].
      intros b Hb. repeat constructor. by apply Hset.
  - apply Nat.eqb_neq in Hone.
    match type of H with
    | context [Shared.pingPong ?w0 state ?l ?a ?b] =>
        destruct (Shared.pingPong w0 state l a b)
          as [[[w1 flip] flop] |] eqn:Hpp; [| done]
    end. simpl in H.
    destruct (filters !! (filterLen - 1)%nat) as [ri |] eqn:Hri; [| done].
    simpl in H.
    destruct (Shared.applyFilter w1 state ri flip _ BLEND) as [w2 |] eqn:Hap;
      [| done].
    simpl in H. injection H as <-.
    destruct (Shared_applyFilter_inv _ _ _ _ _ _ _ Hap)
      as (_ & _ & _ & this & Hl2 & Hset).
    destruct (Shared_pingPong_backdrop _ _ _ _ _ _ _ _ Hpp)
      as (Hnull & evs & Hl & Hr & HF).
    autorewrite with world in *. rewrite Hl2, Hl. split.
    + intros q Hq.
      replace filterLen with (S (filterLen - 1)) in Hq by lia.
      rewrite (take_S_r _ _ _ Hri) in Hq.
      apply (Shared_applyFilter_null _ _ _ _ _ _ _ _ Hap).
      apply elem_of_app in Hq as [Hq | Hq].
      * right. apply Hnull. by left.
      * left. by apply list_elem_of_singleton in Hq.
    + eexists. split; [rewrite <- !app_assoc; reflexivity |].
      intros b Hb. apply Forall_cons. split; [done |].
      apply Forall_app. split; [by apply HF |].
      repeat constructor. by apply Hset.
Qed.
End SharedBackdrop.

(** X13. The second revision shows a filter the backdrop only during its
    own pass.  When [pop] closes a region whose state holds a backdrop,
    every filter it applies finds that backdrop in the uniform it names;
    once the chain has run, every applied filter that names a backdrop
    uniform holds null in it again, and the last texture [pop] returns to
    the pool is the backdrop. *)
Theorem Shared_pop_backdrop (host : Host) (w w' : World)
    (state : FilterState.t) (stack : list FilterState.t)
    (filters : list nat) (b : RenderTexture.t) (evs : list Event) :
  defaultFilterStack w = state :: stack →
  FilterState.filters state = Some filters →
  FilterState.backdrop state = Some b →
  Shared.pop host w = Some w' → log w' = log w ++ evs →
  Forall (backdrop_set b) evs
  ∧ last (released evs) = Some (UTexture b)
  ∧ ∀ q, q ∈ take (passCount (heap w) filters) filters →
         backdrop_null (heap w') q.
Proof.
  unfold Shared.pop. intros Hst Hfs Hb H Hlog. rewrite Hst, Hfs in H.
  simpl in H.
  destruct (head stack) as [lastState |]; [| done]. simpl in H.
  destruct (FilterState.renderTexture state) as [rt |]; [| done].
  simpl in H.
  set (w0 := if Z.ltb 1 (RenderTexture.framebuffer_multisample rt)
             then emit (emit (set_active w state
                          (Shared.writeUniforms (globalUniforms w) state))
                          UniformsUpdate) Blit
             else emit (set_active w state
                          (Shared.writeUniforms (globalUniforms w) state))
                    UniformsUpdate) in *.
  assert (Hw0 : heap w0 = heap w
                ∧ ∃ evs0, log w0 = log w ++ evs0
                    ∧ Forall (backdrop_set b) evs0).
  { subst w0. destruct (Z.ltb 1 _); autorewrite with world.
    - split; [done |]. eexists [_; _]. rewrite <- app_assoc.
      split; [done |]. by repeat constructor.
    - split; [done |]. eexists [_]. split; [done |]. by repeat constructor. }
  clearbody w0. destruct Hw0 as (Hh0 & evs0 & Hl0 & HF0).
  destruct (Shared.skipTrivial (heap w0) filters)
    as [[[m filterLen] tmpState] |] eqn:Hskip; [| done]. simpl in H.
  destruct (Shared.runChain host (set_heap w0 m) state lastState rt filters
              filterLen) as [w1 |] eqn:Hrun; [| done]. simpl in H.
  destruct (Shared.restoreState w1 filters filterLen tmpState)
    as [w2 |] eqn:Hrest; [| done]. simpl in H.
  destruct (skipTrivial_inv _ _ _ _ _ Hskip) as (_ & Hhi & Hlo).
  assert (Hne : 1 ≤ length filters).
  { destruct filters; [| simpl; lia].
    by rewrite Shared_runChain_nil in Hrun. }
  specialize (Hlo Hne).
  destruct (Shared_runChain_backdrop host _ _ _ _ _ _ _ Hrun Hlo Hhi)
    as (Hnull & evs1 & Hl1 & HF1).
  destruct (restoreState_inv _ _ _ _ _ Hrest) as (Hbs2 & Hl2 & _).
  autorewrite with world in Hl1.
  unfold Shared.releaseBackdrop in H. rewrite Hb in H.
  injection H as <-. autorewrite with world in Hlog |- *.
  rewrite Hl2, Hl1, Hl0, <- !app_assoc in Hlog.
  apply app_inv_head in Hlog as <-.
  split.
  { apply Forall_app. split; [done |]. apply Forall_app.
    split; [by apply HF1 | by repeat constructor]. }
  split.
  { rewrite !app_assoc, released_app. simpl. by rewrite last_snoc. }
  intros q Hq. rewrite Hh0 in Hskip.
  rewrite <- (skipTrivial_passCount _ _ _ _ _ Hskip) in Hq.
  unfold backdrop_null. rewrite (backdropUniform_but_state _ _ q Hbs2).
  by apply Hnull.
Qed.

Lemma Shared_pop_backdrop_witness :
  ∃ w' evs,
    Shared.pop Pixi.host Captured.world = Some w'
    ∧ log w' = log Captured.world ++ evs
    ∧ Forall (backdrop_set Captured.backdrop) evs
    ∧ last (released evs) = Some (UTexture Captured.backdrop).
Proof.
  assert (Hpop : ∃ w', Shared.pop Pixi.host Captured.world = Some w')
    by (eexists; vm_compute; reflexivity).
  destruct Hpop as [w' Hpop].
  assert (Hst : defaultFilterStack Captured.world
                = Captured.state :: [Pixi.root]) by (vm_compute; reflexivity).
  assert (Hlog : log w' = log Captured.world ++ log w')
    by (vm_compute; reflexivity).
  destruct (Shared_pop_backdrop Pixi.host Captured.world w' Captured.state
              [Pixi.root] [0; 1; 2]%nat Captured.backdrop (log w') Hst
              eq_refl eq_refl Hpop Hlog) as (HF & Hlast & _).
  exists w', (log w'). split; [exact Hpop |]. split; [exact Hlog |].
  split; [exact HF | exact Hlast].
Defined.

(** ** What a cycle writes to the filters *)

Lemma skipTrivial_cases m filters m' filterLen tmpState :
  Mixin.skipTrivial m filters = Some (m', filterLen, tmpState) →
  (m' = m ∧ filterLen = length filters ∧ tmpState = None)
  ∨ ∃ rl fl rp fp,
      last filters = Some rl ∧ m !! rl = Some fl
      ∧ filters !! (length filters - 2)%nat = Some rp ∧ m !! rp = Some fp
      ∧ 2 ≤ length filters
      ∧ m' = <[rp := Filter.set_state fp (Filter.state fl)]> m
      ∧ filterLen = (length filters - 1)%nat
      ∧ tmpState = Filter.state fp.
Proof.
  unfold Mixin.skipTrivial. rewrite last_lookup.
  replace (pred (length filters)) with (length filters - 1)%nat by lia.
  intros H.
  destruct (Nat.leb 2 (length filters)) eqn:Hlen.
  - apply Nat.leb_le in Hlen.
    destruct (filters !! (length filters - 1)%nat) as [rl |]; [| done].
    simpl in H. destruct (m !! rl) as [fl |] eqn:Hl; [| done]. simpl in H.
    destruct (Filter.trivial fl).
    + destruct (filters !! (length filters - 2)%nat) as [rp |]; [| done].
      simpl in H. destruct (m !! rp) as [fp |] eqn:Hp; [| done].
      simpl in H. injection H as <- <- <-.
      right. by exists rl, fl, rp, fp.
    + injection H as <- <- <-. by left.
  - injection H as <- <- <-. by left.
Qed.

Lemma releaseBackdrop_frame filters : ∀ w free w',
  Mixin.releaseBackdrop w filters free = Some w' →
  ∀ q, q ∉ filters → heap w' !! q = heap w !! q.
Proof.
  induction filters as [| r rest IH]; intros w free w' H q Hq; simpl in H.
  - by injection H as <-.
  - destruct (heap w !! r) as [f |] eqn:Hr; [| done]. simpl in H.
    apply not_elem_of_cons in Hq as [Hqr Hq].
    destruct (Filter._backdropActive f).
    + rewrite (IH _ _ _ H q Hq).
      destruct free; autorewrite with world; by rewrite lookup_insert_ne.
    + by apply (IH _ _ _ H).
Qed.

Section Frame.
Context (host : Host).

Lemma detectBackdrop_frame filters : ∀ w bounds b bf w' b',
  Mixin.detectBackdrop host w bounds filters b bf = Some (w', b') →
  ∀ q, q ∉ filters → heap w' !! q = heap w !! q.
Proof.
  induction filters as [| r rest IH]; intros w bounds b bf w' b' H q Hq;
    simpl in H.
  - by injection H as <- <-.
  - destruct (Mixin.detectOne host w bounds r b bf)
      as [[[w1 b1] bf1] |] eqn:Hone; [| done].
    simpl in H. apply not_elem_of_cons in Hq as [Hqr Hq].
    rewrite (IH _ _ _ _ _ _ H q Hq).
    destruct (detectOne_inv host _ _ _ _ _ _ _ _ Hone)
      as (_ & _ & _ & _ & _ & _ & _ & _ & _ & Hne & _).
    by apply Hne.
Qed.

(** The filters as [pop] leaves them, up to the fields [releaseBackdrop]
    writes. *)
Lemma pop_heap w w' state stack filters :
  Mixin.pop host w = Some w' →
  defaultFilterStack w = state :: stack →
  FilterState.filters state = Some filters →
  ∃ m2,
    heap_declared m2 (heap w')
    ∧ (∀ q, q ∉ filters → heap w' !! q = m2 !! q)
    ∧ (m2 = heap w
       ∨ ∃ rl fl rp fp,
           last filters = Some rl ∧ heap w !! rl = Some fl
           ∧ filters !! (length filters - 2)%nat = Some rp
           ∧ heap w !! rp = Some fp
           ∧ passCount (heap w) filters < length filters
           ∧ m2 = <[rp := Filter.set_state fp
                            (match Filter.state fp with
                             | Some own => Some own
                             | None => Filter.state fl
                             end)]> (heap w)).
Proof.
  intros Hpop Hst Hfs.
  destruct (pop_steps host _ _ Hpop)
    as (state' & lastState & stack' & filters' & rt & m & filterLen
        & tmpState & w0 & w1 & w2 & w3 & evs0 & Hst' & Hfs' & Hrt & Hh0 & _
        & _ & _ & _ & _ & Hskip & Hrun & Hrest & Hrel & -> & Hlo & Hhi).
  rewrite Hst in Hst'. injection Hst' as <- ->.
  rewrite Hfs in Hfs'. injection Hfs' as <-.
  destruct (runChain_inv host _ _ _ _ _ _ _ Hrun Hlo Hhi) as (Hh1 & _).
  autorewrite with world in Hh1.
  destruct (releaseBackdrop_inv _ _ _ _ Hrel) as (_ & _ & Hd3 & _).
  pose proof (releaseBackdrop_frame _ _ _ _ Hrel) as Hframe.
  pose proof (skipTrivial_passCount _ _ _ _ _ Hskip) as Hcount.
  exists (heap w2). autorewrite with world.
  split; [done |]. split; [done |].
  destruct (skipTrivial_cases _ _ _ _ _ Hskip)
    as [(-> & -> & ->) | (rl & fl & rp & fp & Hl & Hfl & Hp & Hfp & Hlen
                          & -> & -> & ->)].
  - simpl in Hrest. injection Hrest as <-. left. by rewrite Hh1.
  - right. exists rl, fl, rp, fp.
    split; [done |]. split; [done |]. split; [done |]. split; [done |].
    split; [lia |].
    unfold Mixin.restoreState in Hrest.
    destruct (Filter.state fp) as [own |] eqn:Hown.
    + replace (length filters - 1 - 1)%nat with (length filters - 2)%nat
        in Hrest by lia.
      rewrite Hp in Hrest. simpl in Hrest.
      rewrite Hh1, lookup_insert_eq in Hrest. simpl in Hrest.
      injection Hrest as <-. autorewrite with world.
      by rewrite insert_insert_eq.
    + injection Hrest as <-. by rewrite Hh1.
Qed.
End Frame.

(** X14. [pop] gives every filter its [State] object back.  After [pop] a
    filter carries the state object it carried before, with one
    exception: where the last filter of the chain is trivial and was
    skipped, the filter before it, if it had no state object of its own,
    keeps the trivial filter's. *)
Theorem pop_state_objects (host : Host) (w w' : World)
    (state : FilterState.t) (stack : list FilterState.t)
    (filters : list nat) :
  Mixin.pop host w = Some w' →
  defaultFilterStack w = state :: stack →
  FilterState.filters state = Some filters →
  ∀ q f, heap w !! q = Some f →
    ∃ f', heap w' !! q = Some f'
      ∧ (Filter.state f' = Filter.state f
         ∨ (Filter.state f = None
            ∧ passCount (heap w) filters < length filters
            ∧ filters !! (length filters - 2)%nat = Some q
            ∧ ∃ rl fl, last filters = Some rl ∧ heap w !! rl = Some fl
                       ∧ Filter.state f' = Filter.state fl)).
Proof.
  intros Hpop Hst Hfs q f Hq.
  destruct (pop_heap host _ _ _ _ _ Hpop Hst Hfs)
    as (m2 & Hd & _ & Hm2).
  assert (Hvia : ∀ f2, m2 !! q = Some f2 →
            ∃ f', heap w' !! q = Some f' ∧ Filter.state f' = Filter.state f2).
  { intros f2 Hf2. destruct (heap_declared_lookup _ _ _ _ Hd Hf2)
      as (f' & Hf' & Hsame).
    exists f'. split; [done |]. by apply same_declared_state. }
  destruct Hm2 as [-> | (rl & fl & rp & fp & Hl & Hfl & Hp & Hfp & Hlt & ->)].
  - destruct (Hvia f Hq) as (f' & Hf' & Hs). exists f'. by auto.
  - destruct (decide (q = rp)) as [-> | Hne].
    + rewrite Hfp in Hq. injection Hq as ->.
      destruct (Hvia _ (lookup_insert_eq _ _ _)) as (f' & Hf' & Hs).
      exists f'. split; [done |]. rewrite Hs. simpl.
      destruct (Filter.state f) as [own |] eqn:Hown; [by left |].
      right. split; [done |]. split; [done |]. split; [done |].
      by exists rl, fl.
    + destruct (Hvia f) as (f' & Hf' & Hs);
        [by rewrite lookup_insert_ne |].
      exists f'. by auto.
Qed.

Lemma pop_state_objects_witness :
  ∃ w' f',
    Mixin.pop Pixi.host Opened.world = Some w'
    ∧ heap w' !! 1%nat = Some f'
    ∧ Filter.state f' = Some 11%nat.
Proof.
  assert (Hpop : ∃ w', Mixin.pop Pixi.host Opened.world = Some w')
    by (eexists; vm_compute; reflexivity).
  destruct Hpop as [w' Hpop].
  assert (Hst : defaultFilterStack Opened.world
                = Opened.state :: [Pixi.root]) by (vm_compute; reflexivity).
  assert (Hq : heap Opened.world !! 1%nat = Some (Sample.pass false 11))
    by (vm_compute; reflexivity).
  destruct (pop_state_objects Pixi.host Opened.world w' Opened.state
              [Pixi.root] [0; 1; 2]%nat Hpop Hst eq_refl 1%nat
              (Sample.pass false 11) Hq) as (f' & Hf' & [Hs | [Hs _]]).
  - exists w', f'. split; [exact Hpop |]. split; [exact Hf' | exact Hs].
  - discriminate Hs.
Defined.

(** X15. A cycle writes to the filters of its chain only, and there only
    to what the pass manager owns.  [pushWithCheck] leaves every filter
    outside the chain as it was and changes nothing of a filter of the
    chain but its uniforms and its backdrop-active mark; the [pop] that
    follows an accepted region leaves every filter outside the chain as
    it was. *)
Theorem cycle_touches_only_the_chain (host : Host) (w w1 : World)
    (target : DisplayObject.t) (filters : list nat) (check ok : bool) :
  Mixin.pushWithCheck host w target filters check = Some (ok, w1) →
  (∀ q, q ∉ filters → heap w1 !! q = heap w !! q)
  ∧ heap_declared (heap w) (heap w1)
  ∧ (ok = true → ∀ w2, Mixin.pop host w1 = Some w2 →
     ∀ q, q ∉ filters → heap w2 !! q = heap w !! q).
Proof.
  intros Hpush.
  destruct (pushWithCheck_reads host _ _ _ _ _ Hpush) as (chain & s & Hd & Hs).
  rewrite (pushWithCheck_eq host _ _ _ _ _ _ Hd Hs) in Hpush.
  simpl in Hpush.
  destruct (check && _ && _).
  { injection Hpush as <- <-. autorewrite with world.
    split; [done |]. split; [apply heap_declared_refl | done]. }
  destruct (openRegion_inv host _ _ _ _ _ _ _ _ _ _ _ Hpush)
    as (wd & backdrop & st & evs1 & rt & Hdet & -> & Hst & _ & Hh1 & _ & _
        & _ & _ & _ & _ & _ & _ & Hfs & _).
  assert (Hpushed : (∀ q, q ∉ filters → heap w1 !! q = heap w !! q)
                    ∧ heap_declared (heap w) (heap w1)).
  { rewrite Hh1. destruct (snd (Mixin.resolveFrame host w target s)).
    - split; [by apply (detectBackdrop_frame host _ _ _ _ _ _ _ Hdet) |].
      by destruct (detectBackdrop_inv host _ _ _ _ _ _ _ Hdet)
        as (_ & _ & ? & _).
    - destruct Hdet as [-> ->]. split; [done | apply heap_declared_refl]. }
  destruct Hpushed as (Hframe & Hdecl).
  split; [done |]. split; [done |].
  intros _ w2 Hpop q Hq.
  destruct (pop_heap host _ _ _ _ _ Hpop Hst Hfs) as (m2 & _ & Hout & Hm2).
  rewrite (Hout q Hq), <- (Hframe q Hq).
  destruct Hm2 as [-> | (rl & fl & rp & fp & _ & _ & Hp & _ & _ & ->)];
    [done |].
  rewrite lookup_insert_ne; [done |].
  intros <-. apply Hq. by eapply list_elem_of_lookup_2.
Qed.

Lemma cycle_touches_only_the_chain_witness :
  ∃ w1,
    Mixin.pushWithCheck Pixi.host Sample.three (Pixi.sprite 10 10 50 50)
      [0; 1]%nat true = Some (true, w1)
    ∧ heap w1 !! 2%nat = heap Sample.three !! 2%nat.
Proof.
  assert (Hpush : ∃ w1,
            Mixin.pushWithCheck Pixi.host Sample.three
              (Pixi.sprite 10 10 50 50) [0; 1]%nat true = Some (true, w1))
    by (eexists; vm_compute; reflexivity).
  destruct Hpush as [w1 Hpush].
  destruct (cycle_touches_only_the_chain Pixi.host Sample.three w1
              (Pixi.sprite 10 10 50 50) [0; 1]%nat true true Hpush)
    as (Hframe & _).
  exists w1. split; [exact Hpush |]. apply Hframe.
  intros Hin. apply elem_of_cons in Hin as [Hin | Hin]; [discriminate |].
  apply elem_of_cons in Hin as [Hin | Hin]; [discriminate |].
  by apply elem_of_nil in Hin.
Defined.

(** ** [prepareBackdrop] in the two revisions *)

(** X16. [prepareBackdrop] returns null in one situation only: the main
    framebuffer is bound and the background alpha is 1 or more.  In every
    other situation it returns a texture, after one call of
    [getOptimalFilterTexture] and one copy.  Both revisions. *)
Theorem prepareBackdrop_null_iff (host : Host) (w : World)
    (bounds : Rectangle.t) (flipY : number * number) :
  (snd (fst (Mixin.prepareBackdrop host w bounds flipY)) = None
   ↔ current w = None ∧ (1 <= background_alpha w)%Q)
  ∧ (snd (fst (Shared.prepareBackdrop host w bounds flipY)) = None
     ↔ current w = None ∧ (1 <= background_alpha w)%Q)
  ∧ ∃ evs,
      log (fst (fst (Mixin.prepareBackdrop host w bounds flipY)))
      = log w ++ evs
      ∧ count is_acquire evs = one_if (negb (unreadable w))
      ∧ count is_copy evs = one_if (negb (unreadable w)).
Proof.
  rewrite <- unreadable_spec.
  destruct (unreadable w) eqn:Hun.
  - rewrite (prepareBackdrop_unreadable host _ _ _ Hun),
      (prepareBackdrop_unreadable' host _ _ _ Hun). simpl.
    split; [done |]. split; [done |].
    destruct (warnBackbuffer_counts w) as (evs & Hl & Ha & _ & Hk & _).
    by exists evs.
  - destruct (prepareBackdrop_readable host w bounds flipY Hun)
      as (w' & rt & fl & evs & -> & Hl & Ha & _ & Hk & _).
    destruct (Shared.prepareBackdrop host w bounds flipY)
      as [[ws ts] fs] eqn:Hs.
    destruct (Shared_prepareBackdrop_counts host _ _ _ _ _ _ Hs)
      as (evs' & Hl' & Ha' & _).
    simpl. split; [done |]. split; [| by exists evs].
    split; [| done]. intros ->. exfalso.
    unfold unreadable in Hun. unfold Shared.prepareBackdrop in Hs.
    destruct (current w); [by injection Hs |].
    rewrite Hun in Hs. by injection Hs.
Qed.

(** X17. The two revisions of [prepareBackdrop] differ in one write.  On
    the same input they make the same calls and return the same texture;
    the first revision also resets the flip fraction [flipY[0]] to 0
    when a render texture is bound, the second leaves it as the caller
    passed it. *)
Theorem prepareBackdrop_revisions (host : Host) (w : World)
    (bounds : Rectangle.t) (flipY : number * number) :
  fst (Mixin.prepareBackdrop host w bounds flipY)
  = fst (Shared.prepareBackdrop host w bounds flipY)
  ∧ snd (Mixin.prepareBackdrop host w bounds flipY)
    = (if is_some (current w) then (0%Q, 1%Q)
       else snd (Shared.prepareBackdrop host w bounds flipY))
  ∧ (is_some (current w) = true →
     snd (Shared.prepareBackdrop host w bounds flipY) = (fst flipY, 1%Q)).
Proof.
  unfold Mixin.prepareBackdrop, Shared.prepareBackdrop.
  destruct (current w) as [target |]; simpl.
  - done.
  - destruct (geq (background_alpha w) 1); simpl; [done |].
    split; [done |]. split; [done |]. discriminate.
Qed.

(** ** What an accepted region saves *)

(** X18. An accepted [pushWithCheck] leaves the region's working texture
    bound and the bindings it replaced on the state.  The new top of the
    stack records the target, the chain, the source and destination
    frames that were bound and the projection transform that was set when
    [pushWithCheck] was called; the renderer then has the working texture
    bound with the region's source frame and no projection transform, and
    the working texture's filter frame is that source frame. *)
Theorem pushWithCheck_saves_bindings (host : Host) (w w1 : World)
    (target : DisplayObject.t) (filters : list nat) (check : bool) :
  Mixin.pushWithCheck host w target filters check = Some (true, w1) →
  ∃ st rt,
    defaultFilterStack w1 = st :: noteRoot (defaultFilterStack w) (current w)
    ∧ FilterState.target st = Some target
    ∧ FilterState.filters st = Some filters
    ∧ FilterState.bindingSourceFrame st = sourceFrame w
    ∧ FilterState.bindingDestinationFrame st = destinationFrame w
    ∧ FilterState.transform st = projection_transform w
    ∧ FilterState.renderTexture st = Some rt
    ∧ RenderTexture.filterFrame rt = Some (FilterState.sourceFrame st)
    ∧ current w1 = Some rt
    ∧ sourceFrame w1 = FilterState.sourceFrame st
    ∧ projection_transform w1 = None.
Proof.
  intros Hpush.
  destruct (pushWithCheck_reads host _ _ _ _ _ Hpush) as (chain & s & Hd & Hs).
  rewrite (pushWithCheck_eq host _ _ _ _ _ _ Hd Hs) in Hpush.
  simpl in Hpush.
  destruct (check && _ && _); [done |].
  unfold Mixin.openRegion in Hpush.
  match type of Hpush with
  | context [if ?c then ?d else ?e] =>
      destruct (if c then d else e) as [[wd backdrop] |]; [| done]
  end. simpl in Hpush.
  destruct (last filters) as [rl |]; [| done]. simpl in Hpush.
  match type of Hpush with
  | context [heap ?w3 !! rl] => destruct (heap w3 !! rl) as [fl |]; [| done]
  end. simpl in Hpush.
  destruct (Filter.clearColor fl) as [[[[cr cg] cb] ca] |];
    injection Hpush as <-; eexists _, _; autorewrite with world;
    (split; [reflexivity |]); simpl; repeat split; reflexivity.
Qed.

Lemma pushWithCheck_saves_bindings_witness :
  ∃ w1 st rt,
    Mixin.pushWithCheck Pixi.host Sample.three (Pixi.sprite 10 10 50 50)
      [0; 1; 2]%nat true = Some (true, w1)
    ∧ head (defaultFilterStack w1) = Some st
    ∧ FilterState.renderTexture st = Some rt
    ∧ current w1 = Some rt.
Proof.
  assert (Hpush : ∃ w1,
            Mixin.pushWithCheck Pixi.host Sample.three
              (Pixi.sprite 10 10 50 50) [0; 1; 2]%nat true = Some (true, w1))
    by (eexists; vm_compute; reflexivity).
  destruct Hpush as [w1 Hpush].
  destruct (pushWithCheck_saves_bindings Pixi.host Sample.three w1
              (Pixi.sprite 10 10 50 50) [0; 1; 2]%nat true Hpush)
    as (st & rt & Hst & _ & _ & _ & _ & _ & Hrt & _ & Hcur & _).
  exists w1, st, rt. split; [exact Hpush |]. rewrite Hst.
  split; [reflexivity |]. split; [exact Hrt | exact Hcur].
Defined.

(** ** Multisampled targets and auto-fit chains *)

(** X19. On a multisampled target a chain whose filters all keep auto-fit
    gets no backdrop.  [pushWithCheck] then copies nothing, writes to no
    filter, and takes the working texture only, whether or not filters
    of the chain name a backdrop uniform. *)
Theorem autoFit_multisample_no_backdrop (host : Host) (w w1 : World)
    (target : DisplayObject.t) (filters : list nat) (check ok : bool)
    (chain : list Filter.t) :
  deref (heap w) filters = Some chain →
  Forall (fun f => Filter.autoFit f = true) chain →
  currentMultisample w ≠ 0%Z →
  Mixin.pushWithCheck host w target filters check = Some (ok, w1) →
  heap w1 = heap w
  ∧ ∃ evs, log w1 = log w ++ evs
      ∧ count is_copy evs = 0%nat
      ∧ count is_acquire evs = one_if ok.
Proof.
  intros Hd Hfit Hms Hpush.
  destruct (pushWithCheck_reads host _ _ _ _ _ Hpush)
    as (chain' & s & Hd' & Hs).
  rewrite Hd in Hd'. injection Hd' as <-.
  assert (Hauto : Mixin.autoFit s = true).
  { rewrite (resolved_autoFit _ _ _ _ _ (settings_resolved _ _ _ _ _ Hs)).
    apply forallb_forall. intros f Hf. apply list_elem_of_In in Hf.
    by apply (proj1 (Forall_forall _ _) Hfit). }
  rewrite (pushWithCheck_eq host _ _ _ _ _ _ Hd Hs) in Hpush.
  simpl in Hpush.
  destruct (check && _ && _).
  { injection Hpush as <- <-. autorewrite with world. split; [done |].
    exists []. by rewrite app_nil_r. }
  rewrite (multisample_rules_out_backdrop host w target s Hms Hauto) in Hpush.
  destruct (openRegion_inv host _ _ _ _ _ _ _ _ _ _ _ Hpush)
    as (wd & backdrop & st & evs1 & rt & [-> ->] & -> & _ & _ & Hh1 & _ & _
        & Hl1 & _ & Ha1 & _ & Hk1 & _).
  split; [done |]. by exists evs1.
Qed.

Lemma autoFit_multisample_no_backdrop_witness :
  ∃ w1,
    Mixin.pushWithCheck Pixi.host Fitted.world (Pixi.sprite 10 10 50 50)
      [0%nat] true = Some (true, w1)
    ∧ heap w1 = heap Fitted.world.
Proof.
  assert (Hpush : ∃ w1,
            Mixin.pushWithCheck Pixi.host Fitted.world
              (Pixi.sprite 10 10 50 50) [0%nat] true = Some (true, w1))
    by (eexists; vm_compute; reflexivity).
  destruct Hpush as [w1 Hpush].
  assert (Hd : deref (heap Fitted.world) [0%nat]
               = Some [Sample.blend 1 true 10]) by (vm_compute; reflexivity).
  assert (Hms : currentMultisample Fitted.world ≠ 0%Z)
    by (vm_compute; discriminate).
  assert (Hfit : Forall (fun f => Filter.autoFit f = true)
                   [Sample.blend 1 true 10]) by (by repeat constructor).
  destruct (autoFit_multisample_no_backdrop Pixi.host Fitted.world w1
              (Pixi.sprite 10 10 50 50) [0%nat] true true
              [Sample.blend 1 true 10] Hd Hfit Hms Hpush)
    as (Hheap & _).
  exists w1. split; [exact Hpush | exact Hheap].
Defined.

(** ** The empty-bounds test of the second revision *)

Lemma Shared_empty_bounds_rejected_witness :
  ∃ w',
    Shared.pushWithCheck Pixi.host Unset.world (Pixi.sprite 10 10 1 1)
      [0%nat] true = Some (false, w')
    ∧ log w' = log Unset.world.
Proof.
  assert (Hd : deref (heap Unset.world) [0%nat] = Some [Unset.filter])
    by (vm_compute; reflexivity).
  assert (Hf : Shared.resolveFrame Pixi.host Unset.world
                 (Pixi.sprite 10 10 1 1) (Shared.seed Unset.filter)
               = Some (Rectangle.mk 10 10 1 1, true))
    by (vm_compute; reflexivity).
  destruct (Shared_empty_bounds_rejected Pixi.host Unset.world
              (Pixi.sprite 10 10 1 1) [0%nat] [Unset.filter] _ _ _ Hd eq_refl
              Hf) as (w' & Hpush & Hlog & _); [discriminate | discriminate |].
  exists w'. split; [exact Hpush | exact Hlog].
Defined.
